(** * microtrip: the itinerary assembler, the places gateway, the venue status
      widget and the results views, embedded and verified.

    Part I embeds the sources:
    - [JS], [JSON], [Browser]: the JavaScript values, [JSON.stringify] and
      [JSON.parse], and [localStorage], as far as the program uses them;
    - [Backend]: backend/src/index.ts, the three Express handlers;
    - [VenueStatus]: src/components/VenueStatus.tsx;
    - [Results]: frontend/src/app/results/page.tsx;
    - [ResultsSplit]: the second results view, whose [getPhotoUrl] splits the
      photo resource name;
    - [Home]: the write to client storage, which the sources do not contain;
    - [Scenario]: concrete upstream answers.

    - [BackendRequests], [VenueStatusView], [InteractiveMap], [ResultsEditor],
      [JSValue], [PhotoReference]: the code beside the claims, the rest of
      the venue widget, the map component's place details and the results
      view with the itinerary editor;
    - [Components], [ResultsCard], [ResultsSplitCard], [ItineraryPage]: the
      components under the itinerary of the two results views.

    Part II states and proves the claimed properties, Part III further
    properties of the code.

    JavaScript strings are sequences of UTF-16 code units; a code unit is a
    number below 65536 and is kept as an [N]. *)

From Stdlib Require Import List NArith ZArith Bool Ascii String Lia.
From Stdlib Require DecimalString.
Import ListNotations.
Import Corelib.Init.Datatypes.

Set Implicit Arguments.

(* ===================================================================== *)
(** * Part I: definitions                                                 *)
(* ===================================================================== *)

(** ** JavaScript values used by the program *)

Module JS.

Definition code_unit := N.
Definition jsstring := list code_unit.

(** A source literal, as the sequence of its code units. *)
Definition lit (s : String.string) : jsstring :=
  map N_of_ascii (String.list_ascii_of_string s).
Arguments lit s%_string.

Definition ch (c : ascii) : code_unit := N_of_ascii c.
Arguments ch c%_char.

Fixpoint str_eqb (a b : jsstring) : bool :=
  match a, b with
  | [], [] => true
  | x :: a', y :: b' => N.eqb x y && str_eqb a' b'
  | _, _ => false
  end.

(** [Number::toString] on a non-negative integer such as an array length. *)
Definition nat_to_string (n : nat) : jsstring :=
  lit (DecimalString.NilZero.string_of_uint (Nat.to_uint n)).

(** A Number value: an IEEE 754 binary64 value.  [Finite negative m e] is
    m × 2^e with its sign, m positive; NaN is left out, no JSON text denotes
    it and the program computes no number from the numbers it receives. *)
Inductive number : Type :=
| Zero (negative : bool)
| Finite (negative : bool) (m : positive) (e : Z)
| Infinity (negative : bool).
Arguments Finite negative m%_positive e%_Z.

(** The values that JSON text denotes.  An object is the sequence of its own
    properties in enumeration order. *)
#[local] Unset Elimination Schemes.
Inductive json : Type :=
| JNull
| JBool (b : bool)
| JNum (n : number)
| JStr (s : jsstring)
| JArr (items : list json)
| JObj (members : list (jsstring * json)).
#[local] Set Elimination Schemes.

(** [ToBoolean] on an optional string: [undefined], [null] and the empty
    string are falsy. *)
Definition truthy_str (s : option jsstring) : bool :=
  match s with
  | None => false
  | Some [] => false
  | Some (_ :: _) => true
  end.

(** [Array.prototype.slice(start, end)] with integer arguments: negative
    indices count from the end, both are clamped to the length. *)
Definition slice {A : Type} (l : list A) (start end_ : Z) : list A :=
  let len := Z.of_nat (length l) in
  let k := if (start <? 0)%Z then Z.max (len + start) 0 else Z.min start len in
  let final := if (end_ <? 0)%Z then Z.max (len + end_) 0 else Z.min end_ len in
  firstn (Z.to_nat (final - k)) (skipn (Z.to_nat k) l).

(** What a [try] block may do: complete normally or throw. *)
Inductive completion (E A : Type) : Type :=
| Normal (a : A)
| Throw (e : E).
Arguments Normal {E A} a.
Arguments Throw {E A} e.

Definition bind {E A B : Type} (c : completion E A) (k : A -> completion E B)
  : completion E B :=
  match c with
  | Normal a => k a
  | Throw e => Throw e
  end.

(** [try { c } catch (e) { handler }] whose handler cannot throw. *)
Definition try_catch {E A : Type} (c : completion E A) (handler : E -> A) : A :=
  match c with
  | Normal a => a
  | Throw e => handler e
  end.

(** [try { c } catch (e) { handler }] in general. *)
Definition catch {E A : Type} (c : completion E A)
    (handler : E -> completion E A) : completion E A :=
  match c with
  | Normal a => Normal a
  | Throw e => handler e
  end.

(** A value interpolated in a template literal: [undefined] is written out. *)
Definition template (v : option jsstring) : jsstring :=
  match v with
  | Some s => s
  | None => lit "undefined"
  end.

(** +0 or -0. *)
Definition number_is_zero (n : number) : bool :=
  match n with
  | Zero _ => true
  | _ => false
  end.

(** [ToBoolean] on a value. *)
Definition truthy (v : json) : bool :=
  match v with
  | JNull => false
  | JBool b => b
  | JNum n => negb (number_is_zero n)
  | JStr [] => false
  | JStr (_ :: _) => true
  | JArr _ => true
  | JObj _ => true
  end.

End JS.

Import JS.

Declare Scope js_scope.
Delimit Scope js_scope with js.
Notation "x <- c ;; k" := (bind c (fun x => k))
  (at level 61, c at next level, right associativity) : js_scope.

(** ** JSON text: [JSON.stringify] and [JSON.parse]

    Both are built into the JavaScript runtime; they are modelled after the
    JSON grammar (ECMA-404) and the language specification of the two
    functions.  A number literal is rounded to the nearest binary64 value,
    and a number is written with the fewest digits that are read back as
    it.  An object is its members in enumeration order; the engine's
    moving of integer-like keys to the front when an object is built is not
    modelled. *)

Module JSON.

#[local] Open Scope N_scope.

Definition is_char (x : ascii) (c : code_unit) : bool := N.eqb c (N_of_ascii x).
Arguments is_char x%_char c.

Definition is_ws (c : code_unit) : bool :=
  N.eqb c 32 || N.eqb c 9 || N.eqb c 10 || N.eqb c 13.

Definition is_digit (c : code_unit) : bool := N.leb 48 c && N.leb c 57.

Definition is_number_char (c : code_unit) : bool :=
  is_digit c || is_char "-" c || is_char "+" c || is_char "." c
  || is_char "e" c || is_char "E" c.

(** Surrogate code units: leading 0xD800-0xDBFF, trailing 0xDC00-0xDFFF. *)
Definition is_leading (c : code_unit) : bool := N.leb 55296 c && N.leb c 56319.
Definition is_trailing (c : code_unit) : bool := N.leb 56320 c && N.leb c 57343.

(** *** Numbers: an optional minus sign; 0, or a non-zero digit and more
    digits; an optional fraction, a dot and digits; an optional exponent,
    e or E, an optional sign and digits. *)

Fixpoint span (p : code_unit -> bool) (s : jsstring) : jsstring * jsstring :=
  match s with
  | c :: s' =>
      if p c then let (a, b) := span p s' in (c :: a, b) else ([], s)
  | [] => ([], [])
  end.

Definition nonempty (s : jsstring) : bool :=
  match s with
  | [] => false
  | _ :: _ => true
  end.

Definition valid_exponent (s : jsstring) : bool :=
  match s with
  | [] => true
  | e :: r =>
      (is_char "e" e || is_char "E" e) &&
      let ds := match r with
                | sign :: r' => if is_char "+" sign || is_char "-" sign then r' else r
                | [] => []
                end in
      nonempty ds && forallb is_digit ds
  end.

Definition valid_fraction (s : jsstring) : bool :=
  match s with
  | c :: r =>
      if is_char "." c
      then let (ds, r') := span is_digit r in nonempty ds && valid_exponent r'
      else valid_exponent s
  | [] => true
  end.

Definition valid_integer (s : jsstring) : bool :=
  match s with
  | c :: r =>
      if is_char "0" c then valid_fraction r
      else if is_digit c then valid_fraction (snd (span is_digit r))
      else false
  | [] => false
  end.

Definition valid_number (s : jsstring) : bool :=
  match s with
  | c :: r => if is_char "-" c then valid_integer r else valid_integer s
  | [] => false
  end.

(** *** The Number value of a literal and the text of a Number value *)

Module Binary64.

#[local] Open Scope Z_scope.

(** The significand and the exponent of a finite value other than zero:
    53 bits, or fewer at the least exponent. *)
Definition magnitude_ok (m e : Z) : bool :=
  ((2 ^ 52 <=? m) && (m <? 2 ^ 53) && (-1074 <=? e) && (e <=? 971))
  || ((0 <? m) && (m <? 2 ^ 52) && (e =? -1074)).

Inductive magnitude : Type :=
| Underflow               (* rounds to zero *)
| Mag (m e : Z)
| Overflow.               (* rounds to infinity *)

(** The integer part of (a / b) / 2^t, and what is left. *)
Definition quotient (a b t : Z) : Z :=
  (a * 2 ^ Z.max 0 (- t)) / (b * 2 ^ Z.max 0 t).

Definition remainder (a b t : Z) : Z :=
  (a * 2 ^ Z.max 0 (- t)) mod (b * 2 ^ Z.max 0 t).

(** The binary64 magnitude nearest to a / b, for positive a and b; a tie
    goes to the even significand. *)
Definition round (a b : Z) : magnitude :=
  let t0 := Z.log2 a - Z.log2 b - 52 in
  let t1 := if 2 ^ 52 <=? quotient a b t0 then t0 else t0 - 1 in
  let e := Z.max t1 (-1074) in
  let q := quotient a b e in
  let r := remainder a b e in
  let den := b * 2 ^ Z.max 0 e in
  let m := if 2 * r <? den then q
           else if den <? 2 * r then q + 1
           else if Z.even q then q else q + 1 in
  let '(m', e') := if m =? 2 ^ 53 then (2 ^ 52, e + 1) else (m, e) in
  if m' =? 0 then Underflow
  else if 971 <? e' then Overflow
  else Mag m' e'.

(** s × 10^q *)
Definition round_decimal (s q : Z) : magnitude :=
  round (s * 10 ^ Z.max 0 q) (10 ^ Z.max 0 (- q)).

Definition of_decimal (negative : bool) (s q : Z) : number :=
  if s =? 0 then Zero negative
  else match round_decimal s q with
       | Underflow => Zero negative
       | Mag m e => Finite negative (Z.to_pos m) e
       | Overflow => Infinity negative
       end.

Definition digit (c : code_unit) : Z := Z.of_N c - 48.

Definition digits_value (ds : jsstring) : Z :=
  fold_left (fun acc c => 10 * acc + digit c) ds 0.

(** The exponent part of a literal: e or E, an optional sign, digits. *)
Definition exponent_value (s : jsstring) : Z :=
  match s with
  | _ :: sign :: ds =>
      if is_char "-" sign then - digits_value ds
      else if is_char "+" sign then digits_value ds
      else digits_value (sign :: ds)
  | _ => 0
  end.

(** A literal without its sign as s × 10^q: the digits before and after the
    dot, and the exponent less the number of digits after the dot. *)
Definition literal_value (s : jsstring) : Z * Z :=
  let '(int_, s2) := span is_digit s in
  let '(frac, s3) := match s2 with
                     | c :: r => if is_char "." c then span is_digit r else ([], s2)
                     | [] => ([], [])
                     end in
  (digits_value (int_ ++ frac), exponent_value s3 - Z.of_nat (length frac)).

(** The Number value of a literal of the grammar above. *)
Definition ToNumber (s : jsstring) : number :=
  match s with
  | c :: r =>
      if is_char "-" c
      then of_decimal true (fst (literal_value r)) (snd (literal_value r))
      else of_decimal false (fst (literal_value s)) (snd (literal_value s))
  | [] => Zero false
  end.

(** The decimal digits of a positive integer. *)
Fixpoint to_digits (fuel : nat) (n : Z) (acc : jsstring) : jsstring :=
  match fuel with
  | O => acc
  | S fuel' =>
      let acc' := Z.to_N (48 + n mod 10) :: acc in
      if n <? 10 then acc' else to_digits fuel' (n / 10) acc'
  end.

Definition decimal (n : Z) : jsstring :=
  to_digits (S (Z.to_nat (Z.log2 n))) n [].

(** Whether s × 10^q is read back as m × 2^e. *)
Definition reads_as (m e s q : Z) : bool :=
  (0 <? s) &&
  match round_decimal s q with
  | Mag m' e' => (m' =? m) && (e' =? e)
  | _ => false
  end.

(** The digits of m × 2^e that end at 10^q, if there are any: the integer
    nearest to m × 2^e / 10^q, or else the one on the other side, when it is
    read back as m × 2^e. *)
Definition candidate (m e q : Z) : option Z :=
  let a := m * 2 ^ Z.max 0 e * 10 ^ Z.max 0 (- q) in
  let b := 2 ^ Z.max 0 (- e) * 10 ^ Z.max 0 q in
  let lo := a / b in
  let r := a mod b in
  let nearest := if 2 * r <? b then lo
                 else if b <? 2 * r then lo + 1
                 else if Z.even lo then lo else lo + 1 in
  let other := if nearest =? lo then lo + 1 else lo in
  if reads_as m e nearest q then Some nearest
  else if negb (r =? 0) && reads_as m e other q then Some other
  else None.

(** The fewest digits: the greatest q that has a candidate. *)
Fixpoint shortest_from (fuel : nat) (m e q : Z) : option (Z * Z) :=
  match fuel with
  | O => None
  | S fuel' =>
      match candidate m e q with
      | Some s => Some (s, q)
      | None => shortest_from fuel' m e (q - 1)
      end
  end.

(** Where the search starts: 10^q is more than twice m × 2^e there, so that
    no decimal ending above it is read back as m × 2^e.  It stops at
    10^-1074, where every binary64 value is an integer. *)
Definition first_exponent (m e : Z) : Z :=
  (Z.log2 m + e + 2) * 30103 / 100000 + 2.

Definition shortest (m e : Z) : option (Z * Z) :=
  let q := first_exponent m e in
  shortest_from (Z.to_nat (q + 1075)) m e q.

Definition zeros (n : Z) : jsstring := repeat (ch "0") (Z.to_nat n).

(** [Number::toString] on s × 10^q with k digits in s, n = k + q. *)
Definition format (s q : Z) : jsstring :=
  let digits := decimal s in
  let k := Z.of_nat (length digits) in
  let n := k + q in
  if (k <=? n) && (n <=? 21) then digits ++ zeros (n - k)
  else if (0 <? n) && (n <=? 21)
  then firstn (Z.to_nat n) digits ++ ch "." :: skipn (Z.to_nat n) digits
  else if (-6 <? n) && (n <=? 0)
  then ch "0" :: ch "." :: zeros (- n) ++ digits
  else
    let exponent :=
      (if n - 1 <? 0 then ch "-" else ch "+") :: decimal (Z.abs (n - 1)) in
    match digits with
    | [d] => d :: ch "e" :: exponent
    | d :: ds => d :: ch "." :: ds ++ ch "e" :: exponent
    | [] => []
    end.

(** [Number::toString] *)
Definition toString (n : number) : jsstring :=
  match n with
  | Zero _ => lit "0"
  | Infinity false => lit "Infinity"
  | Infinity true => lit "-Infinity"
  | Finite negative m e =>
      (if negative then [ch "-"] else []) ++
      match shortest (Z.pos m) e with
      | Some (s, q) => format s q
      | None => []
      end
  end.

(** [SerializeJSONProperty] on a Number: what is not finite is written as
    null. *)
Definition number_text (n : number) : jsstring :=
  match n with
  | Infinity _ => lit "null"
  | _ => toString n
  end.

(** The numbers that JSON text carries unchanged: the finite binary64 values
    but negative zero, which is written as 0. *)
Definition json_number (n : number) : bool :=
  match n with
  | Zero negative => negb negative
  | Finite _ m e => magnitude_ok (Z.pos m) e
  | Infinity _ => false
  end.

End Binary64.

(** *** Strings *)

Definition hex_digit (n : N) : code_unit :=
  if N.ltb n 10 then 48 + n else 87 + n.

Definition hex_value (c : code_unit) : option N :=
  if N.leb 48 c && N.leb c 57 then Some (c - 48)
  else if N.leb 97 c && N.leb c 102 then Some (c - 87)
  else if N.leb 65 c && N.leb c 70 then Some (c - 55)
  else None.

(** [\uXXXX], with lower-case hexadecimal digits. *)
Definition unicode_escape (c : code_unit) : jsstring :=
  [ch "\"; ch "u";
   hex_digit (c / 4096 mod 16); hex_digit (c / 256 mod 16);
   hex_digit (c / 16 mod 16); hex_digit (c mod 16)].

Definition hex4_value (h1 h2 h3 h4 : code_unit) : option code_unit :=
  match hex_value h1, hex_value h2, hex_value h3, hex_value h4 with
  | Some a, Some b, Some c, Some d => Some (((a * 16 + b) * 16 + c) * 16 + d)
  | _, _, _, _ => None
  end.

(** One code unit that is not the first half of a surrogate pair, quoted. *)
Definition quote_unit (c : code_unit) : jsstring :=
  if N.eqb c 8 then lit "\b"
  else if N.eqb c 9 then lit "\t"
  else if N.eqb c 10 then lit "\n"
  else if N.eqb c 12 then lit "\f"
  else if N.eqb c 13 then lit "\r"
  else if N.eqb c 34 then [ch "\"; 34]
  else if N.eqb c 92 then lit "\\"
  else if N.ltb c 32 || is_leading c || is_trailing c then unicode_escape c
  else [c].

(** The characters of a quoted string and its closing quote: a surrogate pair
    is written as it is, a lone surrogate is escaped. *)
Fixpoint quote_chars (s : jsstring) : jsstring :=
  match s with
  | [] => [34]
  | c :: s' =>
      if is_leading c then
        match s' with
        | d :: s'' =>
            if is_trailing d then c :: d :: quote_chars s''
            else unicode_escape c ++ quote_chars s'
        | [] => unicode_escape c ++ [34]
        end
      else quote_unit c ++ quote_chars s'
  end.

(** [QuoteJSONString] *)
Definition quote (s : jsstring) : jsstring := 34 :: quote_chars s.

(** *** [JSON.stringify(value)], without indentation *)

Fixpoint stringify (v : json) : jsstring :=
  match v with
  | JNull => lit "null"
  | JBool true => lit "true"
  | JBool false => lit "false"
  | JNum n => Binary64.number_text n
  | JStr s => quote s
  | JArr [] => lit "[]"
  | JArr (x :: items) =>
      ch "[" :: stringify x ++
      (fix elements (l : list json) : jsstring :=
         match l with
         | [] => [ch "]"]
         | y :: l' => ch "," :: stringify y ++ elements l'
         end) items
  | JObj [] => lit "{}"
  | JObj ((k, x) :: members) =>
      ch "{" :: quote k ++ ch ":" :: stringify x ++
      (fix properties (l : list (jsstring * json)) : jsstring :=
         match l with
         | [] => [ch "}"]
         | (k', y) :: l' => ch "," :: quote k' ++ ch ":" :: stringify y ++ properties l'
         end) members
  end.

(** *** [JSON.parse(text)] *)

Inductive result (A : Type) : Type :=
| Ok (a : A) (rest : jsstring)
| SyntaxError
| OutOfFuel.
Arguments Ok {A} a rest.
Arguments SyntaxError {A}.
Arguments OutOfFuel {A}.

Fixpoint skip_ws (s : jsstring) : jsstring :=
  match s with
  | c :: s' => if is_ws c then skip_ws s' else s
  | [] => []
  end.

Definition simple_escape (e : code_unit) : option code_unit :=
  if N.eqb e 34 then Some 34
  else if is_char "\" e then Some 92
  else if is_char "/" e then Some 47
  else if is_char "b" e then Some 8
  else if is_char "f" e then Some 12
  else if is_char "n" e then Some 10
  else if is_char "r" e then Some 13
  else if is_char "t" e then Some 9
  else None.

(** The characters of a string literal, after its opening quote. *)
Fixpoint parse_chars (s : jsstring) : result jsstring :=
  match s with
  | [] => SyntaxError
  | c :: s' =>
      if N.eqb c 34 then Ok [] s'
      else if N.eqb c 92 then
        match s' with
        | e :: s'' =>
            if is_char "u" e then
              match s'' with
              | h1 :: h2 :: h3 :: h4 :: s''' =>
                  match hex4_value h1 h2 h3 h4 with
                  | Some u =>
                      match parse_chars s''' with
                      | Ok str rest => Ok (u :: str) rest
                      | err => err
                      end
                  | None => SyntaxError
                  end
              | _ => SyntaxError
              end
            else
              match simple_escape e with
              | Some u =>
                  match parse_chars s'' with
                  | Ok str rest => Ok (u :: str) rest
                  | err => err
                  end
              | None => SyntaxError
              end
        | [] => SyntaxError
        end
      else if N.ltb c 32 then SyntaxError
      else
        match parse_chars s' with
        | Ok str rest => Ok (c :: str) rest
        | err => err
        end
  end.

Fixpoint strip_prefix (p s : jsstring) : option jsstring :=
  match p, s with
  | [], _ => Some s
  | x :: p', y :: s' => if N.eqb x y then strip_prefix p' s' else None
  | _ :: _, [] => None
  end.

Definition parse_literal (word : jsstring) (v : json) (s : jsstring) : result json :=
  match strip_prefix word s with
  | Some rest => Ok v rest
  | None => SyntaxError
  end.

Definition parse_number (s : jsstring) : result json :=
  let (token, rest) := span is_number_char s in
  if valid_number token then Ok (JNum (Binary64.ToNumber token)) rest
  else SyntaxError.

(** [CreateDataProperty] on the object under construction: a repeated key
    keeps its place and takes the later value. *)
Fixpoint set_property (k : jsstring) (v : json) (o : list (jsstring * json))
  : list (jsstring * json) :=
  match o with
  | [] => [(k, v)]
  | (k', v') :: o' =>
      if str_eqb k k' then (k', v) :: o' else (k', v') :: set_property k v o'
  end.

Definition object_of (members : list (jsstring * json)) : json :=
  JObj (fold_left (fun o kv => set_property (fst kv) (snd kv) o) members []).

(** Recursive descent; every call spends one unit of [fuel]. *)
Fixpoint parse_value (fuel : nat) (s : jsstring) : result json :=
  match fuel with
  | O => OutOfFuel
  | S fuel' =>
      match skip_ws s with
      | [] => SyntaxError
      | c :: s' =>
          if is_char "{" c then
            match skip_ws s' with
            | d :: s'' =>
                if is_char "}" d then Ok (JObj []) s''
                else
                  match parse_members fuel' (skip_ws s') with
                  | Ok ms rest => Ok (object_of ms) rest
                  | SyntaxError => SyntaxError
                  | OutOfFuel => OutOfFuel
                  end
            | [] => SyntaxError
            end
          else if is_char "[" c then
            match skip_ws s' with
            | d :: s'' =>
                if is_char "]" d then Ok (JArr []) s''
                else
                  match parse_elements fuel' (skip_ws s') with
                  | Ok vs rest => Ok (JArr vs) rest
                  | SyntaxError => SyntaxError
                  | OutOfFuel => OutOfFuel
                  end
            | [] => SyntaxError
            end
          else if N.eqb c 34 then
            match parse_chars s' with
            | Ok str rest => Ok (JStr str) rest
            | SyntaxError => SyntaxError
            | OutOfFuel => OutOfFuel
            end
          else if is_char "t" c then parse_literal (lit "true") (JBool true) (c :: s')
          else if is_char "f" c then parse_literal (lit "false") (JBool false) (c :: s')
          else if is_char "n" c then parse_literal (lit "null") JNull (c :: s')
          else if is_char "-" c || is_digit c then parse_number (c :: s')
          else SyntaxError
      end
  end

with parse_elements (fuel : nat) (s : jsstring) : result (list json) :=
  match fuel with
  | O => OutOfFuel
  | S fuel' =>
      match parse_value fuel' s with
      | Ok v rest =>
          match skip_ws rest with
          | c :: rest' =>
              if is_char "," c then
                match parse_elements fuel' rest' with
                | Ok vs rest'' => Ok (v :: vs) rest''
                | err => err
                end
              else if is_char "]" c then Ok [v] rest'
              else SyntaxError
          | [] => SyntaxError
          end
      | SyntaxError => SyntaxError
      | OutOfFuel => OutOfFuel
      end
  end

with parse_members (fuel : nat) (s : jsstring) : result (list (jsstring * json)) :=
  match fuel with
  | O => OutOfFuel
  | S fuel' =>
      match skip_ws s with
      | q :: s' =>
          if N.eqb q 34 then
            match parse_chars s' with
            | Ok k rest =>
                match skip_ws rest with
                | colon :: rest' =>
                    if is_char ":" colon then
                      match parse_value fuel' rest' with
                      | Ok v rest'' =>
                          match skip_ws rest'' with
                          | c :: rest3 =>
                              if is_char "," c then
                                match parse_members fuel' rest3 with
                                | Ok ms rest4 => Ok ((k, v) :: ms) rest4
                                | err => err
                                end
                              else if is_char "}" c then Ok [(k, v)] rest3
                              else SyntaxError
                          | [] => SyntaxError
                          end
                      | SyntaxError => SyntaxError
                      | OutOfFuel => OutOfFuel
                      end
                    else SyntaxError
                | [] => SyntaxError
                end
            | SyntaxError => SyntaxError
            | OutOfFuel => OutOfFuel
            end
          else SyntaxError
      | [] => SyntaxError
      end
  end.

(** The whole text must be one value, white space around it allowed. *)
Definition parse_text (fuel : nat) (text : jsstring) : result json :=
  match parse_value fuel text with
  | Ok v rest =>
      match skip_ws rest with
      | [] => Ok v []
      | _ :: _ => SyntaxError
      end
  | err => err
  end.

Definition enough_fuel (text : jsstring) : nat := (2 * length text + 2)%nat.

Inductive SyntaxError_ : Type := Unexpected.

(** [JSON.parse(text)]: the value, or a thrown [SyntaxError]. *)
Definition parse (text : jsstring) : completion SyntaxError_ json :=
  match parse_text (enough_fuel text) text with
  | Ok v _ => Normal v
  | _ => Throw Unexpected
  end.

(** The values [stringify] and [parse] exchange faithfully: the numbers are
    finite binary64 values other than negative zero and the keys of an
    object are distinct. *)
Fixpoint distinct (keys : list jsstring) : bool :=
  match keys with
  | [] => true
  | k :: keys' => negb (existsb (str_eqb k) keys') && distinct keys'
  end.

Fixpoint wf (v : json) : bool :=
  match v with
  | JNull | JBool _ | JStr _ => true
  | JNum n => Binary64.json_number n
  | JArr items => forallb wf items
  | JObj members =>
      distinct (map fst members) && forallb (fun kv => wf (snd kv)) members
  end.

(** The text after the first element of an array, and after the first
    member of an object. *)
Definition stringify_elements : list json -> jsstring :=
  fix elements (l : list json) : jsstring :=
    match l with
    | [] => [ch "]"]
    | y :: l' => ch "," :: stringify y ++ elements l'
    end.

Definition stringify_properties : list (jsstring * json) -> jsstring :=
  fix properties (l : list (jsstring * json)) : jsstring :=
    match l with
    | [] => [ch "}"]
    | (k', y) :: l' => ch "," :: quote k' ++ ch ":" :: stringify y ++ properties l'
    end.

(** What may follow a value in a text: nothing a number could go on with. *)
Definition delimited (rest : jsstring) : Prop :=
  match rest with
  | [] => True
  | c :: _ => is_number_char c = false
  end.

(** What the round trip says of one value. *)
Definition reads_back (v : json) : Prop :=
  wf v = true ->
  forall (fuel : nat) (rest : jsstring),
    (2 * length (stringify v ++ rest) < fuel)%nat ->
    delimited rest ->
    parse_value fuel (stringify v ++ rest) = Ok v rest.

End JSON.

(** ** backend/src/index.ts *)

Module Backend.

Definition Place := json.

(** [interface PlacesResponse { places?: Place[] }] (and
    [CitySearchResponse], of the same shape). *)
Record PlacesResponse := { places_opt : option (list Place) }.

Record CitySearchRequest := { cs_cityName : jsstring }.

Record TripRecommendRequest := {
  cityName : jsstring;
  budget : jsstring;
  tripType : jsstring
}.

(** The request [axios.post] sends upstream. *)
Record AxiosRequest := {
  url : jsstring;
  textQuery : jsstring;
  languageCode : option jsstring;
  maxResultCount : option Z;
  hdr_ContentType : jsstring;
  hdr_ApiKey : option jsstring;
  hdr_FieldMask : jsstring
}.

(** The [response] property of a thrown object. *)
Inductive ResponseProp : Type :=
| NoResponseProp                          (* 'response' in error is false *)
| ResponseUndefined                       (* present, but undefined *)
| ResponseWith (status : Z) (data : json). (* the upstream answered *)

(** What the handlers can catch. *)
Inductive Thrown : Type :=
| Error_ (message : jsstring)             (* new Error(message) *)
| AxiosError (response : ResponseProp).

(** [axios.post] resolves on a 2xx answer and rejects otherwise. *)
Definition Upstream := AxiosRequest -> completion Thrown PlacesResponse.

Record Env := { GOOGLE_PLACES_API_KEY : option jsstring }.

Record TimeSlot := {
  title : jsstring;
  description : jsstring;
  places : list Place
}.

Record Day := {
  morning : TimeSlot;
  afternoon : TimeSlot;
  evening : TimeSlot
}.

Record TripRecommendation := {
  city : jsstring;
  day1 : Day;
  day2 : Day
}.

(** The value of the [details] field of the error envelope. *)
Inductive Details : Type :=
| DetailsUndefined
| DetailsData (d : json)
| DetailsError (e : Thrown).

Inductive Body : Type :=
| BodyPlaces (ps : list Place)                    (* { places } *)
| BodyRaw (d : PlacesResponse)                    (* response.data *)
| BodyRecommendation (r : TripRecommendation)
| BodyError (error : jsstring) (details : Details).  (* { error, details } *)

Record HttpResponse := { status : Z; body : Body }.

(** [res.json(b)] *)
Definition res_json (b : Body) : HttpResponse := {| status := 200; body := b |}.
(** [res.status(code).json(b)] *)
Definition res_status_json (code : Z) (b : Body) : HttpResponse :=
  {| status := code; body := b |}.

Inductive LogEntry : Type :=
| Log (line : jsstring)                    (* console.log *)
| LogError (tag : jsstring) (e : Thrown)   (* console.error(tag, error) *)
| LogResponse (tag : jsstring) (d : Details).

(** [error && typeof error === 'object' && 'response' in error] *)
Definition has_response (e : Thrown) : bool :=
  match e with
  | Error_ _ => false
  | AxiosError NoResponseProp => false
  | AxiosError _ => true
  end.

(** [(error as any).response?.data] *)
Definition response_data (e : Thrown) : Details :=
  match e with
  | AxiosError (ResponseWith _ d) => DetailsData d
  | _ => DetailsUndefined
  end.

Definition details_of (e : Thrown) : Details :=
  if has_response e then response_data e else DetailsError e.

Definition searchText_url : jsstring :=
  lit "https://places.googleapis.com/v1/places:searchText".

Definition cities_request (env : Env) (req : CitySearchRequest) : AxiosRequest :=
  {| url := searchText_url;
     textQuery := lit "city of " ++ cs_cityName req ++ lit ", France";
     languageCode := Some (lit "en");
     maxResultCount := Some 5%Z;
     hdr_ContentType := lit "application/json";
     hdr_ApiKey := GOOGLE_PLACES_API_KEY env;
     hdr_FieldMask :=
       lit "places.displayName,places.formattedAddress,places.location" |}.

(** [app.post('/api/cities/search', ...)] *)
Definition searchCities (env : Env) (axios_post : Upstream)
    (req : CitySearchRequest) : HttpResponse :=
  try_catch
    ((_ <- (if negb (truthy_str (GOOGLE_PLACES_API_KEY env))
            then Throw (Error_ (lit "Google Places API key is not configured"))
            else Normal tt) ;;
      response <- axios_post (cities_request env req) ;;
      Normal (match places_opt response with
              | None => res_json (BodyPlaces [])
              | Some ps => res_json (BodyPlaces ps)
              end))%js)
    (fun error =>
       res_status_json 500
         (BodyError (lit "Failed to fetch cities") (details_of error))).

(** [app.post('/api/places/search', ...)] *)
Definition searchPlaces (env : Env) (axios_post : Upstream)
    (cityName_ type_ : jsstring) : HttpResponse :=
  try_catch
    ((_ <- (if negb (truthy_str (GOOGLE_PLACES_API_KEY env))
            then Throw (Error_ (lit "Google Places API key is not configured"))
            else Normal tt) ;;
      response <- axios_post
        {| url := searchText_url;
           textQuery := type_ ++ lit " in " ++ cityName_;
           languageCode := None;
           maxResultCount := Some 10%Z;
           hdr_ContentType := lit "application/json";
           hdr_ApiKey := GOOGLE_PLACES_API_KEY env;
           hdr_FieldMask :=
             lit "places.displayName,places.formattedAddress,places.rating,places.userRatingCount,places.primaryTypeDisplayName,places.regularOpeningHours,places.priceLevel,places.photos,places.websiteUri,places.phoneNumber,places.location" |} ;;
      Normal (res_json (BodyRaw response)))%js)
    (fun error =>
       res_status_json 500
         (BodyError (lit "Failed to fetch places") (details_of error))).

Definition recommend_fieldMask : jsstring :=
  lit "places.id,places.displayName,places.formattedAddress,places.rating,places.userRatingCount,places.photos".

Definition attractions_request (env : Env) (cityName_ : jsstring) : AxiosRequest :=
  {| url := searchText_url;
     textQuery := lit "tourist attractions in " ++ cityName_;
     languageCode := Some (lit "en");
     maxResultCount := None;
     hdr_ContentType := lit "application/json";
     hdr_ApiKey := GOOGLE_PLACES_API_KEY env;
     hdr_FieldMask := recommend_fieldMask |}.

Definition restaurants_request (env : Env) (cityName_ : jsstring) : AxiosRequest :=
  {| url := searchText_url;
     textQuery := lit "restaurants in " ++ cityName_;
     languageCode := Some (lit "en");
     maxResultCount := None;
     hdr_ContentType := lit "application/json";
     hdr_ApiKey := GOOGLE_PLACES_API_KEY env;
     hdr_FieldMask := recommend_fieldMask |}.

(** [response.data.places || []] *)
Definition places_or_empty (d : PlacesResponse) : list Place :=
  match places_opt d with
  | Some ps => ps
  | None => []
  end.

(** The object literal bound to [recommendation] in the recommend handler. *)
Definition recommendation (cityName_ : jsstring)
    (attractions restaurants : list Place) : TripRecommendation :=
  {| city := cityName_;
     day1 :=
       {| morning :=
            {| title := lit "Morning Exploration";
               description := lit "Start your day exploring the city's main attractions";
               places := slice attractions 0 2 |};
          afternoon :=
            {| title := lit "Afternoon Activities";
               description := lit "Continue discovering the city's highlights";
               places := slice attractions 2 4 |};
          evening :=
            {| title := lit "Evening Entertainment";
               description := lit "Enjoy dinner and evening activities";
               places := slice restaurants 0 2 |} |};
     day2 :=
       {| morning :=
            {| title := lit "Morning Activities";
               description := lit "Start your second day with local experiences";
               places := slice attractions 4 6 |};
          afternoon :=
            {| title := lit "Afternoon Exploration";
               description := lit "More city highlights and activities";
               places := slice attractions 6 8 |};
          evening :=
            {| title := lit "Farewell Evening";
               description := lit "End your trip with memorable experiences";
               places := slice restaurants 2 4 |} |} |}.

(** [app.post('/api/trips/recommend', ...)]: the response together with what
    the handler writes to the console.  The handler does not check that a
    credential is configured. *)
Definition recommendTrip (env : Env) (axios_post : Upstream)
    (req : TripRecommendRequest) : HttpResponse * list LogEntry :=
  let log0 :=
    [Log (lit "[Recommendations] Generating trip for " ++ cityName req
          ++ lit " (" ++ budget req ++ lit ", " ++ tripType req ++ lit ")")] in
  try_catch
    ((attractionsResponse <- axios_post (attractions_request env (cityName req)) ;;
      restaurantsResponse <- axios_post (restaurants_request env (cityName req)) ;;
      let attractions := places_or_empty attractionsResponse in
      let restaurants := places_or_empty restaurantsResponse in
      Normal
        (res_json (BodyRecommendation
                     (recommendation (cityName req) attractions restaurants)),
         log0 ++
         [Log (lit "[Recommendations] Found "
               ++ nat_to_string (length attractions)
               ++ lit " attractions and "
               ++ nat_to_string (length restaurants)
               ++ lit " restaurants")]))%js)
    (fun error =>
       (res_status_json 500
          (BodyError (lit "Failed to generate recommendations") (details_of error)),
        log0 ++
        [LogError (lit "[Recommendations] Error:") error] ++
        (if has_response error
         then [LogResponse (lit "[Recommendations] Response:") (response_data error)]
         else []))).

(** The six slots of a recommendation, in the order of the object literal. *)
Definition slots (r : TripRecommendation) : list TimeSlot :=
  [morning (day1 r); afternoon (day1 r); evening (day1 r);
   morning (day2 r); afternoon (day2 r); evening (day2 r)].

Definition slots_total (r : TripRecommendation) : nat :=
  length (List.concat (map places (slots r))).

Definition slot_size (s : TimeSlot) : Z := Z.of_nat (length (places s)).

(** The recommendation as the JavaScript object it is: the properties of the
    object literal, in the order they are written. *)
Definition slot_value (s : TimeSlot) : json :=
  JObj [(lit "title", JStr (title s));
        (lit "description", JStr (description s));
        (lit "places", JArr (places s))].

Definition day_value (d : Day) : json :=
  JObj [(lit "morning", slot_value (morning d));
        (lit "afternoon", slot_value (afternoon d));
        (lit "evening", slot_value (evening d))].

Definition value_of (r : TripRecommendation) : json :=
  JObj [(lit "city", JStr (city r));
        (lit "day1", day_value (day1 r));
        (lit "day2", day_value (day2 r))].

(** A structurally valid recommendation: every place in it is a value that
    JSON text can carry. *)
Definition valid_recommendation (r : TripRecommendation) : bool :=
  forallb JSON.wf (List.concat (map places (slots r))).

(** [s] holds exactly the elements of [src] at the indices k and k+1 that
    exist, in order. *)
Definition is_window {A : Type} (src : list A) (k : nat) (s : list A) : Prop :=
  forall j : nat,
    nth_error s j = if (j <? 2)%nat then nth_error src (k + j) else None.

End Backend.

(** ** src/components/VenueStatus.tsx *)

Module VenueStatus.

(** [VenueData['crowdLevel']] *)
Inductive CrowdLevel : Type := Low | Moderate | High | VeryHigh.

Record Period := {
  open_day : Z; open_hour : Z; open_minute : Z;
  close_day : Z; close_hour : Z; close_minute : Z
}.

Record OpeningHours := { openNow : bool; periods : list Period }.

(** The fields of the place-details answer that the widget reads. *)
Record PlaceDetails := {
  pd_name : option jsstring;
  pd_rating : option number;
  pd_userRatingCount : option number;
  pd_formattedAddress : option jsstring;
  pd_photos : option (list json);
  pd_currentOpeningHours : option OpeningHours
}.

Record VenueData := {
  name : option jsstring;
  currentWaitTime : Z;
  crowdLevel : CrowdLevel;
  lastUpdated : jsstring;
  specialEvents : list jsstring;
  maintenanceAlerts : list jsstring;
  isOperational : bool;
  rating : option number;
  userRatingCount : option number;
  formattedAddress : option jsstring;
  photos : option (list json);
  currentOpeningHours : option OpeningHours
}.

(** What the [try] block can throw. *)
Inductive Thrown : Type :=
| Error_ (message : jsstring)     (* err instanceof Error *)
| NotAnError.

(** The answer of [fetch]: its [ok] flag and what [response.json()] gives. *)
Record FetchResponse := {
  ok : bool;
  json_ : completion Thrown PlaceDetails
}.

Record FetchRequest := {
  fetch_url : jsstring;
  fetch_ContentType : jsstring;
  fetch_ApiKey : jsstring;
  fetch_FieldMask : jsstring
}.

(** The clock and the random source the widget consults. *)
Record Clock := {
  getHours : Z;          (* new Date().getHours(), the local hour *)
  getDay : Z;            (* new Date().getDay() *)
  toISOString : jsstring
}.

Record State := {
  venueData : option VenueData;
  loading : bool;
  error : option jsstring
}.

(** The if / else-if / else chain on [hour] in [fetchVenueData]. *)
Definition estimateCrowdLevel (hour : Z) : CrowdLevel :=
  if ((hour >=? 11) && (hour <=? 14) || (hour >=? 18) && (hour <=? 20))%Z
  then High
  else if ((hour >=? 9) && (hour <=? 17))%Z then Moderate
  else Low.

(** The [try] block of [fetchVenueData]; [random30] is
    [Math.floor(Math.random() * 30)]. *)
Definition fetchVenueData_try (apiKey : option jsstring) (venueId : jsstring)
    (fetch : FetchRequest -> completion Thrown FetchResponse)
    (now : Clock) (random30 : Z) : completion Thrown VenueData :=
  (key <- match apiKey with
          | Some (c :: k) => Normal (c :: k)
          | _ => Throw (Error_ (lit "Google Places API key not configured"))
          end ;;
   response <- fetch
     {| fetch_url := lit "https://places.googleapis.com/v1/places/" ++ venueId;
        fetch_ContentType := lit "application/json";
        fetch_ApiKey := key;
        fetch_FieldMask :=
          lit "name,rating,userRatingCount,formattedAddress,photos,currentOpeningHours" |} ;;
   _ <- (if negb (ok response)
         then Throw (Error_ (lit "Failed to fetch venue data"))
         else Normal tt) ;;
   data <- json_ response ;;
   let hour := getHours now in
   let crowdLevel_ := estimateCrowdLevel hour in
   let isOpen := match pd_currentOpeningHours data with
                 | Some h => openNow h || false
                 | None => false
                 end in
   let currentPeriod :=
     match pd_currentOpeningHours data with
     | Some h => find (fun period => Z.eqb (open_day period) (getDay now)) (periods h)
     | None => None
     end in
   Normal {| name := pd_name data;
             crowdLevel := crowdLevel_;
             currentWaitTime := random30;
             lastUpdated := toISOString now;
             isOperational := isOpen;
             rating := pd_rating data;
             userRatingCount := pd_userRatingCount data;
             formattedAddress := pd_formattedAddress data;
             photos := pd_photos data;
             currentOpeningHours := pd_currentOpeningHours data;
             specialEvents := [];
             maintenanceAlerts := [] |})%js.

(** [fetchVenueData], from the state before the call to the state after its
    [finally] clause. *)
Definition fetchVenueData (apiKey : option jsstring) (venueId : jsstring)
    (fetch : FetchRequest -> completion Thrown FetchResponse)
    (now : Clock) (random30 : Z) (st : State) : State :=
  match fetchVenueData_try apiKey venueId fetch now random30 with
  | Normal vd => {| venueData := Some vd; loading := false; error := None |}
  | Throw err =>
      {| venueData := venueData st;
         loading := false;
         error := Some (match err with
                        | Error_ message => message
                        | NotAnError => lit "Failed to fetch venue data"
                        end) |}
  end.

End VenueStatus.

(** ** Client-side storage *)

Module Browser.

(** [localStorage]: string keys to string values. *)
Definition Storage := list (jsstring * jsstring).

Fixpoint getItem (store : Storage) (key : jsstring) : option jsstring :=
  match store with
  | [] => None
  | (k, v) :: store' => if str_eqb k key then Some v else getItem store' key
  end.

Definition setItem (store : Storage) (key value : jsstring) : Storage :=
  (key, value) :: filter (fun kv => negb (str_eqb (fst kv) key)) store.

End Browser.

(** ** The page that stores the recommendation *)

Module Home.

Import Browser.

(** Modelled from the spec: the page that writes the recommendation to client
    storage is not among the sources.  "The entire trip recommendation object
    is serialized into client-side key-value storage under a fixed key"; the
    key is the one the results views read. *)
Definition persistRecommendation (localStorage : Storage) (recommendation : json)
  : Storage :=
  setItem localStorage (lit "tripRecommendations") (JSON.stringify recommendation).

End Home.

(** ** frontend/src/app/results/page.tsx *)

Module Results.

Import Browser.

Record State := {
  recommendation : json;            (* null until loaded *)
  error : option jsstring
}.

Definition initial : State := {| recommendation := JNull; error := None |}.

Definition setRecommendation (v : json) (st : State) : State :=
  {| recommendation := v; error := error st |}.

Definition setError (message : jsstring) (st : State) : State :=
  {| recommendation := recommendation st; error := Some message |}.

(** [getPhotoUrl] of this variant: no parsing of the resource name. *)
Definition getPhotoUrl (apiKey : option jsstring) (photoReference : jsstring)
  : jsstring :=
  match photoReference with
  | [] => []
  | _ :: _ =>
      match apiKey with
      | Some (c :: k) =>
          match JSON.strip_prefix (lit "places/") photoReference with
          | Some _ =>
              lit "https://places.googleapis.com/v1/" ++ photoReference
              ++ lit "/media?key=" ++ (c :: k) ++ lit "&maxHeightPx=400"
          | None =>
              lit "https://maps.googleapis.com/maps/api/place/photo?maxwidth=400&photo_reference="
              ++ photoReference ++ lit "&key=" ++ (c :: k)
          end
      | _ => []
      end
  end.

(** The effect run once after the first render. *)
Definition useEffect_load (localStorage : Storage) (st : State)
  : completion JSON.SyntaxError_ State :=
  let storedRecommendation := getItem localStorage (lit "tripRecommendations") in
  if truthy_str storedRecommendation then
    catch ((v <- JSON.parse (match storedRecommendation with
                             | Some text => text
                             | None => []
                             end) ;;
            Normal (setRecommendation v st))%js)
          (fun err => Normal (setError (lit "Failed to load trip recommendations") st))
  else Normal (setError (lit "No trip recommendations found") st).

(** What the component returns. *)
Inductive View : Type :=
| ErrorScreen (message : jsstring) (button : jsstring) (pushes : jsstring)
| Spinner
| Itinerary (recommendation : json).

Definition render (st : State) : View :=
  if truthy_str (error st) then
    ErrorScreen (match error st with Some m => m | None => [] end)
                (lit "Plan New Trip") (lit "/")
  else if negb (truthy (recommendation st)) then Spinner
  else Itinerary (recommendation st).

End Results.

(** ** The second results view (the source file whose name is unknown) *)

Module ResultsSplit.

Import Browser.

Record State := {
  recommendation : json;
  error : option jsstring
}.

Definition initial : State := {| recommendation := JNull; error := None |}.

Definition setRecommendation (v : json) (st : State) : State :=
  {| recommendation := v; error := error st |}.

Definition setError (message : jsstring) (st : State) : State :=
  {| recommendation := recommendation st; error := Some message |}.

(** [photoReference.split('/')] *)
Fixpoint split (sep : code_unit) (s : jsstring) : list jsstring :=
  match s with
  | [] => [[]]
  | c :: s' =>
      if N.eqb c sep then [] :: split sep s'
      else match split sep s' with
           | part :: parts => (c :: part) :: parts
           | [] => [[c]]
           end
  end.

(** [getPhotoUrl] of [PlaceCard]. *)
Definition getPhotoUrl (apiKey : option jsstring) (photoReference : jsstring)
  : jsstring :=
  if negb (truthy_str apiKey) then []
  else
    let parts := split (ch "/") photoReference in
    if (length parts <? 3)%nat then []
    else
      let placeId := nth_error parts 1 in
      let photoId := nth_error parts 3 in
      lit "https://places.googleapis.com/v1/places/" ++ template placeId
      ++ lit "/photos/" ++ template photoId
      ++ lit "/media?key=" ++ template apiKey ++ lit "&maxHeightPx=400".

Definition useEffect_load (localStorage : Storage) (st : State)
  : completion JSON.SyntaxError_ State :=
  let storedRecommendation := getItem localStorage (lit "tripRecommendations") in
  if truthy_str storedRecommendation then
    catch ((v <- JSON.parse (match storedRecommendation with
                             | Some text => text
                             | None => []
                             end) ;;
            Normal (setRecommendation v st))%js)
          (fun err => Normal (setError (lit "Failed to load trip recommendations") st))
  else Normal (setError (lit "No trip recommendations found") st).

Inductive View : Type :=
| ErrorScreen (message : jsstring) (button : jsstring) (pushes : jsstring)
| Spinner
| Itinerary (recommendation : json).

Definition render (st : State) : View :=
  if truthy_str (error st) then
    ErrorScreen (match error st with Some m => m | None => [] end)
                (lit "Plan New Trip") (lit "/")
  else if negb (truthy (recommendation st)) then Spinner
  else Itinerary (recommendation st).

End ResultsSplit.

(** ** Concrete upstream answers, used to run the handlers *)

Module Scenario.

Import Backend.

Definition mkPlace (id name : jsstring) : Place :=
  JObj [(lit "id", JStr id);
        (lit "displayName", JObj [(lit "text", JStr name)])].

Definition paris_attractions : list Place :=
  [mkPlace (lit "a1") (lit "Louvre Museum");
   mkPlace (lit "a2") (lit "Eiffel Tower");
   mkPlace (lit "a3") (lit "Notre-Dame")].

Definition paris_restaurants : list Place :=
  [mkPlace (lit "r1") (lit "Le Procope")].

(** Places with the numbers of the field mask: the values of the literals
    4.7, 310525, 4.35 and 1e21. *)
Definition rated_attractions : list Place :=
  [JObj [(lit "id", JStr (lit "a1"));
         (lit "displayName", JObj [(lit "text", JStr (lit "Louvre Museum"))]);
         (lit "rating", JNum (Finite false 5291729562160333 (-50)));
         (lit "userRatingCount", JNum (Finite false 5334778878361600 (-34)))];
   JObj [(lit "id", JStr (lit "a2"));
         (lit "displayName", JObj [(lit "text", JStr (lit "Eiffel Tower"))]);
         (lit "rating", JNum (Finite false 4897664594765414 (-50)));
         (lit "userRatingCount", JNum (Finite false 7629394531250000 17))]].

Definition eight_attractions : list Place :=
  paris_attractions ++
  [mkPlace (lit "a4") (lit "Sacre-Coeur");
   mkPlace (lit "a5") (lit "Arc de Triomphe");
   mkPlace (lit "a6") (lit "Musee d'Orsay");
   mkPlace (lit "a7") (lit "Pantheon");
   mkPlace (lit "a8") (lit "Sainte-Chapelle")].

Definition four_restaurants : list Place :=
  paris_restaurants ++
  [mkPlace (lit "r2") (lit "Bouillon Chartier");
   mkPlace (lit "r3") (lit "Le Train Bleu");
   mkPlace (lit "r4") (lit "Chez Janou")].

(** An upstream that answers the attractions query of Paris with [atts] and
    every other query with [rests]. *)
Definition paris_upstream (atts rests : list Place) : Upstream :=
  fun rq =>
    if str_eqb (textQuery rq) (lit "tourist attractions in Paris")
    then Normal {| places_opt := Some atts |}
    else Normal {| places_opt := Some rests |}.

Definition env_with_key : Env := {| GOOGLE_PLACES_API_KEY := Some (lit "KEY") |}.

Definition paris_request : TripRecommendRequest :=
  {| cityName := lit "Paris"; budget := lit "medium"; tripType := lit "culture" |}.

End Scenario.

(** ** backend/src/index.ts: the request of the place-type search *)

Module BackendRequests.

Import Backend.

(** The request [searchPlaces] sends, by name. *)
Definition places_request (env : Env) (cityName_ type_ : jsstring) : AxiosRequest :=
  {| url := searchText_url;
     textQuery := type_ ++ lit " in " ++ cityName_;
     languageCode := None;
     maxResultCount := Some 10%Z;
     hdr_ContentType := lit "application/json";
     hdr_ApiKey := GOOGLE_PLACES_API_KEY env;
     hdr_FieldMask :=
       lit "places.displayName,places.formattedAddress,places.rating,places.userRatingCount,places.primaryTypeDisplayName,places.regularOpeningHours,places.priceLevel,places.photos,places.websiteUri,places.phoneNumber,places.location" |}.

End BackendRequests.

(** ** Property reads on values *)

Module JSValue.

(** A value or [undefined]. *)
Definition value := option json.

Inductive TypeError : Type :=
| CannotReadProperty (of_ : value) (property : jsstring).

(** The own property [k] of an object with these members. *)
Fixpoint own_property (members : list (jsstring * json)) (k : jsstring) : value :=
  match members with
  | [] => None
  | (k', v) :: members' =>
      if str_eqb k' k then Some v else own_property members' k
  end.

(** [v.k], for a property name [k] that no built-in prototype defines:
    reading from [undefined] or [null] throws, a value that is no object has
    no such property. *)
Definition read (v : value) (k : jsstring) : completion TypeError value :=
  match v with
  | None | Some JNull => Throw (CannotReadProperty v k)
  | Some (JObj members) => Normal (own_property members k)
  | Some _ => Normal None
  end.

(** [v?.k] *)
Definition read_opt (v : value) (k : jsstring) : value :=
  match v with
  | Some (JObj members) => own_property members k
  | _ => None
  end.

(** [ToBoolean] *)
Definition truthy_value (v : value) : bool :=
  match v with
  | None => false
  | Some x => truthy x
  end.

(** [a || b] with a defined right-hand side. *)
Definition or_else (a : value) (b : json) : json :=
  match a with
  | Some x => if truthy x then x else b
  | None => b
  end.

(** [Number::toString] on an integer. *)
Definition Z_to_string (z : Z) : jsstring :=
  lit (DecimalString.NilZero.string_of_int (Z.to_int z)).

End JSValue.

(** ** src/components/VenueStatus.tsx: what the widget shows *)

Module VenueStatusView.

Import VenueStatus.

(** The string a level is in [VenueData['crowdLevel']]. *)
Definition label (level : CrowdLevel) : jsstring :=
  match level with
  | Low => lit "Low"
  | Moderate => lit "Moderate"
  | High => lit "High"
  | VeryHigh => lit "Very High"
  end.

Definition getStatusColor (level : jsstring) : jsstring :=
  if str_eqb level (lit "Low") then lit "bg-green-100 text-green-800"
  else if str_eqb level (lit "Moderate") then lit "bg-yellow-100 text-yellow-800"
  else if str_eqb level (lit "High") then lit "bg-orange-100 text-orange-800"
  else if str_eqb level (lit "Very High") then lit "bg-red-100 text-red-800"
  else lit "bg-gray-100 text-gray-800".

(** The request [fetchVenueData] sends, by name. *)
Definition venue_request (key venueId : jsstring) : FetchRequest :=
  {| fetch_url := lit "https://places.googleapis.com/v1/places/" ++ venueId;
     fetch_ContentType := lit "application/json";
     fetch_ApiKey := key;
     fetch_FieldMask :=
       lit "name,rating,userRatingCount,formattedAddress,photos,currentOpeningHours" |}.

(** [err instanceof Error ? err.message : 'Failed to fetch venue data'] *)
Definition message_of (err : Thrown) : jsstring :=
  match err with
  | Error_ message => message
  | NotAnError => lit "Failed to fetch venue data"
  end.

Definition getWaitTimeColor (minutes : Z) : jsstring :=
  if (minutes <=? 10)%Z then lit "text-green-600"
  else if (minutes <=? 20)%Z then lit "text-yellow-600"
  else lit "text-red-600".

(** The parts of the card that are computed from the venue data. *)
Record Card := {
  shown : VenueData;
  rating_shown : bool;            (* venueData.rating && ... *)
  wait_class : jsstring;
  status_class : jsstring;
  alerts_shown : bool
}.

Inductive View : Type :=
| Skeleton
| ErrorPanel            (* "Failed to load venue status", with "Try again" *)
| StatusCard (card : Card).

(** What the component returns for a state. *)
Definition render (st : State) : View :=
  if loading st then Skeleton
  else
    match venueData st with
    | Some vd =>
        if truthy_str (error st) then ErrorPanel
        else
          StatusCard
            {| shown := vd;
               rating_shown := match rating vd with
                               | Some n => negb (number_is_zero n)
                               | None => false
                               end;
               wait_class := getWaitTimeColor (currentWaitTime vd);
               status_class := getStatusColor (label (crowdLevel vd));
               alerts_shown :=
                 (0 <? length (specialEvents vd))%nat
                 || (0 <? length (maintenanceAlerts vd))%nat |}
    | None => ErrorPanel
    end.

End VenueStatusView.

(** ** src/components/InteractiveMap.tsx *)

Module InteractiveMap.

Import JSValue.

(** [Record<string, PlaceDetails>]: the details fetched so far, by place id. *)
Definition Details := list (jsstring * json).

(** The property names every object inherits from [Object.prototype]. *)
Definition object_prototype_keys : list jsstring :=
  [lit "constructor"; lit "__defineGetter__"; lit "__defineSetter__";
   lit "hasOwnProperty"; lit "__lookupGetter__"; lit "__lookupSetter__";
   lit "isPrototypeOf"; lit "propertyIsEnumerable"; lit "toString";
   lit "valueOf"; lit "__proto__"; lit "toLocaleString"].

(** [placeDetails[placeId]] is truthy: an own property with a truthy value,
    or an inherited one. *)
Definition has_details (placeDetails : Details) (placeId : jsstring) : bool :=
  match own_property placeDetails placeId with
  | Some v => truthy v
  | None => existsb (str_eqb placeId) object_prototype_keys
  end.

Inductive Thrown : Type :=
| Error_ (message : jsstring)
| Rejected.

Record FetchResponse := {
  ok : bool;
  json_ : completion Thrown json
}.

Record FetchRequest := {
  fetch_url : jsstring;
  fetch_ContentType : jsstring;
  fetch_ApiKey : jsstring;
  fetch_FieldMask : jsstring
}.

(** [process.env.NEXT_PUBLIC_GOOGLE_PLACES_API_KEY || ''] *)
Definition key_or_empty (apiKey : option jsstring) : jsstring :=
  match apiKey with
  | Some k => k
  | None => []
  end.

Definition details_request (apiKey : option jsstring) (placeId : jsstring)
  : FetchRequest :=
  {| fetch_url := lit "https://places.googleapis.com/v1/places/" ++ placeId;
     fetch_ContentType := lit "application/json";
     fetch_ApiKey := key_or_empty apiKey;
     fetch_FieldMask := lit "name,formattedAddress,rating,userRatingsTotal,photos" |}.

(** [fetchPlaceDetails]: [placeDetails] is the state the function closes
    over, [prev] the state the update is applied to; the result is the state
    after the call. *)
Definition fetchPlaceDetails (apiKey : option jsstring)
    (fetch : FetchRequest -> completion Thrown FetchResponse)
    (placeDetails prev : Details) (placeId : jsstring) : Details :=
  if negb (JSON.nonempty placeId) || has_details placeDetails placeId then prev
  else
    try_catch
      ((response <- fetch (details_request apiKey placeId) ;;
        _ <- (if negb (ok response)
              then Throw (Error_ (lit "Failed to fetch place details"))
              else Normal tt) ;;
        data <- json_ response ;;
        Normal (JSON.set_property placeId data prev))%js)
      (fun error => prev).

Definition getPhotoUrl (apiKey : option jsstring) (photoName : jsstring)
  : jsstring :=
  lit "https://places.googleapis.com/v1/" ++ photoName
  ++ lit "/media?key=" ++ template apiKey ++ lit "&maxHeightPx=200".

End InteractiveMap.

(** ** The results view with the itinerary editor (the second document of
    the map component's source file) *)

Module ResultsEditor.

Import Browser JSValue.

Record ItineraryItem := {
  id : json;
  title : json;
  time : jsstring;
  duration : Z;
  type_ : jsstring;
  location : value;
  address : value;
  cost : Z;
  category : json
}.

(** [timeSlot === 'morning' ? '09:00' : timeSlot === 'afternoon' ? '14:00' : '19:00'] *)
Definition slot_time (timeSlot : jsstring) : jsstring :=
  if str_eqb timeSlot (lit "morning") then lit "09:00"
  else if str_eqb timeSlot (lit "afternoon") then lit "14:00"
  else lit "19:00".

(** The callback of [places.map]; [now] is what [Date.now()] returns. *)
Definition transformPlace (now : Z) (timeSlot : jsstring) (place : json)
    (index : nat) : completion TypeError ItineraryItem :=
  (place_id <- read (Some place) (lit "id") ;;
   place_name <- read (Some place) (lit "name") ;;
   place_address <- read (Some place) (lit "address") ;;
   place_category <- read (Some place) (lit "category") ;;
   Normal {| id := or_else place_id
                     (JStr (lit "place-" ++ Z_to_string now ++ lit "-"
                            ++ nat_to_string index));
             title := or_else place_name (JStr (lit "Unnamed Place"));
             time := slot_time timeSlot;
             duration := 60;
             type_ := lit "activity";
             location := place_name;
             address := place_address;
             cost := 0;
             category := or_else place_category (JStr (lit "activity")) |})%js.

(** [places.map(...)] from index [index] on; [now i] is the clock when the
    callback runs for index [i]. *)
Fixpoint transformPlaces_from (now : nat -> Z) (timeSlot : jsstring)
    (places : list json) (index : nat) : completion TypeError (list ItineraryItem) :=
  match places with
  | [] => Normal []
  | place :: places' =>
      (item <- transformPlace (now index) timeSlot place index ;;
       items <- transformPlaces_from now timeSlot places' (S index) ;;
       Normal (item :: items))%js
  end.

Definition transformPlaces (now : nat -> Z) (places : json) (timeSlot : jsstring)
  : completion TypeError (list ItineraryItem) :=
  match places with
  | JArr items => transformPlaces_from now timeSlot items 0
  | _ => Normal []
  end.

(** [day.slot?.places || []] *)
Definition slot_places (day : value) (slot : jsstring)
  : completion TypeError json :=
  (s <- read day slot ;;
   Normal (or_else (read_opt s (lit "places")) (JArr [])))%js.

(** [now k] is the clock during the [k]-th call of [transformPlaces]. *)
Definition transformRecommendationToItinerary (now : nat -> nat -> Z)
    (recommendation : json) : completion TypeError (list ItineraryItem) :=
  if negb (truthy recommendation) then Normal []
  else
    (day1 <- read (Some recommendation) (lit "day1") ;;
     if negb (truthy_value day1) then Normal []
     else
       day2 <- read (Some recommendation) (lit "day2") ;;
       if negb (truthy_value day2) then Normal []
       else
         p1 <- slot_places day1 (lit "morning") ;;
         i1 <- transformPlaces (now 0%nat) p1 (lit "morning") ;;
         p2 <- slot_places day1 (lit "afternoon") ;;
         i2 <- transformPlaces (now 1%nat) p2 (lit "afternoon") ;;
         p3 <- slot_places day1 (lit "evening") ;;
         i3 <- transformPlaces (now 2%nat) p3 (lit "evening") ;;
         p4 <- slot_places day2 (lit "morning") ;;
         i4 <- transformPlaces (now 3%nat) p4 (lit "morning") ;;
         p5 <- slot_places day2 (lit "afternoon") ;;
         i5 <- transformPlaces (now 4%nat) p5 (lit "afternoon") ;;
         p6 <- slot_places day2 (lit "evening") ;;
         i6 <- transformPlaces (now 5%nat) p6 (lit "evening") ;;
         Normal (i1 ++ i2 ++ i3 ++ i4 ++ i5 ++ i6))%js.

Record State := {
  recommendation : json;            (* null until loaded *)
  error : option jsstring;
  isEnhancedView : bool;
  editedItinerary : list ItineraryItem
}.

Definition initial : State :=
  {| recommendation := JNull; error := None;
     isEnhancedView := false; editedItinerary := [] |}.

Definition setRecommendation (v : json) (st : State) : State :=
  {| recommendation := v; error := error st;
     isEnhancedView := isEnhancedView st; editedItinerary := editedItinerary st |}.

Definition setError (message : jsstring) (st : State) : State :=
  {| recommendation := recommendation st; error := Some message;
     isEnhancedView := isEnhancedView st; editedItinerary := editedItinerary st |}.

Definition setEditedItinerary (items : list ItineraryItem) (st : State) : State :=
  {| recommendation := recommendation st; error := error st;
     isEnhancedView := isEnhancedView st; editedItinerary := items |}.

(** The effect run once after the first render.  A throw inside the [try]
    block leaves the state updates made before it in place. *)
Definition useEffect_load (now : nat -> nat -> Z) (localStorage : Storage)
    (st : State) : State :=
  let storedRecommendation := getItem localStorage (lit "tripRecommendations") in
  if truthy_str storedRecommendation then
    match JSON.parse (match storedRecommendation with
                      | Some text => text
                      | None => []
                      end) with
    | Normal parsed =>
        let st1 := setRecommendation parsed st in
        match transformRecommendationToItinerary now parsed with
        | Normal items => setEditedItinerary items st1
        | Throw err => setError (lit "Failed to load trip recommendations") st1
        end
    | Throw err => setError (lit "Failed to load trip recommendations") st
    end
  else setError (lit "No trip recommendations found") st.

(** The element the component function returns; how the child components
    render is not part of it. *)
Inductive View : Type :=
| ErrorScreen (message : jsstring) (button : jsstring) (pushes : jsstring)
| Spinner
| EnhancedPage (city start end_ : value)
| EditorPage (city start end_ : value)
    (initialItems : list ItineraryItem)    (* of the ItineraryEditor *)
    (venues : list json).                  (* one VenueStatus per venueId *)

(** [editedItinerary.map(item => item.id && <VenueStatus venueId={item.id} />)] *)
Definition venue_widgets (items : list ItineraryItem) : list json :=
  map id (filter (fun item => truthy (id item)) items).

Definition render (st : State) : completion TypeError View :=
  if truthy_str (error st) then
    Normal (ErrorScreen (match error st with Some m => m | None => [] end)
              (lit "Return to Search") (lit "/"))
  else if negb (truthy (recommendation st)) then Normal Spinner
  else
    (city <- read (Some (recommendation st)) (lit "city") ;;
     dates <- read (Some (recommendation st)) (lit "dates") ;;
     start <- read dates (lit "start") ;;
     end_ <- read dates (lit "end") ;;
     Normal (if isEnhancedView st then EnhancedPage city start end_
             else EditorPage city start end_ (editedItinerary st)
                    (venue_widgets (editedItinerary st))))%js.

(** What holds of every item the transformation makes for a slot. *)
Definition item_of_slot (timeSlot : jsstring) (item : ItineraryItem) : Prop :=
  time item = slot_time timeSlot /\
  duration item = 60%Z /\ cost item = 0%Z /\ type_ item = lit "activity" /\
  truthy (id item) = true /\ truthy (title item) = true /\
  truthy (category item) = true.

(** What holds of every item, whatever its slot. *)
Definition well_formed_item (item : ItineraryItem) : Prop :=
  duration item = 60%Z /\ cost item = 0%Z /\ type_ item = lit "activity" /\
  truthy (id item) = true /\ truthy (title item) = true.

End ResultsEditor.

(** ** The components of the two results views

    [TimeSlotSection], [DaySection] and the body of [Results] read the same
    in both source files; the two files differ in [PlaceCard].  A component
    is the function from its props to what it shows; rendering a component
    renders its children, and a child that is a plain object makes the
    renderer throw. *)

Module Components.

Import JSValue.

Inductive RenderError : Type :=
| Type_error (e : TypeError)
| NotAFunction (of_ : json) (method : jsstring)    (* v.method is not a function *)
| InvalidChild (v : json).                          (* an object as a child *)

Definition reads (v : value) (k : jsstring) : completion RenderError value :=
  match read v k with
  | Normal x => Normal x
  | Throw e => Throw (Type_error e)
  end.

(** What the renderer accepts as a child: no plain object, at any depth of
    an array. *)
Fixpoint renderable (v : json) : bool :=
  match v with
  | JObj _ => false
  | JArr items => forallb renderable items
  | _ => true
  end.

(** [{v}] among the children of an element. *)
Definition child (v : value) : completion RenderError value :=
  match v with
  | Some x => if renderable x then Normal v else Throw (InvalidChild x)
  | None => Normal None
  end.

Definition renderable_value (v : value) : bool :=
  match v with
  | Some x => renderable x
  | None => true
  end.

(** [v?.[0]] *)
Definition first_of (v : value) : value :=
  match v with
  | Some (JArr (x :: _)) => Some x
  | Some (JStr (c :: _)) => Some (JStr [c])
  | Some (JObj members) => own_property members (lit "0")
  | _ => None
  end.

Record SlotView (Card : Type) := {
  slot_title : value;
  slot_description : value;
  cards : list Card
}.

Record DayView (Card : Type) := {
  morning_view : SlotView Card;
  afternoon_view : SlotView Card;
  evening_view : SlotView Card
}.

Record Page (Card : Type) := {
  page_city : value;
  day1_view : DayView Card;
  day2_view : DayView Card
}.

Section Tree.
Context {Card : Type} (PlaceCard : json -> completion RenderError Card).

(** [key={place.id || index}], for every place, as the callback of [map]
    reads it. *)
Fixpoint read_keys (places : list json) : completion RenderError unit :=
  match places with
  | [] => Normal tt
  | place :: places' =>
      (_ <- reads (Some place) (lit "id") ;; read_keys places')%js
  end.

Fixpoint render_cards (places : list json) : completion RenderError (list Card) :=
  match places with
  | [] => Normal []
  | place :: places' =>
      (card <- PlaceCard place ;;
       rest <- render_cards places' ;;
       Normal (card :: rest))%js
  end.

Definition TimeSlotSection (timeSlot : value)
  : completion RenderError (SlotView Card) :=
  (title_ <- reads timeSlot (lit "title") ;;
   description_ <- reads timeSlot (lit "description") ;;
   places_ <- reads timeSlot (lit "places") ;;
   items <- match places_ with
            | Some (JArr items) => Normal items
            | Some JNull | None =>
                Throw (Type_error (CannotReadProperty places_ (lit "map")))
            | Some other => Throw (NotAFunction other (lit "map"))
            end ;;
   _ <- read_keys items ;;
   shown_title <- child title_ ;;
   shown_description <- child description_ ;;
   place_cards <- render_cards items ;;
   Normal {| slot_title := shown_title;
             slot_description := shown_description;
             cards := place_cards |})%js.

Definition DaySection (day : value) : completion RenderError (DayView Card) :=
  (morning_ <- reads day (lit "morning") ;;
   afternoon_ <- reads day (lit "afternoon") ;;
   evening_ <- reads day (lit "evening") ;;
   m <- TimeSlotSection morning_ ;;
   a <- TimeSlotSection afternoon_ ;;
   e <- TimeSlotSection evening_ ;;
   Normal {| morning_view := m; afternoon_view := a; evening_view := e |})%js.

(** The last [return] of [Results], for a truthy recommendation, rendered
    with its children. *)
Definition Itinerary (recommendation : json) : completion RenderError (Page Card) :=
  (city_ <- reads (Some recommendation) (lit "city") ;;
   day1_ <- reads (Some recommendation) (lit "day1") ;;
   day2_ <- reads (Some recommendation) (lit "day2") ;;
   shown_city <- child city_ ;;
   d1 <- DaySection day1_ ;;
   d2 <- DaySection day2_ ;;
   Normal {| page_city := shown_city; day1_view := d1; day2_view := d2 |})%js.

End Tree.

(** The six slots of a page, in the order they are shown. *)
Definition slot_views {Card : Type} (page : Page Card) : list (SlotView Card) :=
  [morning_view (day1_view page); afternoon_view (day1_view page);
   evening_view (day1_view page);
   morning_view (day2_view page); afternoon_view (day2_view page);
   evening_view (day2_view page)].

(** [undefined] or [null]. *)
Definition missing (v : value) : bool :=
  match v with
  | None | Some JNull => true
  | _ => false
  end.

(** [place.displayName?.text] *)
Definition name_of (place : json) : value :=
  read_opt (read_opt (Some place) (lit "displayName")) (lit "text").

(** What [PlaceCard] shows, in either file. *)
Record Card := {
  image : option jsstring;        (* the src of the img, when there is one *)
  heading : value;
  address_ : value;
  rating_shown : bool
}.

(** The [Place] interface of the results views, on a value. *)
Definition string_or_absent (v : value) : bool :=
  match v with
  | None | Some (JStr _) => true
  | _ => false
  end.

Definition number_or_absent (v : value) : bool :=
  match v with
  | None | Some (JNum _) => true
  | _ => false
  end.

Definition typed_attribution (a : json) : bool :=
  match a with
  | JObj members => string_or_absent (own_property members (lit "name"))
  | _ => false
  end.

Definition typed_photo (photo : json) : bool :=
  match photo with
  | JObj members =>
      match own_property members (lit "name") with
      | Some (JStr _) => true
      | _ => false
      end
      && match own_property members (lit "authorAttributions") with
         | None => true
         | Some (JArr attributions) => forallb typed_attribution attributions
         | _ => false
         end
  | _ => false
  end.

Definition typed_photos (v : value) : bool :=
  match v with
  | None => true
  | Some (JArr photos) => forallb typed_photo photos
  | _ => false
  end.

(** Every field but [displayName] is as the interface says. *)
Definition typed_fields (place : json) : bool :=
  match place with
  | JObj members =>
      string_or_absent (own_property members (lit "id"))
      && string_or_absent (own_property members (lit "formattedAddress"))
      && number_or_absent (own_property members (lit "rating"))
      && number_or_absent (own_property members (lit "userRatingCount"))
      && typed_photos (own_property members (lit "photos"))
  | _ => false
  end.

(** [displayName: { text: string }] *)
Definition typed_name (place : json) : bool :=
  match read_opt (Some place) (lit "displayName") with
  | Some (JObj members) =>
      match own_property members (lit "text") with
      | Some (JStr _) => true
      | _ => false
      end
  | _ => false
  end.

Definition typed_place (place : json) : bool :=
  typed_fields place && typed_name place.

End Components.

(** ** frontend/src/app/results/page.tsx: [PlaceCard] *)

Module ResultsCard.

Import JSValue Components.

(** [getPhotoUrl(photoReference)] on whatever value the photo's name is. *)
Definition getPhotoUrl_of (apiKey : option jsstring) (photoReference : json)
  : completion RenderError jsstring :=
  match photoReference with
  | JStr s => Normal (Results.getPhotoUrl apiKey s)
  | other =>
      if truthy other && truthy_str apiKey
      then Throw (NotAFunction other (lit "startsWith"))
      else Normal []
  end.

Definition PlaceCard (apiKey : option jsstring) (place : json)
  : completion RenderError Card :=
  (photos <- reads (Some place) (lit "photos") ;;
   let photo := first_of photos in
   let photoReference := or_else (read_opt photo (lit "name")) (JStr []) in
   src <- (if truthy_value photo
           then url <- getPhotoUrl_of apiKey photoReference ;; Normal (Some url)
           else Normal None) ;;
   let attributions := read_opt photo (lit "authorAttributions") in
   _ <- (if truthy_value photo
         then child (if truthy_value attributions
                     then read_opt (first_of attributions) (lit "name")
                     else attributions)
         else Normal None) ;;
   shown_heading <- child (read_opt (read_opt (Some place) (lit "displayName"))
                             (lit "text")) ;;
   shown_address <- child (read_opt (Some place) (lit "formattedAddress")) ;;
   let rating := read_opt (Some place) (lit "rating") in
   _ <- child rating ;;
   _ <- (if truthy_value rating
         then child (read_opt (Some place) (lit "userRatingCount"))
         else Normal None) ;;
   Normal {| image := src;
             heading := shown_heading;
             address_ := shown_address;
             rating_shown := truthy_value rating |})%js.

End ResultsCard.

(** ** The second results view: [PlaceCard] *)

Module ResultsSplitCard.

Import JSValue Components.

Definition getPhotoUrl_of (apiKey : option jsstring) (photoReference : json)
  : completion RenderError jsstring :=
  match photoReference with
  | JStr s => Normal (ResultsSplit.getPhotoUrl apiKey s)
  | other =>
      if truthy_str apiKey
      then Throw (NotAFunction other (lit "split"))
      else Normal []
  end.

Definition PlaceCard (apiKey : option jsstring) (place : json)
  : completion RenderError Card :=
  (photos <- reads (Some place) (lit "photos") ;;
   let name_ := read_opt (first_of photos) (lit "name") in
   src <- (if truthy_value name_
           then
             url <- getPhotoUrl_of apiKey (match name_ with
                                           | Some n => n
                                           | None => JNull
                                           end) ;;
             displayName <- reads (Some place) (lit "displayName") ;;
             _ <- reads displayName (lit "text") ;;
             Normal (Some url)
           else Normal None) ;;
   displayName <- reads (Some place) (lit "displayName") ;;
   text <- reads displayName (lit "text") ;;
   address <- reads (Some place) (lit "formattedAddress") ;;
   rating <- reads (Some place) (lit "rating") ;;
   count <- (if truthy_value rating
             then
               match rating with
               | Some (JNum _) => reads (Some place) (lit "userRatingCount")
               | Some other => Throw (NotAFunction other (lit "toFixed"))
               | None => Normal None
               end
             else Normal None) ;;
   shown_heading <- child text ;;
   shown_address <- child address ;;
   _ <- child (if truthy_value rating then None else rating) ;;
   _ <- child count ;;
   Normal {| image := src;
             heading := shown_heading;
             address_ := shown_address;
             rating_shown := truthy_value rating |})%js.

End ResultsSplitCard.

(** ** A recommendation and the page that shows it *)

Module ItineraryPage.

Import JSValue Components.

(** The card of a place: its display name, its address, and a rating line
    when its rating is truthy. *)
Definition card_of (place : json) (card : Card) : Prop :=
  heading card = name_of place /\
  address_ card = read_opt (Some place) (lit "formattedAddress") /\
  rating_shown card = truthy_value (read_opt (Some place) (lit "rating")).

Definition shows_slot (s : Backend.TimeSlot) (view : SlotView Card) : Prop :=
  slot_title view = Some (JStr (Backend.title s)) /\
  slot_description view = Some (JStr (Backend.description s)) /\
  Forall2 card_of (Backend.places s) (cards view).

Definition shows (r : Backend.TripRecommendation) (page : Page Card) : Prop :=
  page_city page = Some (JStr (Backend.city r)) /\
  Forall2 shows_slot (Backend.slots r) (slot_views page).

End ItineraryPage.

(** ** Photo references *)

Module PhotoReference.

(** No code unit of [s] is a slash. *)
Definition slash_free (s : jsstring) : bool :=
  forallb (fun c => negb (N.eqb c (ch "/"))) s.

(** The reference [a/b/c/d]. *)
Definition four_segments (a b c d : jsstring) : jsstring :=
  a ++ ch "/" :: b ++ ch "/" :: c ++ ch "/" :: d.

End PhotoReference.

(* ===================================================================== *)
(** * Part II: theorems                                                   *)
(* ===================================================================== *)

Section SliceFacts.
Context {A : Type}.

Lemma slice_window (l : list A) (k : nat) :
  slice l (Z.of_nat k) (Z.of_nat k + 2) = firstn 2 (skipn k l).
Proof.
  unfold slice.
  assert (H1 : (Z.of_nat k <? 0)%Z = false) by (apply Z.ltb_ge; lia).
  assert (H2 : (Z.of_nat k + 2 <? 0)%Z = false) by (apply Z.ltb_ge; lia).
  rewrite H1, H2.
  destruct (Nat.le_gt_cases (length l) k) as [Hle | Hgt].
  - rewrite !Z.min_r by lia.
    replace (Z.to_nat (Z.of_nat (length l) - Z.of_nat (length l))) with 0%nat by lia.
    rewrite Nat2Z.id. rewrite !skipn_all2 by lia. reflexivity.
  - rewrite (Z.min_l (Z.of_nat k)) by lia. rewrite Nat2Z.id.
    destruct (Nat.le_gt_cases (k + 2) (length l)) as [Hle2 | Hgt2].
    + rewrite Z.min_l by lia.
      replace (Z.to_nat (Z.of_nat k + 2 - Z.of_nat k)) with 2%nat by lia.
      reflexivity.
    + rewrite Z.min_r by lia.
      replace (Z.to_nat (Z.of_nat (length l) - Z.of_nat k))
        with (length (skipn k l)) by (rewrite length_skipn; lia).
      rewrite firstn_all. symmetry. apply firstn_all2.
      rewrite length_skipn. lia.
Qed.

Lemma slice_window_length (l : list A) (k : nat) :
  Z.of_nat (length (slice l (Z.of_nat k) (Z.of_nat k + 2)))
  = Z.min 2 (Z.max 0 (Z.of_nat (length l) - Z.of_nat k)).
Proof.
  rewrite slice_window, length_firstn, length_skipn. lia.
Qed.

End SliceFacts.

Section FirstnFacts.
Context {A : Type}.

Lemma firstn_then_window (a b : nat) (l : list A) :
  firstn a l ++ firstn b (skipn a l) = firstn (a + b) l.
Proof.
  revert l. induction a as [| a IH]; intros l; simpl.
  - reflexivity.
  - destruct l as [| x l]; simpl.
    + now rewrite firstn_nil.
    + now rewrite IH.
Qed.

Lemma window_nth (k j : nat) (l : list A) :
  nth_error (firstn 2 (skipn k l)) j
  = if (j <? 2)%nat then nth_error l (k + j) else None.
Proof.
  rewrite nth_error_firstn, nth_error_skipn. reflexivity.
Qed.

Lemma window_past_end (k : nat) (l : list A) :
  (length l <= k)%nat -> firstn 2 (skipn k l) = [].
Proof.
  intros H. rewrite skipn_all2 by exact H. reflexivity.
Qed.

End FirstnFacts.

(** ** The itinerary assembler *)

Import Backend Scenario.

(** Each slot of the assembled recommendation, as a window of its source. *)
Lemma recommendation_windows (c : jsstring) (attractions restaurants : list Place) :
  let r := recommendation c attractions restaurants in
  places (morning (day1 r)) = firstn 2 (skipn 0 attractions) /\
  places (afternoon (day1 r)) = firstn 2 (skipn 2 attractions) /\
  places (evening (day1 r)) = firstn 2 (skipn 0 restaurants) /\
  places (morning (day2 r)) = firstn 2 (skipn 4 attractions) /\
  places (afternoon (day2 r)) = firstn 2 (skipn 6 attractions) /\
  places (evening (day2 r)) = firstn 2 (skipn 2 restaurants).
Proof.
  cbn [recommendation places morning afternoon evening day1 day2].
  repeat split.
  - exact (slice_window attractions 0).
  - exact (slice_window attractions 2).
  - exact (slice_window restaurants 0).
  - exact (slice_window attractions 4).
  - exact (slice_window attractions 6).
  - exact (slice_window restaurants 2).
Qed.

(** What the recommend handler answers when both upstream calls resolve. *)
Lemma recommendTrip_resolved (env : Env) (axios_post : Upstream)
    (req : TripRecommendRequest) (da dr : PlacesResponse) :
  axios_post (attractions_request env (cityName req)) = Normal da ->
  axios_post (restaurants_request env (cityName req)) = Normal dr ->
  fst (recommendTrip env axios_post req)
  = res_json (BodyRecommendation
                (recommendation (cityName req)
                   (places_or_empty da) (places_or_empty dr))).
Proof.
  intros Ha Hr. unfold recommendTrip. rewrite Ha. cbn [bind].
  rewrite Hr. reflexivity.
Qed.

(** C1. For all upstream result lists of lengths A and R the recommendation
    the recommend endpoint builds has place-lists of size
    min(2, max(0, A-k)) in the attraction slots, k = 0, 2, 4, 6 for
    day1.morning, day1.afternoon, day2.morning, day2.afternoon, and of size
    min(2, max(0, R-k)) in the restaurant slots, k = 0, 2 for day1.evening
    and day2.evening. *)
Theorem C1_slot_sizes (env : Env) (axios_post : Upstream)
    (req : TripRecommendRequest) (da dr : PlacesResponse) :
  axios_post (attractions_request env (cityName req)) = Normal da ->
  axios_post (restaurants_request env (cityName req)) = Normal dr ->
  let A := Z.of_nat (length (places_or_empty da)) in
  let R := Z.of_nat (length (places_or_empty dr)) in
  exists r : TripRecommendation,
    fst (recommendTrip env axios_post req) = res_json (BodyRecommendation r) /\
    slot_size (morning (day1 r)) = Z.min 2 (Z.max 0 (A - 0)) /\
    slot_size (afternoon (day1 r)) = Z.min 2 (Z.max 0 (A - 2)) /\
    slot_size (morning (day2 r)) = Z.min 2 (Z.max 0 (A - 4)) /\
    slot_size (afternoon (day2 r)) = Z.min 2 (Z.max 0 (A - 6)) /\
    slot_size (evening (day1 r)) = Z.min 2 (Z.max 0 (R - 0)) /\
    slot_size (evening (day2 r)) = Z.min 2 (Z.max 0 (R - 2)).
Proof.
  intros Ha Hr A R.
  eexists. split; [exact (@recommendTrip_resolved env axios_post req da dr Ha Hr) |].
  unfold slot_size.
  cbn [recommendation places morning afternoon evening day1 day2].
  repeat split.
  - exact (slice_window_length (places_or_empty da) 0).
  - exact (slice_window_length (places_or_empty da) 2).
  - exact (slice_window_length (places_or_empty da) 4).
  - exact (slice_window_length (places_or_empty da) 6).
  - exact (slice_window_length (places_or_empty dr) 0).
  - exact (slice_window_length (places_or_empty dr) 2).
Qed.

Lemma C1_slot_sizes_witness :
  exists r : TripRecommendation,
    fst (recommendTrip env_with_key
           (paris_upstream paris_attractions paris_restaurants) paris_request)
    = res_json (BodyRecommendation r) /\
    slot_size (morning (day1 r)) = Z.min 2 (Z.max 0 (3 - 0)) /\
    slot_size (afternoon (day1 r)) = Z.min 2 (Z.max 0 (3 - 2)) /\
    slot_size (morning (day2 r)) = Z.min 2 (Z.max 0 (3 - 4)) /\
    slot_size (afternoon (day2 r)) = Z.min 2 (Z.max 0 (3 - 6)) /\
    slot_size (evening (day1 r)) = Z.min 2 (Z.max 0 (1 - 0)) /\
    slot_size (evening (day2 r)) = Z.min 2 (Z.max 0 (1 - 2)).
Proof.
  apply (@C1_slot_sizes env_with_key
           (paris_upstream paris_attractions paris_restaurants) paris_request
           {| places_opt := Some paris_attractions |}
           {| places_opt := Some paris_restaurants |});
    reflexivity.
Defined.

(** C2, as the specification words it, fails on the handler: with three
    attractions and one restaurant the first evening is not empty. *)
Lemma C2_counterexample :
  ~ (exists r : TripRecommendation,
       fst (recommendTrip env_with_key
              (paris_upstream paris_attractions paris_restaurants) paris_request)
       = res_json (BodyRecommendation r) /\
       slot_size (morning (day1 r)) = 2%Z /\
       slot_size (afternoon (day1 r)) = 1%Z /\
       slot_size (evening (day1 r)) = 0%Z /\
       slot_size (morning (day2 r)) = 0%Z /\
       slot_size (afternoon (day2 r)) = 0%Z /\
       slot_size (evening (day2 r)) = 0%Z).
Proof.
  intros [r [Hr [_ [_ [He _]]]]].
  vm_compute in Hr. injection Hr as <-. vm_compute in He. discriminate He.
Qed.

(** C2 (amended). recommendTrip("Paris", "medium", "culture") with an upstream
    that returns exactly 3 attractions and 1 restaurant yields
    day1.morning of size 2, day1.afternoon of size 1, day1.evening of size 1
    (the single restaurant), and day2.morning, day2.afternoon and
    day2.evening empty. *)
Theorem C2_paris_three_one (env : Env) (axios_post : Upstream)
    (da dr : PlacesResponse) :
  axios_post (attractions_request env (lit "Paris")) = Normal da ->
  axios_post (restaurants_request env (lit "Paris")) = Normal dr ->
  length (places_or_empty da) = 3%nat ->
  length (places_or_empty dr) = 1%nat ->
  exists r : TripRecommendation,
    fst (recommendTrip env axios_post paris_request)
    = res_json (BodyRecommendation r) /\
    slot_size (morning (day1 r)) = 2%Z /\
    slot_size (afternoon (day1 r)) = 1%Z /\
    slot_size (evening (day1 r)) = 1%Z /\
    places (morning (day2 r)) = [] /\
    places (afternoon (day2 r)) = [] /\
    places (evening (day2 r)) = [].
Proof.
  intros Ha Hr HA HR.
  eexists. split; [exact (@recommendTrip_resolved env axios_post paris_request da dr Ha Hr) |].
  destruct (recommendation_windows (cityName paris_request)
              (places_or_empty da) (places_or_empty dr))
    as (Hm1 & Ha1 & He1 & Hm2 & Ha2 & He2).
  unfold slot_size.
  rewrite Hm1, Ha1, He1, Hm2, Ha2, He2.
  rewrite !length_firstn, !length_skipn, HA, HR.
  repeat split; try reflexivity; apply window_past_end; lia.
Qed.

Lemma C2_paris_three_one_witness :
  exists r : TripRecommendation,
    fst (recommendTrip env_with_key
           (paris_upstream paris_attractions paris_restaurants) paris_request)
    = res_json (BodyRecommendation r) /\
    slot_size (morning (day1 r)) = 2%Z /\
    slot_size (afternoon (day1 r)) = 1%Z /\
    slot_size (evening (day1 r)) = 1%Z /\
    places (morning (day2 r)) = [] /\
    places (afternoon (day2 r)) = [] /\
    places (evening (day2 r)) = [].
Proof.
  apply (@C2_paris_three_one env_with_key
           (paris_upstream paris_attractions paris_restaurants)
           {| places_opt := Some paris_attractions |}
           {| places_opt := Some paris_restaurants |});
    reflexivity.
Defined.

(** C4. Two calls of the recommend endpoint that agree on the city name, made
    against the same environment and the same upstream, answer with the same
    response whatever their budget and trip type are. *)
Theorem C4_budget_tripType_noninterference (env : Env) (axios_post : Upstream)
    (c b1 t1 b2 t2 : jsstring) :
  fst (recommendTrip env axios_post
         {| cityName := c; budget := b1; tripType := t1 |})
  = fst (recommendTrip env axios_post
           {| cityName := c; budget := b2; tripType := t2 |}).
Proof.
  unfold recommendTrip. cbn [cityName budget tripType].
  destruct (axios_post (attractions_request env c)) as [da | e]; cbn [bind try_catch].
  - destruct (axios_post (restaurants_request env c)) as [dr | e];
      cbn [bind try_catch]; reflexivity.
  - reflexivity.
Qed.

(** The budget does reach the console: the equality above is about the
    response only. *)
Remark recommendTrip_log_shows_budget :
  snd (recommendTrip env_with_key
         (paris_upstream paris_attractions paris_restaurants) paris_request)
  = [Log (lit "[Recommendations] Generating trip for Paris (medium, culture)");
     Log (lit "[Recommendations] Found 3 attractions and 1 restaurants")].
Proof. vm_compute. reflexivity. Qed.

(** C5, as the specification words it, fails: eight attractions and four
    restaurants fill the six slots with twelve entries. *)
Lemma C5_counterexample :
  ~ (slots_total (recommendation (lit "Paris") eight_attractions four_restaurants)
     <= 8)%nat.
Proof. vm_compute. intros H. repeat (apply le_S_n in H). inversion H. Qed.

(** C5 (amended). In every recommendation the assembler constructs, the six
    slot place-lists are pairwise disjoint index-range slices of the two
    source arrays: the windows [0,2), [2,4), [4,6), [6,8) of the attractions
    and [0,2), [2,4) of the restaurants, which laid end to end are the first
    8 attractions and the first 4 restaurants.  Together they contain at most
    12 entries, and when a source array has no element at the start of a
    window, that slot is the empty list. *)
Theorem C5_slots_are_windows (c : jsstring) (attractions restaurants : list Place) :
  let r := recommendation c attractions restaurants in
  (is_window attractions 0 (places (morning (day1 r))) /\
   is_window attractions 2 (places (afternoon (day1 r))) /\
   is_window attractions 4 (places (morning (day2 r))) /\
   is_window attractions 6 (places (afternoon (day2 r))) /\
   is_window restaurants 0 (places (evening (day1 r))) /\
   is_window restaurants 2 (places (evening (day2 r)))) /\
  places (morning (day1 r)) ++ places (afternoon (day1 r))
    ++ places (morning (day2 r)) ++ places (afternoon (day2 r))
  = firstn 8 attractions /\
  places (evening (day1 r)) ++ places (evening (day2 r)) = firstn 4 restaurants /\
  (slots_total r <= 12)%nat /\
  ((length attractions <= 0)%nat -> places (morning (day1 r)) = []) /\
  ((length attractions <= 2)%nat -> places (afternoon (day1 r)) = []) /\
  ((length attractions <= 4)%nat -> places (morning (day2 r)) = []) /\
  ((length attractions <= 6)%nat -> places (afternoon (day2 r)) = []) /\
  ((length restaurants <= 0)%nat -> places (evening (day1 r)) = []) /\
  ((length restaurants <= 2)%nat -> places (evening (day2 r)) = []).
Proof.
  intros r.
  destruct (recommendation_windows c attractions restaurants)
    as (Hm1 & Ha1 & He1 & Hm2 & Ha2 & He2).
  fold r in Hm1, Ha1, He1, Hm2, Ha2, He2.
  assert (Hatt : places (morning (day1 r)) ++ places (afternoon (day1 r))
                 ++ places (morning (day2 r)) ++ places (afternoon (day2 r))
                 = firstn 8 attractions).
  { rewrite Hm1, Ha1, Hm2, Ha2.
    change (skipn 0 attractions) with attractions.
    pose proof (firstn_then_window 2 2 attractions) as E1.
    pose proof (firstn_then_window 4 2 attractions) as E2.
    pose proof (firstn_then_window 6 2 attractions) as E3.
    cbn [Nat.add] in E1, E2, E3.
    rewrite <- E3, <- E2, <- E1, <- !app_assoc. reflexivity. }
  assert (Hres : places (evening (day1 r)) ++ places (evening (day2 r))
                 = firstn 4 restaurants).
  { rewrite He1, He2.
    change (skipn 0 restaurants) with restaurants.
    exact (firstn_then_window 2 2 restaurants). }
  split.
  { unfold is_window. rewrite Hm1, Ha1, He1, Hm2, Ha2, He2.
    repeat split; intros j; apply window_nth. }
  split; [exact Hatt |]. split; [exact Hres |]. split.
  { unfold slots_total, slots. cbn [map List.concat].
    rewrite app_nil_r.
    apply (f_equal (@length Place)) in Hatt, Hres.
    rewrite !length_app in *. rewrite length_firstn in Hatt, Hres. lia. }
  rewrite Hm1, Ha1, He1, Hm2, Ha2, He2.
  repeat split; apply window_past_end.
Qed.

Example twelve_entries :
  slots_total (recommendation (lit "Paris") eight_attractions four_restaurants)
  = 12%nat.
Proof. vm_compute. reflexivity. Qed.

(** ** The city search endpoint *)

(** C7. The city search endpoint answers every request either with
    {places} (status 200) or with status 500 and an {error, details}
    envelope.  On upstream success the places are those of the upstream
    response, the empty array when it carries no places field.  Every
    failure gives status 500 with the fixed error text and a details value:
    a missing credential; and every rejection of the upstream call, be it an
    answer that is no success, whose body is the details, or a failure
    without an answer (the network), whose error is the details. *)
Theorem C7_searchCities_responses (env : Env) (axios_post : Upstream)
    (req : CitySearchRequest) :
  let resp := searchCities env axios_post req in
  let failed := lit "Failed to fetch cities" in
  ((exists ps, resp = {| status := 200; body := BodyPlaces ps |}) \/
   (exists d, resp = {| status := 500; body := BodyError failed d |})) /\
  (forall data,
     truthy_str (GOOGLE_PLACES_API_KEY env) = true ->
     axios_post (cities_request env req) = Normal data ->
     resp = {| status := 200;
               body := BodyPlaces (match places_opt data with
                                   | Some ps => ps
                                   | None => []
                                   end) |}) /\
  (truthy_str (GOOGLE_PLACES_API_KEY env) = false ->
   resp = {| status := 500;
             body := BodyError failed
                       (DetailsError
                          (Error_ (lit "Google Places API key is not configured"))) |}) /\
  (forall code data,
     truthy_str (GOOGLE_PLACES_API_KEY env) = true ->
     axios_post (cities_request env req) = Throw (AxiosError (ResponseWith code data)) ->
     resp = {| status := 500; body := BodyError failed (DetailsData data) |}) /\
  (forall e,
     truthy_str (GOOGLE_PLACES_API_KEY env) = true ->
     axios_post (cities_request env req) = Throw e ->
     resp = {| status := 500; body := BodyError failed (details_of e) |}) /\
  (status resp = 200%Z ->
   truthy_str (GOOGLE_PLACES_API_KEY env) = true /\
   exists data, axios_post (cities_request env req) = Normal data).
Proof.
  intros resp failed. subst resp failed. unfold searchCities.
  destruct (truthy_str (GOOGLE_PLACES_API_KEY env)) eqn:Hkey; cbn [negb bind try_catch].
  - destruct (axios_post (cities_request env req)) as [data | e] eqn:Hup;
      cbn [bind try_catch].
    + split; [left; destruct (places_opt data); eexists; reflexivity |].
      split; [intros data' _ [= <-]; destruct (places_opt data); reflexivity |].
      split; [discriminate |]. split; [discriminate |]. split; [discriminate |].
      intros _. split; [reflexivity | exists data; reflexivity].
    + split; [right; eexists; reflexivity |].
      split; [discriminate |]. split; [discriminate |].
      split; [intros code data _ [= ->]; reflexivity |].
      split; [intros e' _ [= ->]; reflexivity |].
      cbn [status res_status_json]. discriminate.
  - split; [right; eexists; reflexivity |].
    split; [discriminate |]. split; [reflexivity |].
    split; [discriminate |]. split; [discriminate |].
    cbn [status res_status_json]. discriminate.
Qed.

(** The three kinds of answer, run. *)
Example searchCities_no_places_field :
  searchCities env_with_key (fun _ => Normal {| places_opt := None |})
    {| cs_cityName := lit "Lyon" |}
  = {| status := 200; body := BodyPlaces [] |}.
Proof. reflexivity. Qed.

Example searchCities_missing_credential :
  searchCities {| GOOGLE_PLACES_API_KEY := None |}
    (fun _ => Normal {| places_opt := Some paris_attractions |})
    {| cs_cityName := lit "Lyon" |}
  = {| status := 500;
       body := BodyError (lit "Failed to fetch cities")
                 (DetailsError
                    (Error_ (lit "Google Places API key is not configured"))) |}.
Proof. reflexivity. Qed.

(** A rejection that carries no response leaves [details] undefined. *)
Example searchCities_network_failure :
  searchCities env_with_key (fun _ => Throw (AxiosError ResponseUndefined))
    {| cs_cityName := lit "Lyon" |}
  = {| status := 500;
       body := BodyError (lit "Failed to fetch cities") DetailsUndefined |}.
Proof. reflexivity. Qed.

Example searchCities_upstream_forbidden :
  let denied := JObj [(lit "error", JStr (lit "PERMISSION_DENIED"))] in
  searchCities env_with_key
    (fun _ => Throw (AxiosError (ResponseWith 403 denied)))
    {| cs_cityName := lit "Lyon" |}
  = {| status := 500;
       body := BodyError (lit "Failed to fetch cities") (DetailsData denied) |}.
Proof. reflexivity. Qed.

(** ** The venue status widget *)

Section CrowdLevel.
Import VenueStatus.

Lemma estimateCrowdLevel_High (h : Z) :
  estimateCrowdLevel h = High <-> (11 <= h <= 14 \/ 18 <= h <= 20)%Z.
Proof.
  unfold estimateCrowdLevel.
  destruct (Z.geb_spec h 11), (Z.leb_spec h 14), (Z.geb_spec h 18),
    (Z.leb_spec h 20), (Z.geb_spec h 9), (Z.leb_spec h 17);
    cbn; split; intros Hlevel; try discriminate Hlevel; try reflexivity; lia.
Qed.

Lemma estimateCrowdLevel_Moderate (h : Z) :
  estimateCrowdLevel h = Moderate
  <-> (9 <= h <= 17 /\ ~ (11 <= h <= 14 \/ 18 <= h <= 20))%Z.
Proof.
  unfold estimateCrowdLevel.
  destruct (Z.geb_spec h 11), (Z.leb_spec h 14), (Z.geb_spec h 18),
    (Z.leb_spec h 20), (Z.geb_spec h 9), (Z.leb_spec h 17);
    cbn; split; intros Hlevel; try discriminate Hlevel; try reflexivity; lia.
Qed.

Lemma estimateCrowdLevel_Low (h : Z) :
  estimateCrowdLevel h = Low
  <-> (~ (11 <= h <= 14 \/ 18 <= h <= 20) /\ ~ 9 <= h <= 17)%Z.
Proof.
  unfold estimateCrowdLevel.
  destruct (Z.geb_spec h 11), (Z.leb_spec h 14), (Z.geb_spec h 18),
    (Z.leb_spec h 20), (Z.geb_spec h 9), (Z.leb_spec h 17);
    cbn; split; intros Hlevel; try discriminate Hlevel; try reflexivity; lia.
Qed.

(** The level the widget stores is the estimate for the clock's hour. *)
Lemma fetchVenueData_try_crowdLevel apiKey venueId fetch now random30 vd :
  fetchVenueData_try apiKey venueId fetch now random30 = Normal vd ->
  crowdLevel vd = estimateCrowdLevel (getHours now).
Proof.
  unfold fetchVenueData_try.
  destruct apiKey as [[| c k] |]; cbn [bind]; try discriminate.
  destruct (fetch _) as [response | e]; cbn [bind]; try discriminate.
  destruct (ok response); cbn [negb bind]; try discriminate.
  destruct (json_ response) as [data | e]; cbn [bind]; try discriminate.
  intros [= <-]. reflexivity.
Qed.

End CrowdLevel.


(** C10. The crowd-level computation never produces 'Very High': for every
    hour its result is 'Low', 'Moderate' or 'High'; and a refresh of the
    widget, successful or not, keeps a state without 'Very High' free of it. *)
Theorem C10_never_very_high :
  (forall h : Z,
     VenueStatus.estimateCrowdLevel h = VenueStatus.Low \/
     VenueStatus.estimateCrowdLevel h = VenueStatus.Moderate \/
     VenueStatus.estimateCrowdLevel h = VenueStatus.High) /\
  (forall apiKey venueId fetch now random30 st,
     (forall vd0, VenueStatus.venueData st = Some vd0 ->
                  VenueStatus.crowdLevel vd0 <> VenueStatus.VeryHigh) ->
     forall vd,
       VenueStatus.venueData
         (VenueStatus.fetchVenueData apiKey venueId fetch now random30 st) = Some vd ->
       VenueStatus.crowdLevel vd <> VenueStatus.VeryHigh).
Proof.
  assert (Hall : forall h : Z,
            VenueStatus.estimateCrowdLevel h = VenueStatus.Low \/
            VenueStatus.estimateCrowdLevel h = VenueStatus.Moderate \/
            VenueStatus.estimateCrowdLevel h = VenueStatus.High).
  { intros h. unfold VenueStatus.estimateCrowdLevel.
    destruct (_ || _)%bool; [right; right; reflexivity |].
    destruct (_ && _)%bool; [right; left; reflexivity | left; reflexivity]. }
  split; [exact Hall |].
  intros apiKey venueId fetch now random30 st Hst vd.
  unfold VenueStatus.fetchVenueData.
  destruct (VenueStatus.fetchVenueData_try apiKey venueId fetch now random30)
    as [vd' | e] eqn:Htry; cbn [VenueStatus.venueData].
  - intros [= <-]. rewrite (fetchVenueData_try_crowdLevel _ _ _ _ _ Htry).
    destruct (Hall (VenueStatus.getHours now)) as [H | [H | H]];
      rewrite H; discriminate.
  - apply Hst.
Qed.

(** A refresh that succeeds, at noon. *)
Example fetchVenueData_at_noon :
  let details := {| VenueStatus.pd_name := Some (lit "places/abc");
                    VenueStatus.pd_rating := Some (JSON.Binary64.ToNumber (lit "4.5"));
                    VenueStatus.pd_userRatingCount := Some (JSON.Binary64.ToNumber (lit "120"));
                    VenueStatus.pd_formattedAddress := None;
                    VenueStatus.pd_photos := None;
                    VenueStatus.pd_currentOpeningHours := None |} in
  let fetch := fun _ => Normal {| VenueStatus.ok := true;
                                  VenueStatus.json_ := Normal details |} in
  let now := {| VenueStatus.getHours := 12; VenueStatus.getDay := 2;
                VenueStatus.toISOString := lit "2024-05-07T10:00:00.000Z" |} in
  option_map VenueStatus.crowdLevel
    (VenueStatus.venueData
       (VenueStatus.fetchVenueData (Some (lit "KEY")) (lit "abc") fetch now 17
          {| VenueStatus.venueData := None; VenueStatus.loading := true;
             VenueStatus.error := None |}))
  = Some VenueStatus.High.
Proof. reflexivity. Qed.

(** ** The photo URL of the second results view *)

Section PhotoUrl.
Import ResultsSplit.

(** When [getPhotoUrl] gives up: no credential, or fewer than three
    segments. *)
Lemma getPhotoUrl_empty (apiKey : option jsstring) (photoReference : jsstring) :
  getPhotoUrl apiKey photoReference = []
  <-> truthy_str apiKey = false
      \/ (length (split (ch "/") photoReference) < 3)%nat.
Proof.
  unfold getPhotoUrl.
  destruct (truthy_str apiKey) eqn:Hkey; cbn [negb].
  - destruct (Nat.ltb_spec (length (split (ch "/") photoReference)) 3).
    + split; [intros _; right; assumption | reflexivity].
    + split; [discriminate | intros [Hf | Hlt]; [discriminate | lia]].
  - split; [intros _; left; reflexivity | reflexivity].
Qed.

(** Three segments pass the guard, and the fourth is read all the same. *)
Lemma getPhotoUrl_three_segments (key photoReference a b c : jsstring) :
  key <> [] ->
  split (ch "/") photoReference = [a; b; c] ->
  getPhotoUrl (Some key) photoReference
  = lit "https://places.googleapis.com/v1/places/" ++ b
    ++ lit "/photos/" ++ lit "undefined"
    ++ lit "/media?key=" ++ key ++ lit "&maxHeightPx=400".
Proof.
  intros Hkey Hparts. unfold getPhotoUrl. rewrite Hparts.
  destruct key as [| k key]; [congruence |]. reflexivity.
Qed.

End PhotoUrl.

(** C6. On a three-segment photo reference the guard lets the reference
    through and the missing fourth segment is written into the URL as
    "undefined". *)
Theorem C6_three_segments_embed_undefined :
  ResultsSplit.split (ch "/") (lit "places/abc/photos")
  = [lit "places"; lit "abc"; lit "photos"] /\
  ResultsSplit.getPhotoUrl (Some (lit "KEY")) (lit "places/abc/photos")
  = lit "https://places.googleapis.com/v1/places/abc/photos/undefined/media?key=KEY&maxHeightPx=400".
Proof. split; vm_compute; reflexivity. Qed.

(** A reference in the expected format, and one with five segments. *)
Example getPhotoUrl_four_segments :
  ResultsSplit.getPhotoUrl (Some (lit "KEY")) (lit "places/abc/photos/xyz")
  = lit "https://places.googleapis.com/v1/places/abc/photos/xyz/media?key=KEY&maxHeightPx=400".
Proof. vm_compute. reflexivity. Qed.

Example getPhotoUrl_five_segments :
  ResultsSplit.getPhotoUrl (Some (lit "KEY")) (lit "places/abc/photos/xyz/extra")
  = lit "https://places.googleapis.com/v1/places/abc/photos/xyz/media?key=KEY&maxHeightPx=400".
Proof. vm_compute. reflexivity. Qed.

Example getPhotoUrl_two_segments :
  ResultsSplit.getPhotoUrl (Some (lit "KEY")) (lit "places/abc") = [].
Proof. vm_compute. reflexivity. Qed.

(** ** JSON text *)

Section JsonFacts.
Import JSON.
#[local] Open Scope N_scope.

Lemma str_eqb_eq (a b : jsstring) : str_eqb a b = true <-> a = b.
Proof.
  revert b. induction a as [| x a IH]; intros [| y b]; cbn; split;
    try discriminate; try reflexivity.
  - intros H. apply andb_prop in H as [Hxy Hab].
    apply N.eqb_eq in Hxy. apply IH in Hab. now subst.
  - intros [= -> ->]. rewrite N.eqb_refl. cbn. now apply IH.
Qed.

Lemma str_eqb_refl (a : jsstring) : str_eqb a a = true.
Proof. now apply str_eqb_eq. Qed.

(** *** Lengths: every parser returns a strictly shorter rest *)

Lemma skip_ws_length (s : jsstring) : (length (skip_ws s) <= length s)%nat.
Proof.
  induction s as [| c s IH]; cbn; [lia |].
  destruct (is_ws c); cbn; lia.
Qed.

Lemma span_app (p : code_unit -> bool) (s : jsstring) :
  fst (span p s) ++ snd (span p s) = s.
Proof.
  induction s as [| c s IH]; cbn; [reflexivity |].
  destruct (p c); [| reflexivity].
  destruct (span p s) as [a b]. cbn in *. now rewrite IH.
Qed.

Lemma span_forallb (p : code_unit -> bool) (s : jsstring) :
  forallb p (fst (span p s)) = true.
Proof.
  induction s as [| c s IH]; cbn; [reflexivity |].
  destruct (p c) eqn:Hc; [| reflexivity].
  destruct (span p s) as [a b]. cbn in *. now rewrite Hc.
Qed.

Lemma span_all (p : code_unit -> bool) (a rest : jsstring) :
  forallb p a = true ->
  match rest with [] => True | c :: _ => p c = false end ->
  span p (a ++ rest) = (a, rest).
Proof.
  intros Ha Hrest. induction a as [| c a IH]; cbn in *.
  - destruct rest as [| c rest]; [reflexivity |]. cbn. now rewrite Hrest.
  - apply andb_prop in Ha as [Hc Ha]. rewrite Hc, (IH Ha). reflexivity.
Qed.

Lemma strip_prefix_length (p s rest : jsstring) :
  strip_prefix p s = Some rest -> (length rest + length p = length s)%nat.
Proof.
  revert s. induction p as [| x p IH]; intros [| y s]; cbn; try discriminate.
  - intros [= <-]. reflexivity.
  - intros [= <-]. cbn. lia.
  - destruct (N.eqb x y); [| discriminate]. intros H%IH. lia.
Qed.

Lemma strip_prefix_app (p rest : jsstring) : strip_prefix p (p ++ rest) = Some rest.
Proof.
  induction p as [| x p IH]; cbn; [now destruct rest |].
  now rewrite N.eqb_refl.
Qed.

Lemma valid_number_nonempty (n : jsstring) : valid_number n = true -> n <> [].
Proof. destruct n; [discriminate | discriminate]. Qed.

Lemma parse_number_length (s : jsstring) (v : json) (rest : jsstring) :
  parse_number s = Ok v rest -> (length rest < length s)%nat.
Proof.
  unfold parse_number. pose proof (span_app is_number_char s) as Happ.
  destruct (span is_number_char s) as [token r]. cbn in Happ.
  destruct (valid_number token) eqn:Hv; [| discriminate].
  intros [= <- <-]. apply valid_number_nonempty in Hv.
  rewrite <- Happ, length_app. destruct token; [congruence | cbn; lia].
Qed.

Lemma parse_literal_length (word : jsstring) (v0 : json) (s : jsstring)
    (v : json) (rest : jsstring) :
  word <> [] -> parse_literal word v0 s = Ok v rest -> (length rest < length s)%nat.
Proof.
  unfold parse_literal. intros Hw.
  destruct (strip_prefix word s) as [r |] eqn:Hs; [| discriminate].
  intros [= _ <-]. apply strip_prefix_length in Hs.
  destruct word; [congruence | cbn in Hs; lia].
Qed.

(** [parse_chars] recurses on tails at depth one, two and six. *)
Lemma parse_chars_facts (n : nat) :
  forall s : jsstring, (length s <= n)%nat ->
    parse_chars s <> OutOfFuel /\
    (forall str rest, parse_chars s = Ok str rest -> (length rest < length s)%nat).
Proof.
  induction n as [| n IH]; intros s Hn.
  - destruct s; [| cbn in Hn; lia]. cbn. split; [discriminate | discriminate].
  - destruct s as [| c s]; [cbn; split; discriminate |].
    cbn in Hn. cbn [parse_chars].
    destruct (N.eqb c 34).
    { split; [discriminate |]. intros str rest [= <- <-]. cbn. lia. }
    destruct (N.eqb c 92).
    { destruct s as [| e s]; [split; discriminate |].
      destruct (is_char "u" e).
      - destruct s as [| h1 [| h2 [| h3 [| h4 s]]]]; try (split; discriminate).
        destruct (hex4_value h1 h2 h3 h4); [| split; discriminate].
        cbn in Hn. destruct (IH s ltac:(lia)) as [Hf Hl].
        destruct (parse_chars s) as [str rest | |]; [| split; discriminate | congruence].
        split; [discriminate |]. intros str' rest' [= <- <-].
        specialize (Hl _ _ eq_refl). cbn. lia.
      - destruct (simple_escape e); [| split; discriminate].
        cbn in Hn. destruct (IH s ltac:(lia)) as [Hf Hl].
        destruct (parse_chars s) as [str rest | |]; [| split; discriminate | congruence].
        split; [discriminate |]. intros str' rest' [= <- <-].
        specialize (Hl _ _ eq_refl). cbn. lia. }
    destruct (N.ltb c 32); [split; discriminate |].
    destruct (IH s ltac:(lia)) as [Hf Hl].
    destruct (parse_chars s) as [str rest | |]; [| split; discriminate | congruence].
    split; [discriminate |]. intros str' rest' [= <- <-].
    specialize (Hl _ _ eq_refl). cbn. lia.
Qed.

Lemma parse_chars_length (s str rest : jsstring) :
  parse_chars s = Ok str rest -> (length rest < length s)%nat.
Proof. apply (@parse_chars_facts (length s) s (le_n _)). Qed.

Lemma parse_chars_fuel (s : jsstring) : parse_chars s <> OutOfFuel.
Proof. apply (@parse_chars_facts (length s) s (le_n _)). Qed.

Ltac break_hyp H :=
  repeat match type of H with
         | context [match ?x with _ => _ end] => destruct x eqn:?; try discriminate H
         end.

Ltac break_goal :=
  repeat match goal with
         | |- context [match ?x with _ => _ end] => destruct x eqn:?; try discriminate
         end.

Ltac skip_ws_lengths :=
  repeat match goal with
         | H : skip_ws ?s = _ |- _ =>
             let L := fresh "L" in
             pose proof (skip_ws_length s) as L; rewrite H in L;
             cbn [length] in L; clear H
         end.

Ltac token_lengths :=
  repeat match goal with
         | H : parse_chars _ = Ok _ _ |- _ => apply parse_chars_length in H
         | H : parse_number _ = Ok _ _ |- _ => apply parse_number_length in H
         | H : parse_literal _ _ _ = Ok _ _ |- _ =>
             apply parse_literal_length in H; [| discriminate]
         end.

Lemma parse_lengths (fuel : nat) :
  (forall s v rest, parse_value fuel s = Ok v rest -> (length rest < length s)%nat) /\
  (forall s vs rest, parse_elements fuel s = Ok vs rest -> (length rest < length s)%nat) /\
  (forall s ms rest, parse_members fuel s = Ok ms rest -> (length rest < length s)%nat).
Proof.
  induction fuel as [| fuel (IHv & IHe & IHm)].
  - repeat split; intros; discriminate.
  - repeat split.
    + intros s v rest H. cbn [parse_value] in H. break_hyp H;
        try (injection H as <- <-);
        repeat match goal with
               | E : parse_members _ _ = Ok _ _ |- _ => apply IHm in E
               | E : parse_elements _ _ = Ok _ _ |- _ => apply IHe in E
               end;
        token_lengths; skip_ws_lengths; cbn [length] in *; lia.
    + intros s vs rest H. cbn [parse_elements] in H. break_hyp H;
        try (injection H as <- <-);
        repeat match goal with
               | E : parse_value _ _ = Ok _ _ |- _ => apply IHv in E
               | E : parse_elements _ _ = Ok _ _ |- _ => apply IHe in E
               end;
        skip_ws_lengths; cbn [length] in *; lia.
    + intros s ms rest H. cbn [parse_members] in H. break_hyp H;
        try (injection H as <- <-);
        repeat match goal with
               | E : parse_value _ _ = Ok _ _ |- _ => apply IHv in E
               | E : parse_members _ _ = Ok _ _ |- _ => apply IHm in E
               end;
        token_lengths; skip_ws_lengths; cbn [length] in *; lia.
Qed.

Lemma parse_number_fuel (s : jsstring) : parse_number s <> OutOfFuel.
Proof.
  unfold parse_number. destruct (span is_number_char s) as [token rest].
  destruct (valid_number token); discriminate.
Qed.

Lemma parse_literal_fuel (word : jsstring) (v : json) (s : jsstring) :
  parse_literal word v s <> OutOfFuel.
Proof. unfold parse_literal. destruct (strip_prefix word s); discriminate. Qed.

Ltac parsed_lengths :=
  repeat match goal with
         | E : parse_value ?f _ = Ok _ _ |- _ => apply (proj1 (parse_lengths f)) in E
         | E : parse_elements ?f _ = Ok _ _ |- _ =>
             apply (proj1 (proj2 (parse_lengths f))) in E
         | E : parse_members ?f _ = Ok _ _ |- _ =>
             apply (proj2 (proj2 (parse_lengths f))) in E
         end;
  token_lengths; skip_ws_lengths; cbn [length] in *.

(** *** The fuel [parse] supplies is never used up *)

Lemma parse_fuel (fuel : nat) :
  (forall s, (2 * length s < fuel)%nat -> parse_value fuel s <> OutOfFuel) /\
  (forall s, (2 * length s + 1 < fuel)%nat -> parse_elements fuel s <> OutOfFuel) /\
  (forall s, (2 * length s + 1 < fuel)%nat -> parse_members fuel s <> OutOfFuel).
Proof.
  induction fuel as [| fuel (IHv & IHe & IHm)].
  - repeat split; intros; lia.
  - repeat split; intros s Hs.
    + cbn [parse_value]. break_goal;
        try apply parse_number_fuel; try apply parse_literal_fuel;
        try (exfalso; eapply parse_chars_fuel; eassumption);
        exfalso;
        match goal with
        | E : parse_members _ _ = OutOfFuel |- _ => revert E; apply IHm
        | E : parse_elements _ _ = OutOfFuel |- _ => revert E; apply IHe
        end;
        parsed_lengths; lia.
    + cbn [parse_elements]. break_goal;
        exfalso;
        match goal with
        | E : parse_elements _ _ = OutOfFuel |- _ => revert E; apply IHe
        | E : parse_value _ _ = OutOfFuel |- _ => revert E; apply IHv
        end;
        parsed_lengths; lia.
    + cbn [parse_members]. break_goal;
        try (exfalso; eapply parse_chars_fuel; eassumption);
        exfalso;
        match goal with
        | E : parse_members _ _ = OutOfFuel |- _ => revert E; apply IHm
        | E : parse_value _ _ = OutOfFuel |- _ => revert E; apply IHv
        end;
        parsed_lengths; lia.
Qed.

Lemma parse_text_fuel (text : jsstring) :
  parse_text (enough_fuel text) text <> OutOfFuel.
Proof.
  unfold parse_text.
  destruct (parse_value (enough_fuel text) text) as [v rest | |] eqn:E.
  - destruct (skip_ws rest); discriminate.
  - discriminate.
  - exfalso. revert E. apply parse_fuel. unfold enough_fuel. lia.
Qed.

(** [parse] throws exactly on the texts that are not JSON. *)
Lemma parse_throws (text : jsstring) :
  parse text = Throw Unexpected <-> parse_text (enough_fuel text) text = SyntaxError.
Proof.
  unfold parse. pose proof (parse_text_fuel text) as Hf.
  destruct (parse_text (enough_fuel text) text); split; congruence.
Qed.

(** *** More fuel never changes a verdict *)

Ltac step_fuel fuel IHv IHe IHm Hr Hle :=
  repeat match goal with
         | |- context [match ?x with _ => _ end] =>
             lazymatch x with
             | parse_value fuel ?t =>
                 let E := fresh "E" in
                 destruct x eqn:E;
                 [ rewrite (IHv t) by first [exact Hle | rewrite E; discriminate]
                 | rewrite (IHv t) by first [exact Hle | rewrite E; discriminate]
                 | exfalso; apply Hr; reflexivity ];
                 rewrite E
             | parse_elements fuel ?t =>
                 let E := fresh "E" in
                 destruct x eqn:E;
                 [ rewrite (IHe t) by first [exact Hle | rewrite E; discriminate]
                 | rewrite (IHe t) by first [exact Hle | rewrite E; discriminate]
                 | exfalso; apply Hr; reflexivity ];
                 rewrite E
             | parse_members fuel ?t =>
                 let E := fresh "E" in
                 destruct x eqn:E;
                 [ rewrite (IHm t) by first [exact Hle | rewrite E; discriminate]
                 | rewrite (IHm t) by first [exact Hle | rewrite E; discriminate]
                 | exfalso; apply Hr; reflexivity ];
                 rewrite E
             | parse_value _ _ => fail
             | parse_elements _ _ => fail
             | parse_members _ _ => fail
             | _ => destruct x eqn:?
             end
         end;
  reflexivity.

Lemma parse_fuel_mono (fuel : nat) :
  (forall s, parse_value fuel s <> OutOfFuel ->
     forall more, (fuel <= more)%nat -> parse_value more s = parse_value fuel s) /\
  (forall s, parse_elements fuel s <> OutOfFuel ->
     forall more, (fuel <= more)%nat -> parse_elements more s = parse_elements fuel s) /\
  (forall s, parse_members fuel s <> OutOfFuel ->
     forall more, (fuel <= more)%nat -> parse_members more s = parse_members fuel s).
Proof.
  induction fuel as [| fuel (IHv & IHe & IHm)].
  - repeat split; intros s Hr; exfalso; apply Hr; reflexivity.
  - repeat split; intros s Hr [| more] Hle; try lia;
      apply le_S_n in Hle.
    + cbn [parse_value] in Hr |- *. step_fuel fuel IHv IHe IHm Hr Hle.
    + cbn [parse_elements] in Hr |- *. step_fuel fuel IHv IHe IHm Hr Hle.
    + cbn [parse_members] in Hr |- *. step_fuel fuel IHv IHe IHm Hr Hle.
Qed.

(** The verdict of [parse] is that of any larger amount of fuel. *)
Lemma parse_text_more_fuel (more : nat) (text : jsstring) :
  (enough_fuel text <= more)%nat ->
  parse_text more text = parse_text (enough_fuel text) text.
Proof.
  intros Hle. unfold parse_text.
  rewrite (proj1 (parse_fuel_mono (enough_fuel text)) text); [reflexivity | | exact Hle].
  apply parse_fuel. unfold enough_fuel. lia.
Qed.

(** *** Strings: [parse_chars] reads back what [quote_chars] wrote *)

Lemma hex_value_digit (d : N) : d < 16 -> hex_value (hex_digit d) = Some d.
Proof.
  intros Hd. unfold hex_digit, hex_value.
  destruct (N.ltb_spec d 10) as [Hlt | Hge].
  - replace (N.leb 48 (48 + d) && N.leb (48 + d) 57) with true.
    + f_equal. lia.
    + symmetry. apply andb_true_intro. split; apply N.leb_le; lia.
  - replace (N.leb 48 (87 + d) && N.leb (87 + d) 57) with false.
    + replace (N.leb 97 (87 + d) && N.leb (87 + d) 102) with true.
      * f_equal. lia.
      * symmetry. apply andb_true_intro. split; apply N.leb_le; lia.
    + symmetry. apply andb_false_intro2. apply N.leb_gt. lia.
Qed.

Lemma hex4_value_digits (c : code_unit) :
  c < 65536 ->
  hex4_value (hex_digit (c / 4096 mod 16)) (hex_digit (c / 256 mod 16))
             (hex_digit (c / 16 mod 16)) (hex_digit (c mod 16))
  = Some c.
Proof.
  intros Hc. unfold hex4_value.
  rewrite !hex_value_digit by (apply N.mod_lt; discriminate).
  f_equal.
  pose proof (N.div_mod c 16 ltac:(discriminate)) as E0.
  pose proof (N.div_mod (c / 16) 16 ltac:(discriminate)) as E1.
  pose proof (N.div_mod (c / 16 / 16) 16 ltac:(discriminate)) as E2.
  rewrite !N.Div0.div_div in E1, E2.
  change (16 * 16) with 256 in *.
  rewrite ?N.Div0.div_div in E2. change (256 * 16) with 4096 in *.
  assert (Hsmall : c / 4096 < 16).
  { apply N.Div0.div_lt_upper_bound. exact Hc. }
  rewrite (N.mod_small (c / 4096) 16 Hsmall).
  lia.
Qed.

Lemma parse_chars_unicode (h1 h2 h3 h4 u : code_unit) (s : jsstring) :
  hex4_value h1 h2 h3 h4 = Some u ->
  parse_chars (92 :: 117 :: h1 :: h2 :: h3 :: h4 :: s)
  = match parse_chars s with
    | Ok str rest => Ok (u :: str) rest
    | err => err
    end.
Proof.
  intros H. cbn [parse_chars].
  change (N.eqb 92 34) with false. change (N.eqb 92 92) with true.
  change (is_char "u" 117) with true. cbv iota. rewrite H. reflexivity.
Qed.

Lemma parse_chars_unicode_escape (c : code_unit) (s : jsstring) :
  c < 65536 ->
  parse_chars (unicode_escape c ++ s)
  = match parse_chars s with
    | Ok str rest => Ok (c :: str) rest
    | err => err
    end.
Proof.
  intros Hc. unfold unicode_escape. cbn [app].
  apply parse_chars_unicode, hex4_value_digits, Hc.
Qed.
Lemma parse_chars_raw (c : code_unit) (s : jsstring) :
  N.eqb c 34 = false -> N.eqb c 92 = false -> N.ltb c 32 = false ->
  parse_chars (c :: s)
  = match parse_chars s with
    | Ok str rest => Ok (c :: str) rest
    | err => err
    end.
Proof. intros H34 H92 H32. cbn [parse_chars]. now rewrite H34, H92, H32. Qed.

Lemma surrogate_raw (c : code_unit) :
  is_leading c || is_trailing c = true ->
  N.eqb c 34 = false /\ N.eqb c 92 = false /\ N.ltb c 32 = false /\ c < 65536.
Proof.
  unfold is_leading, is_trailing. intros H.
  assert (55296 <= c <= 57343) as Hc.
  { apply orb_prop in H as [H | H]; apply andb_prop in H as [H1 H2];
      apply N.leb_le in H1, H2; lia. }
  repeat split; [apply N.eqb_neq | apply N.eqb_neq | apply N.ltb_ge |]; lia.
Qed.

Lemma parse_chars_quote_unit (c : code_unit) (s : jsstring) :
  parse_chars (quote_unit c ++ s)
  = match parse_chars s with
    | Ok str rest => Ok (c :: str) rest
    | err => err
    end.
Proof.
  unfold quote_unit.
  destruct (N.eqb_spec c 8) as [-> | H8]; [reflexivity |].
  destruct (N.eqb_spec c 9) as [-> | H9]; [reflexivity |].
  destruct (N.eqb_spec c 10) as [-> | H10]; [reflexivity |].
  destruct (N.eqb_spec c 12) as [-> | H12]; [reflexivity |].
  destruct (N.eqb_spec c 13) as [-> | H13]; [reflexivity |].
  destruct (N.eqb_spec c 34) as [-> | H34]; [reflexivity |].
  destruct (N.eqb_spec c 92) as [-> | H92]; [reflexivity |].
  destruct (N.ltb_spec c 32) as [Hlt | Hge]; cbn [orb].
  - apply parse_chars_unicode_escape. lia.
  - destruct (is_leading c || is_trailing c) eqn:Hs.
    + apply parse_chars_unicode_escape. now apply surrogate_raw.
    + cbn [app]. apply parse_chars_raw;
        [apply N.eqb_neq | apply N.eqb_neq | apply N.ltb_ge]; assumption.
Qed.

Lemma parse_chars_quote_chars_bounded (n : nat) :
  forall s : jsstring, (length s <= n)%nat ->
    forall rest, parse_chars (quote_chars s ++ rest) = Ok s rest.
Proof.
  induction n as [| n IH]; intros s Hn rest.
  - destruct s; [reflexivity | cbn in Hn; lia].
  - destruct s as [| c s]; [reflexivity |]. cbn in Hn. cbn [quote_chars].
    destruct (is_leading c) eqn:Hl.
    + destruct (@surrogate_raw c) as (H34 & H92 & H32 & Hc); [now rewrite Hl |].
      destruct s as [| d s].
      * rewrite <- app_assoc, parse_chars_unicode_escape by exact Hc. reflexivity.
      * destruct (is_trailing d) eqn:Ht.
        -- destruct (@surrogate_raw d) as (D34 & D92 & D32 & _);
             [rewrite Ht; apply orb_true_r |].
           cbn [app]. rewrite parse_chars_raw by assumption.
           rewrite parse_chars_raw by assumption.
           rewrite IH by (cbn in Hn; lia). reflexivity.
        -- rewrite <- app_assoc, parse_chars_unicode_escape by exact Hc.
           rewrite IH by (cbn in Hn |- *; lia). reflexivity.
    + rewrite <- app_assoc, parse_chars_quote_unit.
      rewrite IH by lia. reflexivity.
Qed.

Lemma parse_chars_quote_chars (s rest : jsstring) :
  parse_chars (quote_chars s ++ rest) = Ok s rest.
Proof. exact (@parse_chars_quote_chars_bounded (length s) s (le_n _) rest). Qed.
(** *** Numbers *)

Lemma digit_number_char (c : code_unit) :
  is_digit c = true -> is_number_char c = true.
Proof. unfold is_number_char. now intros ->. Qed.

Lemma digits_number_chars (s : jsstring) :
  forallb is_digit s = true -> forallb is_number_char s = true.
Proof.
  induction s as [| c s IH]; cbn; [reflexivity |].
  intros H. apply andb_prop in H as [Hc Hs].
  now rewrite (digit_number_char _ Hc), IH.
Qed.

Lemma valid_exponent_chars (s : jsstring) :
  valid_exponent s = true -> forallb is_number_char s = true.
Proof.
  destruct s as [| e r]; [reflexivity |]. cbn [valid_exponent forallb].
  intros H. apply andb_prop in H as [He H]. apply andb_prop in H as [_ Hds].
  apply andb_true_intro. split.
  - unfold is_number_char. apply orb_prop in He as [-> | ->];
      rewrite ?orb_true_r; reflexivity.
  - destruct r as [| sign r']; [reflexivity |].
    destruct (is_char "+" sign || is_char "-" sign) eqn:Hsign.
    + cbn [forallb]. rewrite (digits_number_chars _ Hds), andb_true_r.
      unfold is_number_char. apply orb_prop in Hsign as [-> | ->];
        rewrite ?orb_true_r; reflexivity.
    + now apply digits_number_chars.
Qed.

Lemma valid_fraction_chars (s : jsstring) :
  valid_fraction s = true -> forallb is_number_char s = true.
Proof.
  destruct s as [| c r]; [reflexivity |]. cbn [valid_fraction].
  destruct (is_char "." c) eqn:Hdot; [| apply valid_exponent_chars].
  pose proof (span_app is_digit r) as Happ.
  pose proof (span_forallb is_digit r) as Hds.
  destruct (span is_digit r) as [ds r']. cbn [fst snd] in Happ, Hds.
  intros H. apply andb_prop in H as [_ He].
  cbn [forallb]. apply andb_true_intro. split.
  - unfold is_number_char. rewrite Hdot, ?orb_true_r. reflexivity.
  - rewrite <- Happ, forallb_app, (digits_number_chars _ Hds).
    now apply valid_exponent_chars.
Qed.

Lemma valid_integer_chars (s : jsstring) :
  valid_integer s = true ->
  forallb is_number_char s = true /\
  exists c s', s = c :: s' /\ is_digit c = true.
Proof.
  destruct s as [| c r]; [discriminate |]. cbn [valid_integer forallb].
  destruct (is_char "0" c) eqn:H0.
  - intros H%valid_fraction_chars.
    assert (Hd : is_digit c = true).
    { apply N.eqb_eq in H0. subst c. reflexivity. }
    split; [| now exists c, r].
    now rewrite (digit_number_char _ Hd), H.
  - destruct (is_digit c) eqn:Hd; [| discriminate].
    pose proof (span_app is_digit r) as Happ.
    pose proof (span_forallb is_digit r) as Hds.
    destruct (span is_digit r) as [ds r']. cbn [fst snd] in *.
    intros H%valid_fraction_chars.
    split; [| now exists c, r].
    rewrite (digit_number_char _ Hd), <- Happ, forallb_app.
    now rewrite (digits_number_chars _ Hds), H.
Qed.

Lemma valid_number_chars (n : jsstring) :
  valid_number n = true ->
  forallb is_number_char n = true /\
  exists c n', n = c :: n' /\ is_char "-" c || is_digit c = true.
Proof.
  destruct n as [| c r]; [discriminate |]. cbn [valid_number].
  destruct (is_char "-" c) eqn:Hm.
  - intros [H _]%valid_integer_chars. split.
    + cbn [forallb]. rewrite H, andb_true_r.
      unfold is_number_char. rewrite Hm, ?orb_true_r. reflexivity.
    + exists c, r. now rewrite Hm.
  - intros [H (c' & s' & [= <- <-] & Hd)]%valid_integer_chars.
    split; [exact H |]. exists c, r. now rewrite Hd, orb_true_r.
Qed.

(** *** Numbers are read back as they are written *)

Section Binary64Facts.
Import Binary64.
#[local] Open Scope Z_scope.

Lemma magnitude_ok_spec (m e : Z) :
  magnitude_ok m e = true ->
  (2 ^ 52 <= m < 2 ^ 53 /\ -1074 <= e <= 971) \/ (0 < m < 2 ^ 52 /\ e = -1074).
Proof.
  unfold magnitude_ok. intros H. apply orb_prop in H as [H | H].
  - left. repeat (apply andb_prop in H as [H ?]). lia.
  - right. repeat (apply andb_prop in H as [H ?]). lia.
Qed.

Lemma pow2_max_pos (t : Z) : 0 < 2 ^ Z.max 0 t.
Proof. apply Z.pow_pos_nonneg; lia. Qed.

Lemma pow10_max_pos (t : Z) : 0 < 10 ^ Z.max 0 t.
Proof. apply Z.pow_pos_nonneg; lia. Qed.

Lemma pow2_lt_inv (x y : Z) : 0 <= x -> 0 <= y -> 2 ^ x < 2 ^ y -> x < y.
Proof. intros Hx Hy H. apply (Z.pow_lt_mono_r_iff 2); lia. Qed.

(** Halving the scale halves the quotient. *)
Lemma quotient_succ (a b t : Z) :
  0 < a -> 0 < b -> quotient a b (t + 1) = quotient a b t / 2.
Proof.
  intros Ha Hb. unfold quotient.
  destruct (Z_lt_le_dec t 0) as [Ht | Ht].
  - replace (Z.max 0 (- t)) with (Z.max 0 (- (t + 1)) + 1) by lia.
    replace (Z.max 0 (t + 1)) with 0 by lia.
    replace (Z.max 0 t) with 0 by lia.
    rewrite Z.pow_add_r by lia. change (2 ^ 1) with 2. change (2 ^ 0) with 1.
    rewrite !Z.mul_1_r. rewrite Z.div_div by lia.
    rewrite Z.mul_assoc. rewrite Z.div_mul_cancel_r by lia. reflexivity.
  - replace (Z.max 0 (- (t + 1))) with 0 by lia.
    replace (Z.max 0 (- t)) with 0 by lia.
    replace (Z.max 0 (t + 1)) with (Z.max 0 t + 1) by lia.
    rewrite Z.pow_add_r by lia. change (2 ^ 1) with 2.
    rewrite Z.mul_assoc. rewrite Z.div_div; [reflexivity | | lia].
    pose proof (pow2_max_pos t). nia.
Qed.

Lemma below_chain (c m x b d a p y : Z) :
  0 < d -> 0 < p -> 0 <= c <= m -> 0 < x <= b ->
  a * p = m * (b * d) -> a < y -> c * x * d < y * p.
Proof.
  intros Hd Hp Hc Hx Hex Ha.
  assert (c * x <= m * b) by nia.
  assert (c * x * d <= m * b * d) by nia.
  assert (a * p < y * p) by nia.
  lia.
Qed.

Lemma above_chain (c m x b d a p y : Z) :
  0 < d -> 0 < p -> 0 < m < c -> 0 < b < x -> 0 < y <= a ->
  a * p = m * (b * d) -> y * p < c * x * d.
Proof.
  intros Hd Hp Hc Hx Ha Hex.
  assert (m * b < c * x) by nia.
  assert (m * b * d < c * x * d) by nia.
  assert (y * p <= a * p) by nia.
  lia.
Qed.

(** A ratio that is a binary64 magnitude is rounded to itself. *)
Lemma round_exact (a b m e : Z) :
  0 < a -> 0 < b -> magnitude_ok m e = true ->
  a * 2 ^ Z.max 0 (- e) = m * (b * 2 ^ Z.max 0 e) ->
  round a b = Mag m e.
Proof.
  intros Ha Hb Hm Hex. apply magnitude_ok_spec in Hm.
  pose proof (Z.log2_spec a Ha) as [Hla1 Hla2].
  pose proof (Z.log2_spec b Hb) as [Hlb1 Hlb2].
  pose proof (Z.log2_nonneg a) as Hla. pose proof (Z.log2_nonneg b) as Hlb.
  set (la := Z.log2 a) in *. set (lb := Z.log2 b) in *.
  pose proof (pow2_max_pos (- e)) as Hp. pose proof (pow2_max_pos e) as Hd.
  assert (Hq : quotient a b e = m).
  { unfold quotient. rewrite Hex. apply Z.div_mul. nia. }
  assert (Hr : remainder a b e = 0).
  { unfold remainder. rewrite Hex. apply Z.mod_mul. nia. }
  assert (He : Z.max (if 2 ^ 52 <=? quotient a b (la - lb - 52)
                      then la - lb - 52 else la - lb - 52 - 1) (-1074) = e).
  { destruct Hm as [[Hm He] | [Hm He]].
    - assert (H1 : e <= la - lb - 52).
      { assert (2 ^ (52 + lb + Z.max 0 e) < 2 ^ (la + 1 + Z.max 0 (- e))).
        { rewrite !Z.pow_add_r by lia.
          apply (@below_chain _ m _ b _ a); try assumption; try lia;
            try (rewrite <- Z.pow_add_r by lia; exact Hla2). }
        apply pow2_lt_inv in H; lia. }
      assert (H2 : la - lb - 52 <= e + 1).
      { assert (2 ^ (la + Z.max 0 (- e)) < 2 ^ (53 + (lb + 1) + Z.max 0 e)).
        { rewrite (Z.pow_add_r 2 la), (Z.pow_add_r 2 (53 + (lb + 1))),
            (Z.pow_add_r 2 53) by lia.
          apply (@above_chain _ m _ b _ a); try assumption; try lia;
            try (split; [lia | exact Hlb2]). }
        apply pow2_lt_inv in H; lia. }
      assert (Hcase : la - lb - 52 = e \/ la - lb - 52 = e + 1) by lia.
      destruct Hcase as [-> | ->].
      + rewrite Hq. destruct (Z.leb_spec (2 ^ 52) m); lia.
      + rewrite quotient_succ, Hq by assumption.
        assert (m / 2 < 2 ^ 52).
        { apply Z.div_lt_upper_bound; [lia |].
          change (2 ^ 53) with (2 * 2 ^ 52) in Hm. lia. }
        destruct (Z.leb_spec (2 ^ 52) (m / 2)); lia.
    - subst e.
      assert (la - lb - 52 <= -1074).
      { assert (2 ^ (la + Z.max 0 (- -1074))
                < 2 ^ (52 + (lb + 1) + Z.max 0 (-1074))).
        { rewrite (Z.pow_add_r 2 la), (Z.pow_add_r 2 (52 + (lb + 1))),
            (Z.pow_add_r 2 52) by lia.
          apply (@above_chain _ m _ b _ a); try assumption; try lia;
            try (split; [lia | exact Hlb2]). }
        apply pow2_lt_inv in H; lia. }
      destruct (2 ^ 52 <=? quotient a b (la - lb - 52)); lia. }
  unfold round. fold la lb. cbv zeta. rewrite He, Hq, Hr.
  assert (Hden : 0 < b * 2 ^ Z.max 0 e) by nia.
  replace (2 * 0 <? b * 2 ^ Z.max 0 e) with true
    by (symmetry; apply Z.ltb_lt; lia).
  assert (Hm53 : m <> 2 ^ 53) by (destruct Hm as [[? ?] | [? ?]]; lia).
  assert (Hm0 : m <> 0) by (destruct Hm as [[? ?] | [? ?]]; lia).
  assert (He971 : e <= 971) by (destruct Hm as [[? ?] | [? ?]]; lia).
  apply Z.eqb_neq in Hm53, Hm0. rewrite Hm53, Hm0.
  replace (971 <? e) with false by (symmetry; apply Z.ltb_ge; lia).
  reflexivity.
Qed.

(** Every binary64 value has digits: written out in full, as an integer
    times 10^min(e, 0), it is read back. *)
Lemma candidate_exact (m e : Z) :
  magnitude_ok m e = true -> candidate m e (Z.min e 0) <> None.
Proof.
  intros Hm. pose proof (magnitude_ok_spec _ _ Hm) as Hm'.
  assert (Hpos : 0 < m) by (destruct Hm' as [[? ?] | [? ?]]; lia).
  unfold candidate. cbv zeta.
  set (a := m * 2 ^ Z.max 0 e * 10 ^ Z.max 0 (- Z.min e 0)).
  set (b := 2 ^ Z.max 0 (- e) * 10 ^ Z.max 0 (Z.min e 0)).
  assert (Hb : 0 < b).
  { unfold b. pose proof (pow2_max_pos (- e)).
    pose proof (pow10_max_pos (Z.min e 0)). nia. }
  assert (Hexact : exists s, 0 < s /\ a = s * b /\ round_decimal s (Z.min e 0) = Mag m e).
  { destruct (Z_lt_le_dec e 0) as [He | He].
    - exists (m * 5 ^ (- e)).
      assert (H5 : 0 < 5 ^ (- e)) by (apply Z.pow_pos_nonneg; lia).
      assert (H2 : 0 < 2 ^ (- e)) by (apply Z.pow_pos_nonneg; lia).
      assert (H10 : 10 ^ (- e) = 2 ^ (- e) * 5 ^ (- e)).
      { change 10 with (2 * 5). apply Z.pow_mul_l. }
      split; [nia |]. split.
      + unfold a, b. replace (Z.min e 0) with e by lia.
        replace (Z.max 0 e) with 0 by lia.
        replace (Z.max 0 (- e)) with (- e) by lia.
        change (2 ^ 0) with 1. change (10 ^ 0) with 1. rewrite H10. ring.
      + unfold round_decimal. replace (Z.min e 0) with e by lia.
        replace (Z.max 0 e) with 0 by lia.
        replace (Z.max 0 (- e)) with (- e) by lia.
        change (10 ^ 0) with 1. rewrite Z.mul_1_r.
        apply round_exact; [nia | rewrite H10; nia | exact Hm |].
        replace (Z.max 0 e) with 0 by lia.
        replace (Z.max 0 (- e)) with (- e) by lia.
        change (2 ^ 0) with 1. rewrite H10. ring.
    - exists (m * 2 ^ e).
      assert (H2 : 0 < 2 ^ e) by (apply Z.pow_pos_nonneg; lia).
      split; [nia |]. split.
      + unfold a, b. replace (Z.min e 0) with 0 by lia.
        replace (Z.max 0 e) with e by lia.
        replace (Z.max 0 (- e)) with 0 by lia.
        change (Z.max 0 (- 0)) with 0. change (Z.max 0 0) with 0.
        change (2 ^ 0) with 1. change (10 ^ 0) with 1. ring.
      + unfold round_decimal. replace (Z.min e 0) with 0 by lia.
        change (Z.max 0 (- 0)) with 0. change (Z.max 0 0) with 0.
        change (10 ^ 0) with 1. rewrite Z.mul_1_r.
        apply round_exact; [nia | lia | exact Hm |].
        replace (Z.max 0 e) with e by lia.
        replace (Z.max 0 (- e)) with 0 by lia.
        change (2 ^ 0) with 1. ring. }
  destruct Hexact as (s & Hs & Has & Hround).
  assert (Hlo : a / b = s) by (rewrite Has; apply Z.div_mul; lia).
  assert (Hr : a mod b = 0) by (rewrite Has; apply Z.mod_mul; lia).
  rewrite Hlo, Hr.
  replace (2 * 0 <? b) with true by (symmetry; apply Z.ltb_lt; lia).
  assert (Hreads : reads_as m e s (Z.min e 0) = true).
  { unfold reads_as. rewrite Hround, !Z.eqb_refl.
    replace (0 <? s) with true by (symmetry; apply Z.ltb_lt; lia). reflexivity. }
  rewrite Hreads. discriminate.
Qed.

Lemma shortest_from_finds (m e target : Z) (fuel : nat) (q : Z) :
  candidate m e target <> None ->
  target <= q -> (Z.to_nat (q - target) < fuel)%nat ->
  shortest_from fuel m e q <> None.
Proof.
  intros Htarget. revert q. induction fuel as [| fuel IH]; intros q Hq Hfuel;
    [lia |].
  cbn [shortest_from]. destruct (candidate m e q) eqn:Hc; [discriminate |].
  apply IH.
  - assert (q <> target) by (intros ->; contradiction). lia.
  - assert (q <> target) by (intros ->; contradiction). lia.
Qed.

Lemma shortest_from_reads (m e : Z) (fuel : nat) (q0 s q : Z) :
  shortest_from fuel m e q0 = Some (s, q) -> reads_as m e s q = true.
Proof.
  revert q0. induction fuel as [| fuel IH]; intros q0; [discriminate |].
  cbn [shortest_from]. destruct (candidate m e q0) as [s' |] eqn:Hc.
  - intros [= <- <-]. unfold candidate in Hc. cbv zeta in Hc.
    repeat match type of Hc with
           | (if ?c then _ else _) = _ => destruct c eqn:?
           end; try discriminate; injection Hc as <-;
      repeat match goal with
             | H : (_ && _)%bool = true |- _ => apply andb_prop in H as [? ?]
             end; assumption.
  - apply IH.
Qed.

Lemma first_exponent_above (m e : Z) :
  0 < m -> Z.min e 0 <= first_exponent m e.
Proof.
  intros Hm. unfold first_exponent. pose proof (Z.log2_nonneg m) as Hl.
  set (y := Z.log2 m + e + 2).
  destruct (Z_lt_le_dec y 0) as [Hy | Hy].
  - assert (y <= y * 30103 / 100000)
      by (apply Z.div_le_lower_bound; lia).
    lia.
  - assert (0 <= y * 30103 / 100000) by (apply Z.div_pos; lia). lia.
Qed.

(** The digits of a binary64 value: there are some, and they are read back
    as the value. *)
Lemma shortest_reads (m e : Z) :
  magnitude_ok m e = true ->
  exists s q, shortest m e = Some (s, q) /\ 0 < s /\ round_decimal s q = Mag m e.
Proof.
  intros Hm. pose proof (magnitude_ok_spec _ _ Hm) as Hm'.
  assert (Hpos : 0 < m) by (destruct Hm' as [[? ?] | [? ?]]; lia).
  assert (He : -1074 <= e) by (destruct Hm' as [[? ?] | [? ?]]; lia).
  pose proof (first_exponent_above e Hpos) as Hq.
  unfold shortest. cbv zeta.
  destruct (shortest_from (Z.to_nat (first_exponent m e + 1075)) m e
              (first_exponent m e)) as [[s q] |] eqn:Hs.
  - exists s, q. split; [reflexivity |].
    apply shortest_from_reads in Hs. unfold reads_as in Hs.
    apply andb_prop in Hs as [Hs1 Hs2]. apply Z.ltb_lt in Hs1.
    split; [exact Hs1 |].
    destruct (round_decimal s q) as [| m' e' |]; try discriminate.
    apply andb_prop in Hs2 as [->%Z.eqb_eq ->%Z.eqb_eq]. reflexivity.
  - exfalso. revert Hs.
    apply (@shortest_from_finds m e (Z.min e 0)); [| exact Hq | lia].
    now apply candidate_exact.
Qed.

(** **** The text of the digits *)

Lemma digits_value_app (xs ys : jsstring) :
  digits_value (xs ++ ys)
  = fold_left (fun acc c => 10 * acc + digit c) ys (digits_value xs).
Proof. unfold digits_value. apply fold_left_app. Qed.

Lemma digits_value_snoc (xs : jsstring) (c : code_unit) :
  digits_value (xs ++ [c]) = 10 * digits_value xs + digit c.
Proof. rewrite digits_value_app. reflexivity. Qed.

Lemma fold_zeros (k : nat) (acc : Z) :
  fold_left (fun acc c => 10 * acc + digit c) (repeat (ch "0") k) acc
  = acc * 10 ^ Z.of_nat k.
Proof.
  revert acc. induction k as [| k IH]; intros acc.
  - cbn. lia.
  - cbn [repeat fold_left]. rewrite IH. change (digit (ch "0")) with 0.
    rewrite Nat2Z.inj_succ, Z.pow_succ_r by lia. ring.
Qed.

Lemma zeros_digits (j : Z) : forallb is_digit (zeros j) = true.
Proof.
  unfold zeros. induction (Z.to_nat j) as [| k IH]; [reflexivity |].
  cbn [repeat forallb]. rewrite IH. reflexivity.
Qed.

Lemma zeros_length (j : Z) : 0 <= j -> Z.of_nat (length (zeros j)) = j.
Proof. intros Hj. unfold zeros. rewrite repeat_length. lia. Qed.

Lemma digit_of_residue (r : Z) :
  0 <= r < 10 ->
  is_digit (Z.to_N (48 + r)) = true /\ digit (Z.to_N (48 + r)) = r /\
  (0 < r -> is_char "0" (Z.to_N (48 + r)) = false).
Proof.
  intros Hr.
  assert (H : r = 0 \/ r = 1 \/ r = 2 \/ r = 3 \/ r = 4 \/ r = 5 \/ r = 6
              \/ r = 7 \/ r = 8 \/ r = 9) by lia.
  repeat (destruct H as [-> | H]; [repeat split; intros; try reflexivity; lia |]).
  subst r. repeat split.
Qed.

(** The digits of a positive integer: digits, the first of them not 0,
    whose value is the integer. *)
Lemma to_digits_spec (fuel : nat) (n : Z) (acc : jsstring) :
  0 < n < 2 ^ Z.of_nat fuel ->
  exists c ds,
    to_digits fuel n acc = (c :: ds) ++ acc /\
    forallb is_digit (c :: ds) = true /\
    is_char "0" c = false /\
    digits_value (c :: ds) = n.
Proof.
  revert n acc. induction fuel as [| fuel IH]; intros n acc Hn.
  - cbn in Hn. lia.
  - cbn [to_digits]. cbv zeta.
    assert (Hr : 0 <= n mod 10 < 10) by (apply Z.mod_pos_bound; lia).
    destruct (digit_of_residue Hr) as (Hd & Hv & Hz).
    destruct (Z.ltb_spec n 10) as [Hlt | Hge].
    + exists (Z.to_N (48 + n mod 10)), []. split; [reflexivity |].
      assert (Hmod : n mod 10 = n) by (apply Z.mod_small; lia).
      split; [cbn [forallb]; now rewrite Hd |].
      split; [apply Hz; lia |].
      unfold digits_value. cbn [fold_left]. rewrite Hv. lia.
    + assert (Hdiv : 0 < n / 10 < 2 ^ Z.of_nat fuel).
      { split; [apply Z.div_str_pos; lia |].
        apply Z.div_lt_upper_bound; [lia |].
        rewrite Nat2Z.inj_succ, Z.pow_succ_r in Hn by lia. lia. }
      destruct (IH (n / 10) (Z.to_N (48 + n mod 10) :: acc) Hdiv)
        as (c & ds & Heq & Hall & Hc & Hval).
      exists c, (ds ++ [Z.to_N (48 + n mod 10)]).
      split; [rewrite Heq; cbn [app]; now rewrite <- app_assoc |].
      split.
      { change (c :: ds ++ [Z.to_N (48 + n mod 10)])
          with ((c :: ds) ++ [Z.to_N (48 + n mod 10)]).
        rewrite forallb_app, Hall. cbn [forallb]. now rewrite Hd. }
      split; [exact Hc |].
      change (c :: ds ++ [Z.to_N (48 + n mod 10)])
        with ((c :: ds) ++ [Z.to_N (48 + n mod 10)]).
      rewrite digits_value_snoc, Hval, Hv.
      rewrite (Z.div_mod n 10) at 3 by lia. reflexivity.
Qed.

Lemma decimal_spec (n : Z) :
  0 < n ->
  exists c ds,
    decimal n = c :: ds /\
    forallb is_digit (c :: ds) = true /\
    is_char "0" c = false /\
    digits_value (c :: ds) = n.
Proof.
  intros Hn. unfold decimal.
  destruct (@to_digits_spec (S (Z.to_nat (Z.log2 n))) n [])
    as (c & ds & Heq & H).
  { split; [exact Hn |]. rewrite Nat2Z.inj_succ, Z2Nat.id by apply Z.log2_nonneg.
    apply Z.log2_spec. exact Hn. }
  exists c, ds. rewrite Heq, app_nil_r. split; [reflexivity | exact H].
Qed.

Lemma span_digits (ds rest : jsstring) :
  forallb is_digit ds = true ->
  match rest with [] => True | c :: _ => is_digit c = false end ->
  span is_digit (ds ++ rest) = (ds, rest).
Proof. apply span_all. Qed.

Lemma span_digits_all (ds : jsstring) :
  forallb is_digit ds = true -> span is_digit ds = (ds, []).
Proof.
  intros H. rewrite <- (app_nil_r ds) at 1. now apply span_digits.
Qed.

(** An integer literal whose first digit is not 0. *)
Lemma valid_integer_head (c : code_unit) (r : jsstring) :
  is_digit c = true -> is_char "0" c = false ->
  valid_integer (c :: r) = valid_fraction (snd (span is_digit r)).
Proof. intros Hd Hz. cbn [valid_integer]. now rewrite Hz, Hd. Qed.

Lemma digit_not_minus (c : code_unit) :
  is_digit c = true -> is_char "-" c = false.
Proof.
  unfold is_digit, is_char. intros H. apply andb_prop in H as [H1 H2].
  apply N.leb_le in H1. apply N.eqb_neq. cbn. lia.
Qed.

(** The exponent part that [format] writes. *)
Lemma exponent_text (x : Z) :
  x <> 0 ->
  let text := ch "e" :: (if x <? 0 then ch "-" else ch "+") :: decimal (Z.abs x) in
  valid_exponent text = true /\ exponent_value text = x.
Proof.
  intros Hx text. subst text.
  destruct (@decimal_spec (Z.abs x)) as (c & ds & Heq & Hall & _ & Hval); [lia |].
  rewrite Heq. destruct (Z.ltb_spec x 0) as [Hneg | Hpos].
  - split.
    + cbn [valid_exponent]. change (is_char "e" (ch "e")) with true.
      change (is_char "+" (ch "-") || is_char "-" (ch "-"))%bool with true.
      cbn [orb andb nonempty]. exact Hall.
    + cbn [exponent_value]. change (is_char "-" (ch "-")) with true.
      cbv iota. rewrite Hval. lia.
  - split.
    + cbn [valid_exponent]. change (is_char "e" (ch "e")) with true.
      change (is_char "+" (ch "+") || is_char "-" (ch "+"))%bool with true.
      cbn [orb andb nonempty]. exact Hall.
    + cbn [exponent_value]. change (is_char "-" (ch "+")) with false.
      change (is_char "+" (ch "+")) with true.
      cbv iota. rewrite Hval. lia.
Qed.

Lemma forallb_firstn (p : code_unit -> bool) (j : nat) (l : jsstring) :
  forallb p l = true -> forallb p (firstn j l) = true.
Proof.
  revert l. induction j as [| j IH]; intros [| x l] H; try reflexivity.
  cbn [firstn forallb] in *. apply andb_prop in H as [-> H]. now rewrite IH.
Qed.

Lemma forallb_skipn (p : code_unit -> bool) (j : nat) (l : jsstring) :
  forallb p l = true -> forallb p (skipn j l) = true.
Proof.
  revert l. induction j as [| j IH]; intros [| x l] H; try reflexivity;
    try exact H.
  cbn [skipn forallb] in *. apply andb_prop in H as [_ H]. now apply IH.
Qed.

Lemma nonempty_length (l : jsstring) : (0 < length l)%nat -> nonempty l = true.
Proof. destruct l; cbn; [lia | reflexivity]. Qed.

(** What [format] writes is a literal of the grammar, without a sign, whose
    value is s × 10^q. *)
Lemma format_reads (s q : Z) :
  0 < s ->
  exists c t,
    format s q = c :: t /\ is_char "-" c = false /\
    valid_integer (c :: t) = true /\
    (literal_value (c :: t) = (s, q) \/
     (0 <= q /\ literal_value (c :: t) = (s * 10 ^ q, 0))).
Proof.
  intros Hs. destruct (decimal_spec Hs) as (c & ds & Heq & Hall & Hc & Hval).
  pose proof Hall as Hall'. cbn [forallb] in Hall'.
  apply andb_prop in Hall' as [Hcd Hds].
  unfold format. rewrite Heq. cbv zeta.
  set (k := Z.of_nat (length (c :: ds))).
  assert (Hk : k = 1 + Z.of_nat (length ds)) by (unfold k; cbn [length]; lia).
  destruct ((k <=? k + q) && (k + q <=? 21))%bool eqn:H1.
  - (* the digits and zeros *)
    apply andb_prop in H1 as [H1a H1b]. apply Z.leb_le in H1a, H1b.
    replace (k + q - k) with q by lia.
    assert (Htail : forallb is_digit (ds ++ zeros q) = true)
      by (rewrite forallb_app, Hds, zeros_digits; reflexivity).
    exists c, (ds ++ zeros q). split; [reflexivity |].
    split; [now apply digit_not_minus |]. split.
    + rewrite valid_integer_head by assumption.
      rewrite (span_digits_all _ Htail). reflexivity.
    + right. split; [lia |]. unfold literal_value.
      rewrite (span_digits_all (c :: ds ++ zeros q))
        by (cbn [forallb]; now rewrite Hcd, Htail).
      rewrite app_nil_r. f_equal.
      change (c :: ds ++ zeros q) with ((c :: ds) ++ zeros q).
      rewrite digits_value_app, Hval. unfold zeros.
      rewrite fold_zeros, Z2Nat.id by lia. reflexivity.
  - destruct ((0 <? k + q) && (k + q <=? 21))%bool eqn:H2.
    + (* a dot among the digits *)
      apply andb_prop in H2 as [H2a H2b]. apply Z.ltb_lt in H2a.
      apply Z.leb_le in H2b.
      assert (Hlt : k + q < k).
      { apply andb_false_iff in H1 as [H1 | H1];
          [apply Z.leb_gt in H1 | apply Z.leb_gt in H1]; lia. }
      set (j := Z.to_nat (k + q - 1)).
      replace (Z.to_nat (k + q)) with (S j) by (unfold j; lia).
      cbn [firstn skipn app].
      assert (Hj : (j < length ds)%nat) by (unfold j; lia).
      assert (Hint : forallb is_digit (firstn j ds) = true)
        by now apply forallb_firstn.
      assert (Hfrac : forallb is_digit (skipn j ds) = true)
        by now apply forallb_skipn.
      assert (Hlen : (0 < length (skipn j ds))%nat)
        by (rewrite length_skipn; lia).
      exists c, (firstn j ds ++ ch "." :: skipn j ds).
      split; [reflexivity |]. split; [now apply digit_not_minus |]. split.
      * rewrite valid_integer_head by assumption.
        rewrite (span_digits _ (ch "." :: skipn j ds) Hint) by reflexivity.
        cbn [snd valid_fraction]. change (is_char "." (ch ".")) with true.
        cbv iota. rewrite (span_digits_all _ Hfrac).
        rewrite (nonempty_length _ Hlen). reflexivity.
      * left. unfold literal_value.
        change (c :: firstn j ds ++ ch "." :: skipn j ds)
          with ((c :: firstn j ds) ++ ch "." :: skipn j ds).
        rewrite (span_digits (c :: firstn j ds) (ch "." :: skipn j ds))
          by (cbn [forallb]; now rewrite ?Hcd, ?Hint).
        change (is_char "." (ch ".")) with true. cbv iota.
        rewrite (span_digits_all _ Hfrac). f_equal.
        -- cbn [app]. rewrite firstn_skipn. exact Hval.
        -- rewrite length_skipn. cbn [exponent_value]. unfold j. lia.
    + destruct ((-6 <? k + q) && (k + q <=? 0))%bool eqn:H3.
      * (* zeros before the digits *)
        apply andb_prop in H3 as [H3a H3b]. apply Z.ltb_lt in H3a.
        apply Z.leb_le in H3b.
        assert (Hfrac : forallb is_digit (zeros (- (k + q)) ++ c :: ds) = true)
          by (rewrite forallb_app, zeros_digits, Hall; reflexivity).
        exists (ch "0"), (ch "." :: zeros (- (k + q)) ++ c :: ds).
        split; [reflexivity |]. split; [reflexivity |]. split.
        -- cbn [valid_integer]. change (is_char "0" (ch "0")) with true.
           cbv iota. cbn [valid_fraction].
           change (is_char "." (ch ".")) with true. cbv iota.
           rewrite (span_digits_all _ Hfrac).
           rewrite nonempty_length; [reflexivity |].
           rewrite length_app. cbn [length]. lia.
        -- left. unfold literal_value.
           change (ch "0" :: ch "." :: zeros (- (k + q)) ++ c :: ds)
             with ([ch "0"] ++ ch "." :: zeros (- (k + q)) ++ c :: ds).
           rewrite (span_digits [ch "0"]
                      (ch "." :: zeros (- (k + q)) ++ c :: ds))
             by reflexivity.
           change (is_char "." (ch ".")) with true. cbv iota.
           rewrite (span_digits_all _ Hfrac). f_equal.
           ++ rewrite app_assoc, digits_value_app.
              change ([ch "0"] ++ zeros (- (k + q)))
                with (repeat (ch "0") (S (Z.to_nat (- (k + q))))).
              unfold digits_value at 1. rewrite fold_zeros.
              rewrite Z.mul_0_l. exact Hval.
           ++ rewrite length_app, Nat2Z.inj_add, zeros_length by lia.
              cbn [exponent_value]. fold k. lia.
      * (* an exponent *)
        assert (Hn : k + q - 1 <> 0).
        { apply andb_false_iff in H2 as [H2 | H2];
            apply andb_false_iff in H3 as [H3 | H3];
            rewrite ?Z.ltb_ge, ?Z.leb_gt in *; lia. }
        destruct (exponent_text Hn) as [Hve Hev]. cbv zeta in Hve, Hev.
        set (ex := ch "e" :: (if k + q - 1 <? 0 then ch "-" else ch "+")
                           :: decimal (Z.abs (k + q - 1))) in *.
        destruct ds as [| d ds'].
        -- exists c, ex. split; [reflexivity |].
           split; [now apply digit_not_minus |]. split.
           ++ rewrite valid_integer_head by assumption.
              unfold ex at 1. cbn [span].
              change (is_digit (ch "e")) with false. cbv iota. cbn [snd].
              fold ex. unfold valid_fraction. unfold ex at 1.
              change (is_char "." (ch "e")) with false. cbv iota.
              fold ex. exact Hve.
           ++ left. unfold literal_value.
              change (c :: ex) with ([c] ++ ex).
              rewrite (span_digits [c] ex) by (cbn [forallb]; now rewrite ?Hcd).
              unfold ex at 1. change (is_char "." (ch "e")) with false.
              cbv iota. fold ex. rewrite app_nil_r. f_equal.
              ** exact Hval.
              ** rewrite Hev. cbn [length] in *. lia.
        -- exists c, (ch "." :: (d :: ds') ++ ex). split; [reflexivity |].
           split; [now apply digit_not_minus |]. split.
           ++ rewrite valid_integer_head by assumption.
              cbn [span]. change (is_digit (ch ".")) with false. cbv iota.
              cbn [snd valid_fraction]. change (is_char "." (ch ".")) with true.
              cbv iota. rewrite (span_digits (d :: ds') ex Hds) by reflexivity.
              cbn [nonempty andb]. exact Hve.
           ++ left. unfold literal_value.
              change (c :: ch "." :: (d :: ds') ++ ex)
                with ([c] ++ ch "." :: (d :: ds') ++ ex).
              rewrite (span_digits [c] (ch "." :: (d :: ds') ++ ex))
                by (cbn [forallb]; now rewrite ?Hcd).
              change (is_char "." (ch ".")) with true. cbv iota.
              rewrite (span_digits (d :: ds') ex Hds) by reflexivity.
              f_equal.
              ** exact Hval.
              ** rewrite Hev. cbn [length] in *. lia.
Qed.

Lemma of_decimal_zeros (negative : bool) (s q : Z) :
  0 <= q -> of_decimal negative (s * 10 ^ q) 0 = of_decimal negative s q.
Proof.
  intros Hq. unfold of_decimal, round_decimal.
  assert (H10 : 0 < 10 ^ q) by (apply Z.pow_pos_nonneg; lia).
  change (Z.max 0 0) with 0. change (Z.max 0 (- 0)) with 0.
  replace (Z.max 0 q) with q by lia. replace (Z.max 0 (- q)) with 0 by lia.
  change (10 ^ 0) with 1. rewrite Z.mul_1_r.
  destruct (Z.eqb_spec s 0) as [-> | Hs].
  - reflexivity.
  - destruct (Z.eqb_spec (s * 10 ^ q) 0) as [H0 | _]; [nia | reflexivity].
Qed.

(** The text of a number that JSON carries is a literal of the grammar. *)
Lemma number_text_valid (n : number) :
  json_number n = true -> valid_number (number_text n) = true.
Proof.
  destruct n as [[|] | negative m e | negative]; try discriminate;
    [reflexivity |].
  cbn [json_number number_text toString]. intros Hm.
  destruct (shortest_reads _ _ Hm) as (s & q & -> & Hs & _).
  destruct (format_reads q Hs) as (c & t & -> & Hminus & Hvalid & _).
  destruct negative; cbn [app valid_number].
  - change (is_char "-" (ch "-")) with true. cbv iota. exact Hvalid.
  - rewrite Hminus. exact Hvalid.
Qed.

(** The text of a number that JSON carries is read back as that number. *)
Lemma number_text_reads_back (n : number) :
  json_number n = true -> ToNumber (number_text n) = n.
Proof.
  destruct n as [[|] | negative m e | negative]; try discriminate;
    [reflexivity |].
  cbn [json_number number_text toString]. intros Hm.
  destruct (shortest_reads _ _ Hm) as (s & q & -> & Hs & Hround).
  destruct (format_reads q Hs) as (c & t & -> & Hminus & _ & Hvalue).
  assert (Hof : forall negative, of_decimal negative s q = Finite negative m e).
  { intros neg. unfold of_decimal. rewrite Hround.
    destruct (Z.eqb_spec s 0); [lia | reflexivity]. }
  assert (Hlit : forall negative,
             of_decimal negative (fst (literal_value (c :: t)))
               (snd (literal_value (c :: t))) = Finite negative m e).
  { intros neg. destruct Hvalue as [-> | [Hq ->]]; cbn [fst snd].
    - apply Hof.
    - rewrite of_decimal_zeros by exact Hq. apply Hof. }
  destruct negative; cbn [app ToNumber].
  - change (is_char "-" (ch "-")) with true. cbv iota. apply Hlit.
  - rewrite Hminus. apply Hlit.
Qed.

End Binary64Facts.


Lemma parse_number_literal (n rest : jsstring) :
  valid_number n = true -> delimited rest ->
  parse_number (n ++ rest) = Ok (JNum (Binary64.ToNumber n)) rest.
Proof.
  intros Hn Hrest. unfold parse_number.
  rewrite (span_all is_number_char n rest (proj1 (valid_number_chars _ Hn)) Hrest).
  now rewrite Hn.
Qed.
(** *** Objects with distinct keys are rebuilt as written *)

Lemma distinct_NoDup (keys : list jsstring) : distinct keys = true -> NoDup keys.
Proof.
  induction keys as [| k keys IH]; cbn; [constructor |].
  intros H. apply andb_prop in H as [Hk Hd]. constructor; [| now apply IH].
  intros Hin. apply negb_true_iff in Hk.
  assert (existsb (str_eqb k) keys = true) as Hex.
  { apply existsb_exists. exists k. split; [exact Hin | apply str_eqb_refl]. }
  congruence.
Qed.

Lemma set_property_fresh (k : jsstring) (v : json) (o : list (jsstring * json)) :
  ~ In k (map fst o) -> set_property k v o = o ++ [(k, v)].
Proof.
  induction o as [| [k' v'] o IH]; cbn; [reflexivity |].
  intros Hnotin. destruct (str_eqb k k') eqn:Hk.
  - apply str_eqb_eq in Hk. subst k'. exfalso. apply Hnotin. now left.
  - rewrite IH; [reflexivity |]. intros Hin. apply Hnotin. now right.
Qed.

Lemma fold_set_property (ms o : list (jsstring * json)) :
  NoDup (map fst (o ++ ms)) ->
  fold_left (fun o kv => set_property (fst kv) (snd kv) o) ms o = o ++ ms.
Proof.
  revert o. induction ms as [| [k v] ms IH]; intros o Hnd; cbn [fold_left fst snd].
  - now rewrite app_nil_r.
  - rewrite set_property_fresh.
    + rewrite IH; rewrite <- app_assoc; [reflexivity | exact Hnd].
    + rewrite map_app in Hnd. cbn [map fst] in Hnd.
      apply NoDup_remove_2 in Hnd. intros Hin. apply Hnd.
      apply in_or_app. now left.
Qed.

Lemma object_of_distinct (ms : list (jsstring * json)) :
  distinct (map fst ms) = true -> object_of ms = JObj ms.
Proof.
  intros H. unfold object_of. f_equal.
  apply (fold_set_property ms []). now apply distinct_NoDup.
Qed.

(** *** Values *)

(** Induction on values, with the hypothesis for every item and member. *)
Lemma json_induction (P : json -> Prop)
    (Hnull : P JNull) (Hbool : forall b, P (JBool b))
    (Hnum : forall n, P (JNum n)) (Hstr : forall s, P (JStr s))
    (Harr : forall items, Forall P items -> P (JArr items))
    (Hobj : forall members, Forall (fun kv => P (snd kv)) members -> P (JObj members))
  : forall v, P v.
Proof.
  fix go 1. intros [| b | n | s | items | members].
  - exact Hnull.
  - apply Hbool.
  - apply Hnum.
  - apply Hstr.
  - apply Harr. induction items as [| x items IH]; constructor.
    + apply go.
    + exact IH.
  - apply Hobj. induction members as [| [k x] members IH]; constructor.
    + apply go.
    + exact IH.
Qed.

Lemma stringify_array (x : json) (items : list json) :
  stringify (JArr (x :: items)) = 91 :: stringify x ++ stringify_elements items.
Proof. reflexivity. Qed.

Lemma stringify_object (k : jsstring) (x : json) (ms : list (jsstring * json)) :
  stringify (JObj ((k, x) :: ms))
  = 123 :: 34 :: quote_chars k ++ 58 :: stringify x ++ stringify_properties ms.
Proof. reflexivity. Qed.

Lemma parse_value_string (fuel : nat) (s : jsstring) :
  parse_value (S fuel) (34 :: s)
  = match parse_chars s with
    | Ok str rest => Ok (JStr str) rest
    | SyntaxError => SyntaxError
    | OutOfFuel => OutOfFuel
    end.
Proof. reflexivity. Qed.

Lemma parse_value_array (fuel : nat) (s : jsstring) :
  parse_value (S fuel) (91 :: s)
  = match skip_ws s with
    | d :: s'' =>
        if is_char "]" d then Ok (JArr []) s''
        else match parse_elements fuel (skip_ws s) with
             | Ok vs rest => Ok (JArr vs) rest
             | SyntaxError => SyntaxError
             | OutOfFuel => OutOfFuel
             end
    | [] => SyntaxError
    end.
Proof. reflexivity. Qed.

Lemma parse_value_object (fuel : nat) (s : jsstring) :
  parse_value (S fuel) (123 :: s)
  = match skip_ws s with
    | d :: s'' =>
        if is_char "}" d then Ok (JObj []) s''
        else match parse_members fuel (skip_ws s) with
             | Ok ms rest => Ok (object_of ms) rest
             | SyntaxError => SyntaxError
             | OutOfFuel => OutOfFuel
             end
    | [] => SyntaxError
    end.
Proof. reflexivity. Qed.

Lemma number_head_cases (c : code_unit) :
  is_char "-" c || is_digit c = true ->
  c = 45 \/ c = 48 \/ c = 49 \/ c = 50 \/ c = 51 \/ c = 52 \/ c = 53
  \/ c = 54 \/ c = 55 \/ c = 56 \/ c = 57.
Proof.
  intros H. apply orb_prop in H as [H | H].
  - left. now apply N.eqb_eq in H.
  - apply andb_prop in H as [H1 H2]. apply N.leb_le in H1, H2. lia.
Qed.

Lemma parse_value_number (fuel : nat) (c : code_unit) (s : jsstring) :
  is_char "-" c || is_digit c = true ->
  parse_value (S fuel) (c :: s) = parse_number (c :: s).
Proof.
  intros H. apply number_head_cases in H.
  repeat (destruct H as [-> | H]; [reflexivity |]). subst c. reflexivity.
Qed.

(** The first character of a value's text is no white space and closes no
    array. *)
Lemma stringify_head (v : json) :
  wf v = true ->
  exists c t, stringify v = c :: t /\ is_ws c = false /\ is_char "]" c = false.
Proof.
  destruct v as [| [|] | n | s | [| x items] | [| [k x] ms]]; intros Hwf;
    try (eexists; eexists; split; [reflexivity | split; reflexivity]).
  cbn [stringify]. cbn [wf] in Hwf.
  destruct (valid_number_chars _ (number_text_valid _ Hwf))
    as (_ & c & n' & -> & Hc).
  exists c, n'. split; [reflexivity |].
  apply number_head_cases in Hc.
  repeat (destruct Hc as [-> | Hc]; [split; reflexivity |]). subst c.
  split; reflexivity.
Qed.
Lemma stringify_elements_cons (y : json) (l : list json) (rest : jsstring) :
  stringify_elements (y :: l) ++ rest
  = 44 :: stringify y ++ stringify_elements l ++ rest.
Proof. cbn [stringify_elements app]. now rewrite <- app_assoc. Qed.

Lemma stringify_properties_cons (k : jsstring) (y : json)
    (l : list (jsstring * json)) (rest : jsstring) :
  stringify_properties ((k, y) :: l) ++ rest
  = 44 :: 34 :: quote_chars k ++ 58 :: stringify y ++ stringify_properties l ++ rest.
Proof.
  cbn [stringify_properties app]. unfold quote. cbn [app].
  rewrite <- app_assoc. cbn [app]. now rewrite <- app_assoc.
Qed.

Ltac list_lengths :=
  repeat (progress (cbn [length] in *; rewrite ?length_app in * ));
  lia.

Lemma skip_ws_head (c : code_unit) (s : jsstring) :
  is_ws c = false -> skip_ws (c :: s) = c :: s.
Proof. intros H. cbn. now rewrite H. Qed.

Lemma elements_delimited (items : list json) (rest : jsstring) :
  delimited (stringify_elements items ++ rest).
Proof. destruct items; reflexivity. Qed.

Lemma properties_delimited (ms : list (jsstring * json)) (rest : jsstring) :
  delimited (stringify_properties ms ++ rest).
Proof. destruct ms as [| [k x] ms]; reflexivity. Qed.

Lemma elements_read_back (items : list json) :
  Forall reads_back items -> forallb wf items = true ->
  forall x, reads_back x -> wf x = true ->
  forall (fuel : nat) (rest : jsstring),
    (2 * length (stringify x ++ stringify_elements items ++ rest) + 1 < fuel)%nat ->
    parse_elements fuel (stringify x ++ stringify_elements items ++ rest)
    = Ok (x :: items) rest.
Proof.
  induction items as [| y items IH]; intros Hall Hwf x Hx Hwx fuel rest Hfuel;
    (destruct fuel as [| fuel]; [lia |]); cbn [parse_elements].
  - rewrite (Hx Hwx) by (try apply elements_delimited; lia).
    reflexivity.
  - rewrite (Hx Hwx) by (try apply elements_delimited; lia).
    rewrite stringify_elements_cons in *.
    rewrite skip_ws_head by reflexivity.
    change (is_char "," 44) with true. cbv iota.
    cbn [forallb] in Hwf. apply andb_prop in Hwf as [Hwy Hwf].
    inversion Hall as [| ? ? Hy Hall']; subst.
    rewrite (IH Hall' Hwf y Hy Hwy); [reflexivity |].
    rewrite length_app in Hfuel. cbn [length] in Hfuel. lia.
Qed.

Lemma members_read_back (ms : list (jsstring * json)) :
  Forall (fun kv => reads_back (snd kv)) ms ->
  forallb (fun kv => wf (snd kv)) ms = true ->
  forall k x, reads_back x -> wf x = true ->
  forall (fuel : nat) (rest : jsstring),
    (2 * length (34%N :: quote_chars k ++ 58%N :: stringify x
                 ++ stringify_properties ms ++ rest) + 1 < fuel)%nat ->
    parse_members fuel (34 :: quote_chars k ++ 58 :: stringify x
                        ++ stringify_properties ms ++ rest)
    = Ok ((k, x) :: ms) rest.
Proof.
  induction ms as [| [k' y] ms IH]; intros Hall Hwf k x Hx Hwx fuel rest Hfuel;
    (destruct fuel as [| fuel]; [lia |]); cbn [parse_members];
    rewrite skip_ws_head by reflexivity;
    change (N.eqb 34 34) with true; cbv iota;
    rewrite parse_chars_quote_chars;
    rewrite skip_ws_head by reflexivity;
    change (is_char ":" 58) with true; cbv iota;
    cbn [length] in Hfuel; rewrite length_app in Hfuel; cbn [length] in Hfuel.
  - rewrite (Hx Hwx) by (try apply properties_delimited; lia).
    reflexivity.
  - rewrite (Hx Hwx) by (try apply properties_delimited; lia).
    rewrite stringify_properties_cons.
    rewrite skip_ws_head by reflexivity.
    change (is_char "," 44) with true. cbv iota.
    cbn [forallb snd] in Hwf. apply andb_prop in Hwf as [Hwy Hwf].
    inversion Hall as [| ? ? Hy Hall']; subst. cbn [snd] in Hy.
    rewrite (IH Hall' Hwf k' y Hy Hwy); [reflexivity |].
    rewrite stringify_properties_cons in Hfuel. clear IH. list_lengths.
Qed.

(** [parse_value] reads back the text of every well-formed value, whatever
    follows it. *)
Lemma parse_value_stringify (v : json) : reads_back v.
Proof.
  induction v as [| [|] | n | s | items IH | ms IH] using json_induction;
    intros Hwf fuel rest Hfuel Hrest;
    (destruct fuel as [| fuel]; [lia |]).
  - reflexivity.
  - reflexivity.
  - reflexivity.
  - cbn [wf] in Hwf. cbn [stringify].
    pose proof (number_text_valid _ Hwf) as Hvalid.
    pose proof (number_text_reads_back _ Hwf) as Hback.
    destruct (valid_number_chars _ Hvalid) as (_ & c & n' & Htext & Hc).
    rewrite Htext in *.
    cbn [app]. rewrite parse_value_number by exact Hc.
    rewrite <- Hback.
    exact (parse_number_literal (c :: n') rest Hvalid Hrest).
  - cbn [stringify]. unfold quote. cbn [app].
    now rewrite parse_value_string, parse_chars_quote_chars.
  - destruct items as [| x items]; [reflexivity |].
    rewrite stringify_array in *. cbn [app]. rewrite parse_value_array.
    cbn [wf forallb] in Hwf. apply andb_prop in Hwf as [Hwx Hwf].
    inversion IH as [| ? ? Hx IH']; subst.
    destruct (stringify_head x Hwx) as (c & t & Hhead & Hws & Hclose).
    rewrite <- app_assoc.
    assert (Hskip : skip_ws (stringify x ++ stringify_elements items ++ rest)
                    = stringify x ++ stringify_elements items ++ rest).
    { rewrite Hhead. cbn [app]. now apply skip_ws_head. }
    rewrite Hskip. rewrite Hhead at 1. cbn [app]. rewrite Hclose.
    rewrite (@elements_read_back items IH' Hwf x Hx Hwx); [reflexivity |].
    clear IH IH' Hskip. list_lengths.
  - destruct ms as [| [k x] ms]; [reflexivity |].
    rewrite stringify_object in *. cbn [app]. rewrite parse_value_object.
    cbn [wf map fst forallb snd] in Hwf.
    apply andb_prop in Hwf as [Hdistinct Hwf].
    apply andb_prop in Hwf as [Hwx Hwf].
    inversion IH as [| ? ? Hx IH']; subst. cbn [snd] in Hx.
    rewrite skip_ws_head by reflexivity.
    change (is_char "}" 34) with false. cbv iota.
    assert (Hshape : (quote_chars k ++ 58 :: stringify x ++ stringify_properties ms) ++ rest
                     = quote_chars k ++ 58 :: stringify x
                       ++ stringify_properties ms ++ rest).
    { rewrite <- app_assoc. cbn [app]. now rewrite <- app_assoc. }
    rewrite Hshape in *.
    rewrite (@members_read_back ms IH' Hwf k x Hx Hwx).
    + now rewrite (object_of_distinct ((k, x) :: ms)).
    + clear IH IH'. list_lengths.
Qed.

(** [JSON.parse(JSON.stringify(v))] is [v]. *)
Lemma parse_stringify (v : json) : wf v = true -> parse (stringify v) = Normal v.
Proof.
  intros Hwf. unfold parse, parse_text.
  pose proof (@parse_value_stringify v Hwf (enough_fuel (stringify v)) []) as H.
  rewrite app_nil_r in H. rewrite H; [reflexivity | | exact I].
  unfold enough_fuel. lia.
Qed.

Lemma stringify_truthy (v : json) :
  wf v = true -> truthy_str (Some (stringify v)) = true.
Proof.
  intros Hwf. destruct (stringify_head v Hwf) as (c & t & -> & _). reflexivity.
Qed.

(** A few texts, run. *)
Example parse_array_text :
  parse (lit "[1, 2.5e-3 , true,null]")
  = Normal (JArr [JNum (Finite false 4503599627370496 (-52));
                  JNum (Finite false 5764607523034235 (-61));
                  JBool true; JNull]).
Proof. vm_compute. reflexivity. Qed.

(** Numbers as the runtime reads and writes them: a literal too small is
    zero, one too large is infinite and is written as null, negative zero
    is written as 0, and a number is written with its fewest digits. *)
Example parse_numbers :
  parse (lit "[1e-400, 1e999, -0, 4.70, 0.1e1, 1E21]")
  = Normal (JArr [JNum (Zero false); JNum (Infinity false); JNum (Zero true);
                  JNum (Finite false 5291729562160333 (-50));
                  JNum (Finite false 4503599627370496 (-52));
                  JNum (Finite false 7629394531250000 17)]).
Proof. vm_compute. reflexivity. Qed.

Example stringify_numbers :
  stringify (JArr [JNum (Zero true); JNum (Infinity false);
                   JNum (Finite false 5291729562160333 (-50));
                   JNum (Finite true 7205759403792794 (-56));
                   JNum (Finite false 7629394531250000 17);
                   JNum (Finite false 1 (-1074))])
  = lit "[0,null,4.7,-0.1,1e+21,5e-324]".
Proof. vm_compute. reflexivity. Qed.

Example truthy_after_parse :
  match parse (lit "1e-400"), parse (lit "0.0") , parse (lit "5e-324") with
  | Normal a, Normal b, Normal c => (truthy a, truthy b, truthy c)
  | _, _, _ => (true, true, false)
  end = (false, false, true).
Proof. vm_compute. reflexivity. Qed.

Example parse_trailing_comma : parse (lit "[1,]") = Throw Unexpected.
Proof. vm_compute. reflexivity. Qed.

Example parse_leading_zero : parse (lit "01") = Throw Unexpected.
Proof. vm_compute. reflexivity. Qed.

Example parse_empty_text : parse [] = Throw Unexpected.
Proof. vm_compute. reflexivity. Qed.

Example parse_object_texts :
  parse (stringify (JObj [(lit "a", JNum (Finite false 4503599627370496 (-52)));
                          (lit "b", JNull)])
         ++ lit " ")
  = Normal (JObj [(lit "a", JNum (Finite false 4503599627370496 (-52)));
                  (lit "b", JNull)])
  /\ parse (lit "{" ++ quote (lit "a") ++ lit ":1," ++ quote (lit "a") ++ lit ":2}")
     = Normal (JObj [(lit "a", JNum (Finite false 4503599627370496 (-51)))]).
Proof. split; vm_compute; reflexivity. Qed.

Example stringify_escapes :
  stringify (JStr [10; 55357; 65]) = [34] ++ lit "\n\ud83dA" ++ [34].
Proof. vm_compute. reflexivity. Qed.

End JsonFacts.

(** ** The results views *)

Lemma getItem_setItem (store : Browser.Storage) (key value : jsstring) :
  Browser.getItem (Browser.setItem store key value) key = Some value.
Proof. unfold Browser.setItem. cbn [Browser.getItem]. now rewrite str_eqb_refl. Qed.

Lemma value_of_wf (r : TripRecommendation) :
  valid_recommendation r = true -> JSON.wf (value_of r) = true.
Proof.
  unfold valid_recommendation, slots. cbn [map List.concat].
  rewrite !forallb_app, !andb_true_iff.
  intros (H1 & H2 & H3 & H4 & H5 & H6 & _).
  unfold value_of, day_value, slot_value.
  cbn [JSON.wf forallb snd map fst].
  unfold Place in *. rewrite H1, H2, H3, H4, H5, H6. reflexivity.
Qed.

Lemma value_of_injective (r1 r2 : TripRecommendation) :
  value_of r1 = value_of r2 -> r1 = r2.
Proof.
  destruct r1 as [c1 [[t1 d1 p1] [t2 d2 p2] [t3 d3 p3]]
                     [[t4 d4 p4] [t5 d5 p5] [t6 d6 p6]]].
  destruct r2 as [c1' [[t1' d1' p1'] [t2' d2' p2'] [t3' d3' p3']]
                      [[t4' d4' p4'] [t5' d5' p5'] [t6' d6' p6']]].
  unfold value_of, day_value, slot_value.
  cbn [city day1 day2 morning afternoon evening title description places].
  intros H. injection H. intros. subst. reflexivity.
Qed.

(** C8. When the stored recommendation is absent, or is a text that is not
    JSON, the effect of either results view completes without throwing and
    leaves an error message in the state, and the view renders the error
    screen whose button leads back to the start page. *)
Theorem C8_absent_or_invalid_shows_error (localStorage : Browser.Storage) :
  Browser.getItem localStorage (lit "tripRecommendations") = None \/
  (exists text,
     Browser.getItem localStorage (lit "tripRecommendations") = Some text /\
     JSON.parse text = Throw JSON.Unexpected) ->
  (exists st message,
     Results.useEffect_load localStorage Results.initial = Normal st /\
     Results.error st = Some message /\
     Results.render st
     = Results.ErrorScreen message (lit "Plan New Trip") (lit "/")) /\
  (exists st message,
     ResultsSplit.useEffect_load localStorage ResultsSplit.initial = Normal st /\
     ResultsSplit.error st = Some message /\
     ResultsSplit.render st
     = ResultsSplit.ErrorScreen message (lit "Plan New Trip") (lit "/")).
Proof.
  intros H. unfold Results.useEffect_load, ResultsSplit.useEffect_load.
  destruct H as [-> | (text & -> & Hparse)].
  - cbn [truthy_str]. split; eexists; eexists; repeat split.
  - destruct text as [| c text]; cbn [truthy_str].
    + split; eexists; eexists; repeat split.
    + rewrite Hparse. cbn [bind catch].
      split; eexists; eexists; repeat split.
Qed.

Lemma C8_absent_or_invalid_shows_error_witness :
  (exists st message,
     Results.useEffect_load [(lit "tripRecommendations", lit "{oops")] Results.initial
     = Normal st /\
     Results.error st = Some message /\
     Results.render st
     = Results.ErrorScreen message (lit "Plan New Trip") (lit "/")) /\
  (exists st message,
     ResultsSplit.useEffect_load [(lit "tripRecommendations", lit "{oops")]
       ResultsSplit.initial
     = Normal st /\
     ResultsSplit.error st = Some message /\
     ResultsSplit.render st
     = ResultsSplit.ErrorScreen message (lit "Plan New Trip") (lit "/")).
Proof.
  apply (@C8_absent_or_invalid_shows_error [(lit "tripRecommendations", lit "{oops")]).
  right. exists (lit "{oops"). split; reflexivity.
Defined.

(** Whatever is stored, the effect itself never throws. *)
Lemma useEffect_load_completes (localStorage : Browser.Storage) :
  (exists st, Results.useEffect_load localStorage Results.initial = Normal st) /\
  (exists st, ResultsSplit.useEffect_load localStorage ResultsSplit.initial = Normal st).
Proof.
  unfold Results.useEffect_load, ResultsSplit.useEffect_load.
  destruct (truthy_str _); [| split; eexists; reflexivity].
  destruct (JSON.parse _); cbn [bind catch]; split; eexists; reflexivity.
Qed.

(** The two messages. *)
Example nothing_stored :
  option_map Results.render (match Results.useEffect_load [] Results.initial with
                             | Normal st => Some st
                             | Throw _ => None
                             end)
  = Some (Results.ErrorScreen (lit "No trip recommendations found")
            (lit "Plan New Trip") (lit "/")).
Proof. reflexivity. Qed.

Example broken_text_stored :
  option_map Results.render
    (match Results.useEffect_load [(lit "tripRecommendations", lit "{oops")]
             Results.initial with
     | Normal st => Some st
     | Throw _ => None
     end)
  = Some (Results.ErrorScreen (lit "Failed to load trip recommendations")
            (lit "Plan New Trip") (lit "/")).
Proof. vm_compute. reflexivity. Qed.

(** C9. A structurally valid recommendation that is serialized into client
    storage under the fixed key is read back by either results view as the
    identical object, every field included, and no error is set.
    Structurally valid: the places are values that JSON text carries, that
    is, their numbers are finite binary64 values other than negative zero
    and no object has a key twice.  A number is written with the fewest
    digits that are read back as it and is read back by rounding to the
    nearest binary64 value. *)
Theorem C9_persist_then_load (localStorage : Browser.Storage)
    (r : TripRecommendation) :
  valid_recommendation r = true ->
  let stored := Home.persistRecommendation localStorage (value_of r) in
  JSON.parse (JSON.stringify (value_of r)) = Normal (value_of r) /\
  Results.useEffect_load stored Results.initial
  = Normal {| Results.recommendation := value_of r; Results.error := None |} /\
  ResultsSplit.useEffect_load stored ResultsSplit.initial
  = Normal {| ResultsSplit.recommendation := value_of r;
              ResultsSplit.error := None |}.
Proof.
  intros Hvalid stored. apply value_of_wf in Hvalid.
  pose proof (parse_stringify _ Hvalid) as Hround.
  pose proof (stringify_truthy _ Hvalid) as Htruthy.
  split; [exact Hround |].
  unfold Results.useEffect_load, ResultsSplit.useEffect_load.
  subst stored. unfold Home.persistRecommendation.
  rewrite getItem_setItem, Htruthy, Hround. split; reflexivity.
Qed.

Lemma C9_persist_then_load_witness :
  let r := recommendation (lit "Paris") rated_attractions paris_restaurants in
  let stored := Home.persistRecommendation [] (value_of r) in
  JSON.parse (JSON.stringify (value_of r)) = Normal (value_of r) /\
  Results.useEffect_load stored Results.initial
  = Normal {| Results.recommendation := value_of r; Results.error := None |} /\
  ResultsSplit.useEffect_load stored ResultsSplit.initial
  = Normal {| ResultsSplit.recommendation := value_of r;
              ResultsSplit.error := None |}.
Proof.
  apply (@C9_persist_then_load []
           (recommendation (lit "Paris") rated_attractions paris_restaurants)).
  vm_compute. reflexivity.
Defined.

(** The numbers of the rated places as they are stored. *)
Example rated_place_numbers_stored :
  map (fun p => match JSValue.read_opt (Some p) (lit "rating"),
                      JSValue.read_opt (Some p) (lit "userRatingCount") with
                | Some a, Some b => (JSON.stringify a, JSON.stringify b)
                | _, _ => ([], [])
                end) rated_attractions
  = [(lit "4.7", lit "310525"); (lit "4.35", lit "1e+21")].
Proof. vm_compute. reflexivity. Qed.

(** What JSON text does not carry: negative zero comes back as zero, and a
    number that is not finite as null.  A recommendation that holds one is
    not read back as it was. *)
Example negative_zero_is_not_kept :
  JSON.stringify (JNum (Zero true)) = lit "0" /\
  JSON.parse (JSON.stringify (JNum (Zero true))) = Normal (JNum (Zero false)).
Proof. split; vm_compute; reflexivity. Qed.

Example infinity_is_not_kept :
  JSON.stringify (JNum (Infinity false)) = lit "null" /\
  JSON.parse (JSON.stringify (JNum (Infinity false))) = Normal JNull.
Proof. split; vm_compute; reflexivity. Qed.

Example place_with_negative_zero :
  let place := JObj [(lit "id", JStr (lit "a1")); (lit "rating", JNum (Zero true))] in
  let r := recommendation (lit "Paris") [place] [] in
  valid_recommendation r = false /\
  JSON.parse (JSON.stringify (value_of r)) <> Normal (value_of r).
Proof. split; [reflexivity |]. vm_compute. discriminate. Qed.

(* ===================================================================== *)
(** * Part III: further properties of the code                            *)
(* ===================================================================== *)

(** ** The places gateway *)

Import BackendRequests.

Lemma searchPlaces_unfold (env : Env) (axios_post : Upstream)
    (city_ type_ : jsstring) :
  searchPlaces env axios_post city_ type_
  = if truthy_str (GOOGLE_PLACES_API_KEY env)
    then match axios_post (places_request env city_ type_) with
         | Normal data => {| status := 200; body := BodyRaw data |}
         | Throw e =>
             {| status := 500;
                body := BodyError (lit "Failed to fetch places") (details_of e) |}
         end
    else {| status := 500;
            body := BodyError (lit "Failed to fetch places")
                      (DetailsError
                         (Error_ (lit "Google Places API key is not configured"))) |}.
Proof.
  unfold searchPlaces, places_request.
  destruct (truthy_str (GOOGLE_PLACES_API_KEY env)); cbn [negb bind try_catch];
    [| reflexivity].
  match goal with
  | |- context [axios_post ?r] => destruct (axios_post r)
  end; reflexivity.
Qed.


(** X2. Without a credential the two search endpoints answer before any
    upstream call: their response is the same whatever the upstream would
    do. *)
Theorem X2_no_credential_no_upstream_call (env : Env) (up1 up2 : Upstream)
    (req : CitySearchRequest) (city_ type_ : jsstring) :
  truthy_str (GOOGLE_PLACES_API_KEY env) = false ->
  searchCities env up1 req = searchCities env up2 req /\
  searchPlaces env up1 city_ type_ = searchPlaces env up2 city_ type_ /\
  status (searchCities env up1 req) = 500%Z /\
  status (searchPlaces env up1 city_ type_) = 500%Z.
Proof.
  intros Hkey. rewrite !searchPlaces_unfold. unfold searchCities.
  rewrite Hkey. repeat split.
Qed.

Lemma X2_no_credential_no_upstream_call_witness :
  let env := {| GOOGLE_PLACES_API_KEY := Some [] |} in
  let up1 : Upstream := fun _ => Normal {| places_opt := Some paris_attractions |} in
  let up2 : Upstream := fun _ => Throw (AxiosError ResponseUndefined) in
  let req := {| cs_cityName := lit "Lyon" |} in
  searchCities env up1 req = searchCities env up2 req /\
  searchPlaces env up1 (lit "Lyon") (lit "museum")
  = searchPlaces env up2 (lit "Lyon") (lit "museum") /\
  status (searchCities env up1 req) = 500%Z /\
  status (searchPlaces env up1 (lit "Lyon") (lit "museum")) = 500%Z.
Proof.
  apply (@X2_no_credential_no_upstream_call
           {| GOOGLE_PLACES_API_KEY := Some [] |}
           (fun _ => Normal {| places_opt := Some paris_attractions |})
           (fun _ => Throw (AxiosError ResponseUndefined))
           {| cs_cityName := lit "Lyon" |} (lit "Lyon") (lit "museum")).
  reflexivity.
Defined.

(** X3. The recommend endpoint has no credential check and no partial
    answer.  When the attractions call rejects, the answer is status 500 with
    the envelope of that rejection, whatever the restaurants call would do;
    when only the restaurants call rejects, status 500 with its envelope;
    when both resolve, status 200 with the recommendation, also in an
    environment without a credential. *)
Theorem X3_recommendTrip_outcomes (env : Env) (axios_post : Upstream)
    (req : TripRecommendRequest) :
  let resp := fst (recommendTrip env axios_post req) in
  let failed := lit "Failed to generate recommendations" in
  (forall e,
     axios_post (attractions_request env (cityName req)) = Throw e ->
     resp = {| status := 500; body := BodyError failed (details_of e) |}) /\
  (forall da e,
     axios_post (attractions_request env (cityName req)) = Normal da ->
     axios_post (restaurants_request env (cityName req)) = Throw e ->
     resp = {| status := 500; body := BodyError failed (details_of e) |}) /\
  (forall da dr,
     axios_post (attractions_request env (cityName req)) = Normal da ->
     axios_post (restaurants_request env (cityName req)) = Normal dr ->
     resp = {| status := 200;
               body := BodyRecommendation
                         (recommendation (cityName req)
                            (places_or_empty da) (places_or_empty dr)) |}) /\
  hdr_ApiKey (attractions_request env (cityName req)) = GOOGLE_PLACES_API_KEY env /\
  hdr_ApiKey (restaurants_request env (cityName req)) = GOOGLE_PLACES_API_KEY env.
Proof.
  intros resp failed. subst resp failed. unfold recommendTrip.
  repeat split.
  - intros e ->. reflexivity.
  - intros da e -> . cbn [bind]. intros ->. reflexivity.
  - intros da dr ->. cbn [bind]. intros ->. reflexivity.
Qed.

(** A run without a credential: the upstream is asked all the same. *)
Example recommendTrip_without_credential :
  fst (recommendTrip {| GOOGLE_PLACES_API_KEY := None |}
         (paris_upstream paris_attractions paris_restaurants) paris_request)
  = {| status := 200;
       body := BodyRecommendation
                 (recommendation (lit "Paris") paris_attractions paris_restaurants) |}.
Proof. reflexivity. Qed.

(** X4. Upstream answers without a places field give a recommendation with
    six empty slots, not an error. *)
Theorem X4_no_places_field_empty_slots (env : Env) (axios_post : Upstream)
    (req : TripRecommendRequest) :
  axios_post (attractions_request env (cityName req)) = Normal {| places_opt := None |} ->
  axios_post (restaurants_request env (cityName req)) = Normal {| places_opt := None |} ->
  exists r : TripRecommendation,
    fst (recommendTrip env axios_post req)
    = {| status := 200; body := BodyRecommendation r |} /\
    city r = cityName req /\
    map places (slots r) = [[]; []; []; []; []; []].
Proof.
  intros Ha Hr. eexists. split.
  - exact (@recommendTrip_resolved env axios_post req _ _ Ha Hr).
  - split; reflexivity.
Qed.

Lemma X4_no_places_field_empty_slots_witness :
  exists r : TripRecommendation,
    fst (recommendTrip env_with_key (fun _ => Normal {| places_opt := None |})
           paris_request)
    = {| status := 200; body := BodyRecommendation r |} /\
    city r = cityName paris_request /\
    map places (slots r) = [[]; []; []; []; []; []].
Proof.
  apply (@X4_no_places_field_empty_slots env_with_key
           (fun _ => Normal {| places_opt := None |}) paris_request);
    reflexivity.
Defined.
Section PrefixFacts.
Context {A : Type}.

Lemma NoDup_firstn_of (n : nat) (l : list A) : NoDup l -> NoDup (firstn n l).
Proof.
  intros H. rewrite <- (firstn_skipn n l) in H.
  exact (NoDup_app_remove_r _ _ H).
Qed.

Lemma In_firstn_of (n : nat) (l : list A) (x : A) : In x (firstn n l) -> In x l.
Proof.
  intros H. rewrite <- (firstn_skipn n l). apply in_or_app. now left.
Qed.

End PrefixFacts.

Lemma attraction_slots_prefix (c : jsstring) (attractions restaurants : list Place) :
  let r := recommendation c attractions restaurants in
  places (morning (day1 r)) ++ places (afternoon (day1 r))
    ++ places (morning (day2 r)) ++ places (afternoon (day2 r))
  = firstn 8 attractions /\
  places (evening (day1 r)) ++ places (evening (day2 r)) = firstn 4 restaurants.
Proof.
  intros r.
  destruct (recommendation_windows c attractions restaurants)
    as (Hm1 & Ha1 & He1 & Hm2 & Ha2 & He2).
  fold r in Hm1, Ha1, He1, Hm2, Ha2, He2.
  rewrite Hm1, Ha1, He1, Hm2, Ha2, He2.
  change (skipn 0 attractions) with attractions.
  change (skipn 0 restaurants) with restaurants.
  pose proof (firstn_then_window 2 2 attractions) as E1.
  pose proof (firstn_then_window 4 2 attractions) as E2.
  pose proof (firstn_then_window 6 2 attractions) as E3.
  cbn [Nat.add] in E1, E2, E3.
  split.
  - rewrite <- E3, <- E2, <- E1, <- !app_assoc. reflexivity.
  - exact (firstn_then_window 2 2 restaurants).
Qed.

(** X5. The assembler invents and repeats nothing.  For all upstream lists,
    every place of an attraction slot is a place of the attractions list
    and every place of an evening slot is a place of the restaurants list.
    And a list without a repeated place gives slots without one: no place
    appears twice among the attraction slots when the attractions list
    repeats none, nor among the evening slots when the restaurants list
    repeats none. *)
Theorem X5_slots_repeat_nothing (c : jsstring) (attractions restaurants : list Place) :
  let r := recommendation c attractions restaurants in
  let attraction_slots :=
    places (morning (day1 r)) ++ places (afternoon (day1 r))
    ++ places (morning (day2 r)) ++ places (afternoon (day2 r)) in
  let restaurant_slots := places (evening (day1 r)) ++ places (evening (day2 r)) in
  (forall p, In p attraction_slots -> In p attractions) /\
  (forall p, In p restaurant_slots -> In p restaurants) /\
  (NoDup attractions -> NoDup attraction_slots) /\
  (NoDup restaurants -> NoDup restaurant_slots).
Proof.
  intros r attraction_slots restaurant_slots.
  destruct (attraction_slots_prefix c attractions restaurants) as [Eatt Eres].
  subst attraction_slots restaurant_slots. fold r in Eatt, Eres.
  rewrite Eatt, Eres.
  split; [intros p; apply In_firstn_of |].
  split; [intros p; apply In_firstn_of |].
  split; intros H; now apply NoDup_firstn_of.
Qed.

Lemma paris_lists_NoDup : NoDup paris_attractions /\ NoDup paris_restaurants.
Proof.
  split; repeat constructor; cbn; intuition discriminate.
Defined.

Lemma X5_slots_repeat_nothing_witness :
  let r := recommendation (lit "Paris") paris_attractions paris_restaurants in
  NoDup (places (morning (day1 r)) ++ places (afternoon (day1 r))
         ++ places (morning (day2 r)) ++ places (afternoon (day2 r))) /\
  NoDup (places (evening (day1 r)) ++ places (evening (day2 r))).
Proof.
  destruct (@X5_slots_repeat_nothing (lit "Paris") paris_attractions
              paris_restaurants) as (_ & _ & Hatt & Hres).
  exact (conj (Hatt (proj1 paris_lists_NoDup)) (Hres (proj2 paris_lists_NoDup))).
Defined.

(** A place the upstream lists twice is recommended twice. *)
Example repeated_place_is_kept :
  let louvre := mkPlace (lit "a1") (lit "Louvre Museum") in
  let r := recommendation (lit "Paris") [louvre; louvre; louvre] [louvre] in
  map places (slots r) = [[louvre; louvre]; [louvre]; [louvre]; []; []; []].
Proof. reflexivity. Qed.

(** ** The venue status widget: what is shown *)

Section VenueView.
Import VenueStatus VenueStatusView.

(** X6. The wait time is green up to 10 minutes, yellow above 10 and up to
    20, red above 20. *)
Theorem X6_wait_time_colours (minutes : Z) :
  (getWaitTimeColor minutes = lit "text-green-600" <-> (minutes <= 10)%Z) /\
  (getWaitTimeColor minutes = lit "text-yellow-600" <-> (10 < minutes <= 20)%Z) /\
  (getWaitTimeColor minutes = lit "text-red-600" <-> (20 < minutes)%Z).
Proof.
  unfold getWaitTimeColor.
  destruct (Z.leb_spec minutes 10), (Z.leb_spec minutes 20);
    (split; [| split]); (split; intros Hc); try lia; try reflexivity;
    vm_compute in Hc; discriminate Hc.
Qed.

(** X7. The badge of the level estimated for an hour is orange in [11,14]
    and [18,20], yellow in the rest of [9,17], green at every other hour;
    the red class of 'Very High' and the grey default are never used. *)
Theorem X7_badge_by_hour (h : Z) :
  let badge := getStatusColor (label (estimateCrowdLevel h)) in
  (badge = lit "bg-orange-100 text-orange-800"
   <-> (11 <= h <= 14 \/ 18 <= h <= 20)%Z) /\
  (badge = lit "bg-yellow-100 text-yellow-800"
   <-> (9 <= h <= 10 \/ 15 <= h <= 17)%Z) /\
  (badge = lit "bg-green-100 text-green-800"
   <-> (h < 9 \/ 20 < h)%Z) /\
  badge <> lit "bg-red-100 text-red-800" /\
  badge <> lit "bg-gray-100 text-gray-800".
Proof.
  intros badge. subst badge.
  pose proof (estimateCrowdLevel_High h) as HH.
  pose proof (estimateCrowdLevel_Moderate h) as HM.
  pose proof (estimateCrowdLevel_Low h) as HL.
  destruct (estimateCrowdLevel h) eqn:E.
  - assert (Hlow : (~ (11 <= h <= 14 \/ 18 <= h <= 20) /\ ~ 9 <= h <= 17)%Z)
      by now apply HL.
    (split; [| split; [| split; [| split]]]);
      try (split; intros Hc); try (intros Hc);
      try (vm_compute in Hc; discriminate Hc); try reflexivity; try lia.
  - assert (Hmod : (9 <= h <= 17 /\ ~ (11 <= h <= 14 \/ 18 <= h <= 20))%Z)
      by now apply HM.
    (split; [| split; [| split; [| split]]]);
      try (split; intros Hc); try (intros Hc);
      try (vm_compute in Hc; discriminate Hc); try reflexivity; try lia.
  - assert (Hhigh : (11 <= h <= 14 \/ 18 <= h <= 20)%Z) by now apply HH.
    (split; [| split; [| split; [| split]]]);
      try (split; intros Hc); try (intros Hc);
      try (vm_compute in Hc; discriminate Hc); try reflexivity; try lia.
  - exfalso.
    unfold estimateCrowdLevel in E.
    destruct (_ || _)%bool; [discriminate |].
    destruct (_ && _)%bool; discriminate.
Qed.

(** What a refresh does, case by case. *)
Lemma fetchVenueData_try_cases (apiKey : option jsstring) (venueId : jsstring)
    (fetch : FetchRequest -> completion Thrown FetchResponse)
    (now : Clock) (random30 : Z) :
  fetchVenueData_try apiKey venueId fetch now random30
  = match apiKey with
    | Some (c :: k) =>
        match fetch (venue_request (c :: k) venueId) with
        | Normal response =>
            if ok response then
              match json_ response with
              | Normal data =>
                  Normal {| name := pd_name data;
                            crowdLevel := estimateCrowdLevel (getHours now);
                            currentWaitTime := random30;
                            lastUpdated := toISOString now;
                            isOperational :=
                              match pd_currentOpeningHours data with
                              | Some h => openNow h
                              | None => false
                              end;
                            rating := pd_rating data;
                            userRatingCount := pd_userRatingCount data;
                            formattedAddress := pd_formattedAddress data;
                            photos := pd_photos data;
                            currentOpeningHours := pd_currentOpeningHours data;
                            specialEvents := [];
                            maintenanceAlerts := [] |}
              | Throw e => Throw e
              end
            else Throw (Error_ (lit "Failed to fetch venue data"))
        | Throw e => Throw e
        end
    | _ => Throw (Error_ (lit "Google Places API key not configured"))
    end.
Proof.
  unfold fetchVenueData_try, venue_request.
  destruct apiKey as [[| c k] |]; cbn [bind]; try reflexivity.
  match goal with
  | |- context [fetch ?r] => destruct (fetch r) as [response | e]
  end; cbn [bind]; [| reflexivity].
  destruct (ok response); cbn [negb bind]; [| reflexivity].
  destruct (json_ response) as [data | e]; cbn [bind]; [| reflexivity].
  destruct (pd_currentOpeningHours data) as [h |]; [| reflexivity].
  now rewrite orb_false_r.
Qed.

Lemma fetchVenueData_state (apiKey : option jsstring) (venueId : jsstring)
    (fetch : FetchRequest -> completion Thrown FetchResponse)
    (now : Clock) (random30 : Z) (st : State) :
  fetchVenueData apiKey venueId fetch now random30 st
  = match fetchVenueData_try apiKey venueId fetch now random30 with
    | Normal vd => {| venueData := Some vd; loading := false; error := None |}
    | Throw err =>
        {| venueData := venueData st; loading := false;
           error := Some (message_of err) |}
    end.
Proof. reflexivity. Qed.

(** X8. After a refresh the widget never shows the loading skeleton.  A
    successful refresh clears the error and shows the card of the new data,
    with the wait colour of the drawn wait time, the badge of the hour's
    level, and no events or alerts block.  A failed refresh keeps the venue
    data of before and, when its message is not empty, shows the error panel
    even over data fetched earlier; a failure with an empty message leaves
    the card of the earlier data on screen. *)
Theorem X8_refresh_then_render (apiKey : option jsstring) (venueId : jsstring)
    (fetch : FetchRequest -> completion Thrown FetchResponse)
    (now : Clock) (random30 : Z) (st : State) :
  let outcome := fetchVenueData_try apiKey venueId fetch now random30 in
  let st' := fetchVenueData apiKey venueId fetch now random30 st in
  render st' <> Skeleton /\
  (forall vd,
     outcome = Normal vd ->
     error st' = None /\
     exists card,
       render st' = StatusCard card /\
       shown card = vd /\
       wait_class card = getWaitTimeColor random30 /\
       status_class card = getStatusColor (label (estimateCrowdLevel (getHours now))) /\
       alerts_shown card = false) /\
  (forall err,
     outcome = Throw err ->
     venueData st' = venueData st /\
     (message_of err <> [] -> render st' = ErrorPanel) /\
     (message_of err = [] ->
      forall vd0, venueData st = Some vd0 ->
        exists card, render st' = StatusCard card /\ shown card = vd0)).
Proof.
  intros outcome st'. subst st'. rewrite fetchVenueData_state. fold outcome.
  pose proof (fetchVenueData_try_cases apiKey venueId fetch now random30) as Hcases.
  fold outcome in Hcases.
  destruct outcome as [vd | err] eqn:Hout.
  - split; [| split].
    + unfold render. cbn. discriminate.
    + intros vd' [= <-]. split; [reflexivity |].
      assert (Hvd : currentWaitTime vd = random30 /\
                    crowdLevel vd = estimateCrowdLevel (getHours now) /\
                    specialEvents vd = [] /\ maintenanceAlerts vd = []).
      { destruct apiKey as [[| c k] |]; try discriminate Hcases.
        destruct (fetch _) as [response | e]; [| discriminate Hcases].
        destruct (ok response); [| discriminate Hcases].
        destruct (json_ response) as [data | e]; [| discriminate Hcases].
        injection Hcases as ->. repeat split. }
      destruct Hvd as (Hw & Hc & He & Hm).
      eexists. unfold render. cbn [loading venueData error truthy_str].
      split; [reflexivity |].
      cbn [shown wait_class status_class alerts_shown].
      rewrite Hw, Hc, He, Hm. repeat split.
    + discriminate.
  - split; [| split].
    + unfold render. cbn [loading venueData error].
      destruct (venueData st); [| discriminate].
      destruct (truthy_str _); discriminate.
    + discriminate.
    + intros err' [= <-]. cbn [venueData]. split; [reflexivity |]. split.
      * intros Hne. unfold render. cbn [loading venueData error].
        destruct (venueData st); [| reflexivity].
        destruct (message_of err); [congruence | reflexivity].
      * intros Hempty vd0 Hvd0. unfold render. cbn [loading venueData error].
        rewrite Hvd0, Hempty. cbn [truthy_str]. eexists. split; reflexivity.
Qed.

(** X9. Without a credential a refresh does not call the places service: for
    every [fetch] the state after it is the same, the venue data of before
    and the configuration message. *)
Theorem X9_refresh_without_credential (apiKey : option jsstring)
    (venueId : jsstring)
    (fetch : FetchRequest -> completion Thrown FetchResponse)
    (now : Clock) (random30 : Z) (st : State) :
  truthy_str apiKey = false ->
  fetchVenueData apiKey venueId fetch now random30 st
  = {| venueData := venueData st; loading := false;
       error := Some (lit "Google Places API key not configured") |}.
Proof.
  intros Hkey. rewrite fetchVenueData_state, fetchVenueData_try_cases.
  destruct apiKey as [[| c k] |]; try discriminate Hkey; reflexivity.
Qed.

Lemma X9_refresh_without_credential_witness :
  let now := {| getHours := 12; getDay := 2;
                toISOString := lit "2024-05-07T10:00:00.000Z" |} in
  let st := {| venueData := None; loading := true; error := None |} in
  fetchVenueData None (lit "abc") (fun _ => Throw NotAnError) now 17 st
  = {| venueData := venueData st; loading := false;
       error := Some (lit "Google Places API key not configured") |}.
Proof.
  apply (@X9_refresh_without_credential None (lit "abc")
           (fun _ => Throw NotAnError)).
  reflexivity.
Defined.

(** X10. An answer of the places service that is not a success is reported
    as 'Failed to fetch venue data' without reading its body, and the venue
    data of before stays. *)
Theorem X10_refresh_on_failed_answer (key venueId : jsstring)
    (fetch : FetchRequest -> completion Thrown FetchResponse)
    (now : Clock) (random30 : Z) (st : State) (response : FetchResponse) :
  key <> [] ->
  fetch (venue_request key venueId) = Normal response ->
  ok response = false ->
  fetchVenueData (Some key) venueId fetch now random30 st
  = {| venueData := venueData st; loading := false;
       error := Some (lit "Failed to fetch venue data") |}.
Proof.
  intros Hkey Hfetch Hok. rewrite fetchVenueData_state, fetchVenueData_try_cases.
  destruct key as [| c k]; [congruence |].
  now rewrite Hfetch, Hok.
Qed.

Lemma X10_refresh_on_failed_answer_witness :
  let now := {| getHours := 12; getDay := 2;
                toISOString := lit "2024-05-07T10:00:00.000Z" |} in
  let st := {| venueData := None; loading := true; error := None |} in
  let response := {| ok := false; json_ := Throw NotAnError |} in
  fetchVenueData (Some (lit "KEY")) (lit "abc") (fun _ => Normal response) now 17 st
  = {| venueData := venueData st; loading := false;
       error := Some (lit "Failed to fetch venue data") |}.
Proof.
  apply (@X10_refresh_on_failed_answer (lit "KEY") (lit "abc")
           (fun _ => Normal {| ok := false; json_ := Throw NotAnError |})
           {| getHours := 12; getDay := 2;
              toISOString := lit "2024-05-07T10:00:00.000Z" |} 17
           {| venueData := None; loading := true; error := None |}
           {| ok := false; json_ := Throw NotAnError |}).
  - discriminate.
  - reflexivity.
  - reflexivity.
Defined.

End VenueView.

(** ** The results views: what is stored and what is shown *)

Lemma parse_empty_throws : JSON.parse [] = Throw JSON.Unexpected.
Proof. reflexivity. Qed.

(** The itinerary markup of a value without day1 or day2 throws while it
    renders, whatever the card is. *)
Lemma Itinerary_needs_days (Card : Type)
    (PlaceCard : json -> completion Components.RenderError Card) (v : json) :
  Components.missing (JSValue.read_opt (Some v) (lit "day1"))
  || Components.missing (JSValue.read_opt (Some v) (lit "day2")) = true ->
  exists e, Components.Itinerary PlaceCard v = Throw e.
Proof.
  intros H. unfold Components.Itinerary.
  destruct v as [| b | n | t | items | members];
    try (eexists; reflexivity).
  cbn [Components.reads JSValue.read JSValue.read_opt bind] in *.
  destruct (Components.child _); [| eexists; reflexivity]. cbn [bind].
  assert (Hday : forall d, Components.missing d = true ->
                 exists e, Components.DaySection PlaceCard d = Throw e).
  { intros [[] |]; try discriminate; intros _; eexists; reflexivity. }
  apply orb_prop in H as [H | H].
  - destruct (Hday _ H) as [e ->]. eexists. reflexivity.
  - destruct (Components.DaySection PlaceCard
                (JSValue.own_property members (lit "day1")));
      [| eexists; reflexivity].
    cbn [bind]. destruct (Hday _ H) as [e ->]. eexists. reflexivity.
Qed.

(** X11. A stored text that is JSON is taken as the recommendation without
    any check of its shape: both views set no error and keep the parsed
    value, whatever it is.  The component then takes its last branch, the
    one that returns the itinerary markup for the value, when the value is
    truthy, and the branch of the spinner, for good, when it is falsy (null,
    false, the empty string, and 0, also written as a literal too small for
    a Number).  Taking the itinerary branch is no more than that: when the
    value has no day1 or no day2, the markup throws while it renders, in
    both views. *)
Theorem X11_stored_json_is_not_validated (localStorage : Browser.Storage)
    (text : jsstring) (v : json) :
  Browser.getItem localStorage (lit "tripRecommendations") = Some text ->
  JSON.parse text = Normal v ->
  Results.useEffect_load localStorage Results.initial
  = Normal {| Results.recommendation := v; Results.error := None |} /\
  Results.render {| Results.recommendation := v; Results.error := None |}
  = (if truthy v then Results.Itinerary v else Results.Spinner) /\
  ResultsSplit.useEffect_load localStorage ResultsSplit.initial
  = Normal {| ResultsSplit.recommendation := v; ResultsSplit.error := None |} /\
  ResultsSplit.render {| ResultsSplit.recommendation := v; ResultsSplit.error := None |}
  = (if truthy v then ResultsSplit.Itinerary v else ResultsSplit.Spinner) /\
  (Components.missing (JSValue.read_opt (Some v) (lit "day1"))
   || Components.missing (JSValue.read_opt (Some v) (lit "day2")) = true ->
   forall apiKey,
     (exists e, Components.Itinerary (ResultsCard.PlaceCard apiKey) v = Throw e) /\
     (exists e, Components.Itinerary (ResultsSplitCard.PlaceCard apiKey) v = Throw e)).
Proof.
  intros Hget Hparse.
  unfold Results.useEffect_load, ResultsSplit.useEffect_load,
    Results.render, ResultsSplit.render.
  rewrite Hget.
  destruct text as [| c text]; [rewrite parse_empty_throws in Hparse; discriminate |].
  cbn [truthy_str]. rewrite Hparse. cbn [bind catch Results.error ResultsSplit.error
    Results.recommendation ResultsSplit.recommendation truthy_str].
  repeat (split; [destruct (truthy v); reflexivity |]).
  intros Hdays apiKey. split; now apply Itinerary_needs_days.
Qed.

Lemma X11_stored_json_is_not_validated_witness :
  let localStorage := [(lit "tripRecommendations", lit "{}")] in
  let v := JObj [] in
  Results.useEffect_load localStorage Results.initial
  = Normal {| Results.recommendation := v; Results.error := None |} /\
  Results.render {| Results.recommendation := v; Results.error := None |}
  = (if truthy v then Results.Itinerary v else Results.Spinner) /\
  ResultsSplit.useEffect_load localStorage ResultsSplit.initial
  = Normal {| ResultsSplit.recommendation := v; ResultsSplit.error := None |} /\
  ResultsSplit.render {| ResultsSplit.recommendation := v; ResultsSplit.error := None |}
  = (if truthy v then ResultsSplit.Itinerary v else ResultsSplit.Spinner) /\
  (Components.missing (JSValue.read_opt (Some v) (lit "day1"))
   || Components.missing (JSValue.read_opt (Some v) (lit "day2")) = true ->
   forall apiKey,
     (exists e, Components.Itinerary (ResultsCard.PlaceCard apiKey) v = Throw e) /\
     (exists e, Components.Itinerary (ResultsSplitCard.PlaceCard apiKey) v = Throw e)).
Proof.
  apply (@X11_stored_json_is_not_validated
           [(lit "tripRecommendations", lit "{}")] (lit "{}") (JObj []));
    reflexivity.
Defined.

(** An empty object takes the itinerary branch, and its markup throws while
    it renders, under either card. *)
Example stored_empty_object :
  match Results.useEffect_load [(lit "tripRecommendations", lit "{}")]
          Results.initial with
  | Normal st =>
      Results.render st = Results.Itinerary (JObj []) /\
      (forall apiKey,
         Components.Itinerary (ResultsCard.PlaceCard apiKey) (JObj [])
         = Throw (Components.Type_error
                    (JSValue.CannotReadProperty None (lit "morning"))) /\
         Components.Itinerary (ResultsSplitCard.PlaceCard apiKey) (JObj [])
         = Throw (Components.Type_error
                    (JSValue.CannotReadProperty None (lit "morning"))))
  | Throw _ => False
  end.
Proof. vm_compute. split; [reflexivity |]. intros apiKey. split; reflexivity. Qed.

(** A stored number too small for a Number is 0: the spinner stays. *)
Example stored_underflow :
  match Results.useEffect_load [(lit "tripRecommendations", lit "1e-400")]
          Results.initial with
  | Normal st =>
      Results.recommendation st = JNum (Zero false) /\
      Results.render st = Results.Spinner
  | Throw _ => False
  end.
Proof. vm_compute. split; reflexivity. Qed.

(** ** The photo URL, in the three components *)

Section PhotoUrls.
Import PhotoReference.

Lemma split_segment (a rest : jsstring) :
  slash_free a = true ->
  ResultsSplit.split (ch "/") (a ++ ch "/" :: rest)
  = a :: ResultsSplit.split (ch "/") rest.
Proof.
  induction a as [| c a IH]; intros Ha.
  - cbn [app ResultsSplit.split]. now rewrite N.eqb_refl.
  - cbn [slash_free forallb] in Ha. apply andb_prop in Ha as [Hc Ha].
    apply negb_true_iff in Hc.
    cbn [app ResultsSplit.split]. rewrite Hc, (IH Ha). reflexivity.
Qed.

Lemma split_last (a : jsstring) :
  slash_free a = true -> ResultsSplit.split (ch "/") a = [a].
Proof.
  induction a as [| c a IH]; intros Ha; [reflexivity |].
  cbn [slash_free forallb] in Ha. apply andb_prop in Ha as [Hc Ha].
  apply negb_true_iff in Hc.
  cbn [ResultsSplit.split]. rewrite Hc, (IH Ha). reflexivity.
Qed.

Lemma strip_prefix_Some (p s rest : jsstring) :
  JSON.strip_prefix p s = Some rest -> s = p ++ rest.
Proof.
  revert s. induction p as [| x p IH]; intros [| y s]; cbn; try discriminate.
  - now intros [= <-].
  - now intros [= <-].
  - destruct (N.eqb_spec x y) as [-> | _]; [| discriminate].
    intros H%IH. now subst.
Qed.

Lemma slash_free_no_places_prefix (s : jsstring) :
  slash_free s = true -> JSON.strip_prefix (lit "places/") s = None.
Proof.
  intros Hs. destruct (JSON.strip_prefix (lit "places/") s) as [rest |] eqn:E;
    [| reflexivity].
  apply strip_prefix_Some in E. subst s. discriminate Hs.
Qed.

(** X12. On a photo reference of the documented form
    places/{placeId}/photos/{photoId} the two results views build the same
    URL. *)
Theorem X12_photo_url_variants_agree (key placeId photoId : jsstring) :
  key <> [] -> slash_free placeId = true -> slash_free photoId = true ->
  let reference := four_segments (lit "places") placeId (lit "photos") photoId in
  ResultsSplit.getPhotoUrl (Some key) reference
  = Results.getPhotoUrl (Some key) reference /\
  Results.getPhotoUrl (Some key) reference
  = lit "https://places.googleapis.com/v1/places/" ++ placeId
    ++ lit "/photos/" ++ photoId ++ lit "/media?key=" ++ key
    ++ lit "&maxHeightPx=400".
Proof.
  intros Hkey Hp Hq reference.
  assert (Hsplit : ResultsSplit.split (ch "/") reference
                   = [lit "places"; placeId; lit "photos"; photoId]).
  { unfold reference, four_segments.
    rewrite split_segment by reflexivity.
    rewrite split_segment by exact Hp.
    rewrite split_segment by reflexivity.
    now rewrite split_last. }
  assert (Hpage : Results.getPhotoUrl (Some key) reference
                  = lit "https://places.googleapis.com/v1/places/" ++ placeId
                    ++ lit "/photos/" ++ photoId ++ lit "/media?key=" ++ key
                    ++ lit "&maxHeightPx=400").
  { unfold Results.getPhotoUrl.
    destruct key as [| k key]; [congruence |].
    change reference with (lit "places/" ++ placeId ++ ch "/" :: lit "photos"
                           ++ ch "/" :: photoId).
    rewrite strip_prefix_app.
    change (lit "places/") with (ch "p" :: lit "laces/") at 1.
    cbn [app]. cbv iota.
    change (lit "https://places.googleapis.com/v1/places/")
      with (lit "https://places.googleapis.com/v1/" ++ lit "places/").
    change (lit "/photos/") with (ch "/" :: lit "photos" ++ [ch "/"]).
    repeat (rewrite <- ?app_assoc; cbn [app]). reflexivity. }
  split; [| exact Hpage].
  rewrite Hpage. unfold ResultsSplit.getPhotoUrl. rewrite Hsplit.
  destruct key as [| k key]; [congruence |]. reflexivity.
Qed.

Lemma X12_photo_url_variants_agree_witness :
  let reference := four_segments (lit "places") (lit "abc") (lit "photos") (lit "xyz") in
  ResultsSplit.getPhotoUrl (Some (lit "KEY")) reference
  = Results.getPhotoUrl (Some (lit "KEY")) reference /\
  Results.getPhotoUrl (Some (lit "KEY")) reference
  = lit "https://places.googleapis.com/v1/places/" ++ lit "abc"
    ++ lit "/photos/" ++ lit "xyz" ++ lit "/media?key=" ++ lit "KEY"
    ++ lit "&maxHeightPx=400".
Proof.
  apply (@X12_photo_url_variants_agree (lit "KEY") (lit "abc") (lit "xyz"));
    [discriminate | reflexivity | reflexivity].
Defined.

(** X13. On a photo reference without a slash (a reference of the older
    photo service) the views part: the first view asks the older photo
    endpoint, the second view gives the empty string. *)
Theorem X13_photo_url_without_slash (key reference : jsstring) :
  key <> [] -> reference <> [] -> slash_free reference = true ->
  Results.getPhotoUrl (Some key) reference
  = lit "https://maps.googleapis.com/maps/api/place/photo?maxwidth=400&photo_reference="
    ++ reference ++ lit "&key=" ++ key /\
  ResultsSplit.getPhotoUrl (Some key) reference = [].
Proof.
  intros Hkey Href Hfree. split.
  - unfold Results.getPhotoUrl.
    destruct reference as [| c reference]; [congruence |].
    destruct key as [| k key]; [congruence |].
    now rewrite slash_free_no_places_prefix.
  - unfold ResultsSplit.getPhotoUrl.
    destruct key as [| k key]; [congruence |]. cbn [truthy_str negb].
    now rewrite split_last.
Qed.

Lemma X13_photo_url_without_slash_witness :
  Results.getPhotoUrl (Some (lit "KEY")) (lit "CmRaAAAA")
  = lit "https://maps.googleapis.com/maps/api/place/photo?maxwidth=400&photo_reference="
    ++ lit "CmRaAAAA" ++ lit "&key=" ++ lit "KEY" /\
  ResultsSplit.getPhotoUrl (Some (lit "KEY")) (lit "CmRaAAAA") = [].
Proof.
  apply (@X13_photo_url_without_slash (lit "KEY") (lit "CmRaAAAA"));
    [discriminate | discriminate | reflexivity].
Defined.

(** X14. The second view reads the second and the fourth segment only: the
    first and the third segment are not compared with "places" and "photos",
    and segments after the fourth are dropped. *)
Theorem X14_photo_url_reads_two_segments (key a b c d more : jsstring) :
  key <> [] ->
  slash_free a = true -> slash_free b = true ->
  slash_free c = true -> slash_free d = true ->
  let url := lit "https://places.googleapis.com/v1/places/" ++ b
             ++ lit "/photos/" ++ d ++ lit "/media?key=" ++ key
             ++ lit "&maxHeightPx=400" in
  ResultsSplit.getPhotoUrl (Some key) (four_segments a b c d) = url /\
  ResultsSplit.getPhotoUrl (Some key) (four_segments a b c d ++ ch "/" :: more) = url.
Proof.
  intros Hkey Ha Hb Hc Hd url. subst url.
  destruct key as [| k key]; [congruence |].
  unfold ResultsSplit.getPhotoUrl, four_segments. cbn [truthy_str negb].
  split.
  - rewrite !split_segment by assumption. rewrite split_last by assumption.
    reflexivity.
  - repeat (rewrite <- ?app_assoc; cbn [app]).
    rewrite !split_segment by assumption.
    destruct (ResultsSplit.split (ch "/") more); reflexivity.
Qed.

Lemma X14_photo_url_reads_two_segments_witness :
  let url := lit "https://places.googleapis.com/v1/places/" ++ lit "abc"
             ++ lit "/photos/" ++ lit "xyz" ++ lit "/media?key=" ++ lit "KEY"
             ++ lit "&maxHeightPx=400" in
  ResultsSplit.getPhotoUrl (Some (lit "KEY"))
    (four_segments (lit "users") (lit "abc") (lit "videos") (lit "xyz")) = url /\
  ResultsSplit.getPhotoUrl (Some (lit "KEY"))
    (four_segments (lit "users") (lit "abc") (lit "videos") (lit "xyz")
     ++ ch "/" :: lit "media") = url.
Proof.
  apply (@X14_photo_url_reads_two_segments (lit "KEY") (lit "users") (lit "abc")
           (lit "videos") (lit "xyz") (lit "media"));
    [discriminate | reflexivity | reflexivity | reflexivity | reflexivity].
Defined.

(** X15. Without a credential the two results views give the empty string
    for every photo reference, while the map component builds a URL all the
    same, with the text "undefined" in place of the key. *)
Theorem X15_photo_url_without_credential (reference : jsstring) :
  Results.getPhotoUrl None reference = [] /\
  ResultsSplit.getPhotoUrl None reference = [] /\
  Results.getPhotoUrl (Some []) reference = [] /\
  ResultsSplit.getPhotoUrl (Some []) reference = [] /\
  InteractiveMap.getPhotoUrl None reference
  = lit "https://places.googleapis.com/v1/" ++ reference
    ++ lit "/media?key=undefined&maxHeightPx=200".
Proof.
  unfold Results.getPhotoUrl, ResultsSplit.getPhotoUrl, InteractiveMap.getPhotoUrl.
  repeat split; try (destruct reference; reflexivity).
Qed.

End PhotoUrls.

(** ** The map component: the details fetched so far *)

Section MapDetails.
Import JSValue InteractiveMap.

Lemma own_property_set_same (k : jsstring) (v : json) (o : Details) :
  own_property (JSON.set_property k v o) k = Some v.
Proof.
  induction o as [| [k' v'] o IH]; cbn [JSON.set_property own_property].
  - now rewrite str_eqb_refl.
  - destruct (str_eqb k k') eqn:E; cbn [own_property].
    + apply str_eqb_eq in E. subst k'. now rewrite str_eqb_refl.
    + destruct (str_eqb k' k) eqn:E'; [| exact IH].
      apply str_eqb_eq in E'. subst k'. now rewrite str_eqb_refl in E.
Qed.

Lemma own_property_set_other (k k0 : jsstring) (v : json) (o : Details) :
  k0 <> k -> own_property (JSON.set_property k v o) k0 = own_property o k0.
Proof.
  intros Hne. induction o as [| [k' v'] o IH]; cbn [JSON.set_property own_property].
  - destruct (str_eqb k k0) eqn:E; [| reflexivity].
    apply str_eqb_eq in E. congruence.
  - destruct (str_eqb k k') eqn:E; cbn [own_property].
    + apply str_eqb_eq in E. subst k'.
      destruct (str_eqb k k0) eqn:E0; [| reflexivity].
      apply str_eqb_eq in E0. congruence.
    + now rewrite IH.
Qed.

(** X16. For an empty place id, and for a place id whose details the
    component already sees, [fetchPlaceDetails] changes nothing and calls
    nothing: the state after it is the state before, whatever [fetch] is. *)
Theorem X16_known_place_is_not_fetched (apiKey : option jsstring)
    (fetch : FetchRequest -> completion Thrown FetchResponse)
    (placeDetails prev : Details) (placeId : jsstring) :
  placeId = [] \/ has_details placeDetails placeId = true ->
  fetchPlaceDetails apiKey fetch placeDetails prev placeId = prev.
Proof.
  intros H. unfold fetchPlaceDetails.
  destruct H as [-> | ->]; [reflexivity |]. now rewrite orb_true_r.
Qed.

Lemma X16_known_place_is_not_fetched_witness :
  let seen := [(lit "ChIJ1", JObj [(lit "name", JStr (lit "places/ChIJ1"))])] in
  fetchPlaceDetails (Some (lit "KEY")) (fun _ => Throw Rejected) seen seen (lit "ChIJ1")
  = seen.
Proof.
  apply (@X16_known_place_is_not_fetched (Some (lit "KEY")) (fun _ => Throw Rejected)
           [(lit "ChIJ1", JObj [(lit "name", JStr (lit "places/ChIJ1"))])]
           [(lit "ChIJ1", JObj [(lit "name", JStr (lit "places/ChIJ1"))])]
           (lit "ChIJ1")).
  right. reflexivity.
Defined.

(** X17. A successful fetch stores the answer under the place id and leaves
    the details of every other place as they were; the place counts as known
    afterwards exactly when the stored answer is truthy. *)
Theorem X17_fetched_details_are_stored (apiKey : option jsstring)
    (fetch : FetchRequest -> completion Thrown FetchResponse)
    (placeDetails prev : Details) (placeId : jsstring)
    (response : FetchResponse) (data : json) :
  placeId <> [] ->
  has_details placeDetails placeId = false ->
  fetch (details_request apiKey placeId) = Normal response ->
  ok response = true ->
  json_ response = Normal data ->
  let next := fetchPlaceDetails apiKey fetch placeDetails prev placeId in
  own_property next placeId = Some data /\
  (forall other, other <> placeId -> own_property next other = own_property prev other) /\
  has_details next placeId = truthy data.
Proof.
  intros Hid Hnew Hfetch Hok Hjson next. subst next. unfold fetchPlaceDetails.
  destruct placeId as [| c placeId]; [congruence |].
  cbn [JSON.nonempty negb orb]. rewrite Hnew, Hfetch. cbn [bind].
  rewrite Hok. cbn [negb bind]. rewrite Hjson. cbn [bind try_catch].
  repeat split.
  - apply own_property_set_same.
  - intros other Hother. now apply own_property_set_other.
  - unfold has_details. now rewrite own_property_set_same.
Qed.

Lemma X17_fetched_details_are_stored_witness :
  let data := JObj [(lit "name", JStr (lit "places/ChIJ2"))] in
  let fetch := fun _ : FetchRequest =>
                 Normal {| ok := true; json_ := Normal data |} in
  let prev := [(lit "ChIJ1", JNull)] in
  let next := fetchPlaceDetails (Some (lit "KEY")) fetch [] prev (lit "ChIJ2") in
  own_property next (lit "ChIJ2") = Some data /\
  (forall other, other <> lit "ChIJ2" -> own_property next other = own_property prev other) /\
  has_details next (lit "ChIJ2") = truthy data.
Proof.
  apply (@X17_fetched_details_are_stored (Some (lit "KEY"))
           (fun _ => Normal {| ok := true;
                               json_ := Normal (JObj [(lit "name", JStr (lit "places/ChIJ2"))]) |})
           [] [(lit "ChIJ1", JNull)] (lit "ChIJ2")
           {| ok := true;
              json_ := Normal (JObj [(lit "name", JStr (lit "places/ChIJ2"))]) |}
           (JObj [(lit "name", JStr (lit "places/ChIJ2"))]));
    [discriminate | reflexivity | reflexivity | reflexivity | reflexivity].
Defined.

(** X18. [fetchPlaceDetails] swallows every failure: the state changes only
    when the service answered with a success whose body could be read, and
    then by that one entry. *)
Theorem X18_failed_fetch_changes_nothing (apiKey : option jsstring)
    (fetch : FetchRequest -> completion Thrown FetchResponse)
    (placeDetails prev : Details) (placeId : jsstring) :
  fetchPlaceDetails apiKey fetch placeDetails prev placeId = prev \/
  exists response data,
    fetch (details_request apiKey placeId) = Normal response /\
    ok response = true /\
    json_ response = Normal data /\
    fetchPlaceDetails apiKey fetch placeDetails prev placeId
    = JSON.set_property placeId data prev.
Proof.
  unfold fetchPlaceDetails.
  destruct (negb (JSON.nonempty placeId) || has_details placeDetails placeId);
    [now left |].
  destruct (fetch (details_request apiKey placeId)) as [response | e] eqn:Hfetch;
    cbn [bind try_catch]; [| now left].
  destruct (ok response) eqn:Hok; cbn [negb bind try_catch]; [| now left].
  destruct (json_ response) as [data | e] eqn:Hjson; cbn [bind try_catch];
    [| now left].
  right. exists response, data. repeat split; assumption.
Qed.

(** A place id that names a property of every object is never fetched. *)
Example inherited_name_is_not_fetched :
  has_details [] (lit "constructor") = true /\
  fetchPlaceDetails (Some (lit "KEY"))
    (fun _ => Normal {| ok := true; json_ := Normal (JObj []) |})
    [] [] (lit "constructor") = [].
Proof. split; reflexivity. Qed.

End MapDetails.

(** ** The results view with the itinerary editor *)

Section Editor.
Import JSValue ResultsEditor.

Lemma or_else_truthy (a : value) (b : json) :
  truthy b = true -> truthy (or_else a b) = true.
Proof.
  intros Hb. unfold or_else. destruct a as [x |]; [| exact Hb].
  destruct (truthy x) eqn:E; [exact E | exact Hb].
Qed.

Lemma transformPlace_item (now : Z) (timeSlot : jsstring) (place : json)
    (index : nat) :
  place <> JNull ->
  exists item,
    transformPlace now timeSlot place index = Normal item /\
    item_of_slot timeSlot item.
Proof.
  intros Hplace. unfold transformPlace.
  destruct place; try congruence; cbn [read bind];
    (eexists; split; [reflexivity |]);
    unfold item_of_slot;
    cbn [time duration cost type_ id title category];
    repeat split; apply or_else_truthy; reflexivity.
Qed.

Lemma transformPlace_null (now : Z) (timeSlot : jsstring) (index : nat) :
  transformPlace now timeSlot JNull index
  = Throw (CannotReadProperty (Some JNull) (lit "id")).
Proof. reflexivity. Qed.

Lemma transformPlaces_from_items (now : nat -> Z) (timeSlot : jsstring)
    (places : list json) :
  Forall (fun p => p <> JNull) places ->
  forall index,
  exists items,
    transformPlaces_from now timeSlot places index = Normal items /\
    length items = length places /\
    Forall (item_of_slot timeSlot) items.
Proof.
  induction 1 as [| place places Hplace _ IH]; intros index.
  - exists []. repeat split. constructor.
  - cbn [transformPlaces_from].
    destruct (@transformPlace_item (now index) timeSlot place index Hplace)
      as (item & -> & Hitem).
    destruct (IH (S index)) as (items & -> & Hlen & Hall).
    cbn [bind]. exists (item :: items). repeat split.
    + cbn [length]. now rewrite Hlen.
    + now constructor.
Qed.

Lemma transformPlaces_from_nonnull (now : nat -> Z) (timeSlot : jsstring)
    (places : list json) :
  forall index items,
    transformPlaces_from now timeSlot places index = Normal items ->
    Forall (fun p => p <> JNull) places.
Proof.
  induction places as [| place places IH]; intros index items H; [constructor |].
  cbn [transformPlaces_from] in H.
  destruct place;
    first [ discriminate H
          | cbn [transformPlace read bind] in H;
            destruct (transformPlaces_from now timeSlot places (S index)) eqn:E;
            [| discriminate H];
            constructor; [discriminate | eapply IH; exact E] ].
Qed.

(** The reads on a recommendation built by the backend. *)
Lemma slot_places_of_day (d : Day) :
  slot_places (Some (day_value d)) (lit "morning") = Normal (JArr (places (morning d))) /\
  slot_places (Some (day_value d)) (lit "afternoon") = Normal (JArr (places (afternoon d))) /\
  slot_places (Some (day_value d)) (lit "evening") = Normal (JArr (places (evening d))).
Proof. repeat split. Qed.

Lemma transform_of_value (now : nat -> nat -> Z) (r : TripRecommendation) :
  transformRecommendationToItinerary now (value_of r)
  = (i1 <- transformPlaces_from (now 0%nat) (lit "morning") (places (morning (day1 r))) 0 ;;
     i2 <- transformPlaces_from (now 1%nat) (lit "afternoon") (places (afternoon (day1 r))) 0 ;;
     i3 <- transformPlaces_from (now 2%nat) (lit "evening") (places (evening (day1 r))) 0 ;;
     i4 <- transformPlaces_from (now 3%nat) (lit "morning") (places (morning (day2 r))) 0 ;;
     i5 <- transformPlaces_from (now 4%nat) (lit "afternoon") (places (afternoon (day2 r))) 0 ;;
     i6 <- transformPlaces_from (now 5%nat) (lit "evening") (places (evening (day2 r))) 0 ;;
     Normal (i1 ++ i2 ++ i3 ++ i4 ++ i5 ++ i6))%js.
Proof. reflexivity. Qed.

Lemma read_of_truthy (v : json) (k : jsstring) :
  truthy v = true -> read (Some v) k = Normal (read_opt (Some v) k).
Proof. destruct v; try discriminate; reflexivity. Qed.

(** X19. The transformation gives no item, and does not throw, when the
    recommendation is falsy or has no truthy day1 or day2. *)
Theorem X19_transform_guard (now : nat -> nat -> Z) (v : json) :
  truthy v = false \/
  truthy_value (read_opt (Some v) (lit "day1")) = false \/
  truthy_value (read_opt (Some v) (lit "day2")) = false ->
  transformRecommendationToItinerary now v = Normal [].
Proof.
  intros H. unfold transformRecommendationToItinerary.
  destruct (truthy v) eqn:Hv; [| reflexivity]. cbn [negb].
  rewrite !read_of_truthy by exact Hv. cbn [bind].
  destruct (truthy_value (read_opt (Some v) (lit "day1"))) eqn:H1; [| reflexivity].
  cbn [negb bind].
  destruct (truthy_value (read_opt (Some v) (lit "day2"))) eqn:H2; [| reflexivity].
  destruct H as [H | [H | H]]; discriminate H.
Qed.

Lemma X19_transform_guard_witness :
  transformRecommendationToItinerary (fun _ _ => 0%Z)
    (JObj [(lit "city", JStr (lit "Paris"));
           (lit "day1", day_value (day1 (Backend.recommendation (lit "Paris")
                                           paris_attractions paris_restaurants)))])
  = Normal [].
Proof.
  apply X19_transform_guard. right. right. reflexivity.
Defined.

Lemma transform_value_items (now : nat -> nat -> Z) (r : TripRecommendation) :
  Forall (fun p => p <> JNull) (List.concat (map places (slots r))) ->
  exists i1 i2 i3 i4 i5 i6,
    transformRecommendationToItinerary now (value_of r)
    = Normal (i1 ++ i2 ++ i3 ++ i4 ++ i5 ++ i6) /\
    (length i1 = length (places (morning (day1 r))) /\
     Forall (item_of_slot (lit "morning")) i1) /\
    (length i2 = length (places (afternoon (day1 r))) /\
     Forall (item_of_slot (lit "afternoon")) i2) /\
    (length i3 = length (places (evening (day1 r))) /\
     Forall (item_of_slot (lit "evening")) i3) /\
    (length i4 = length (places (morning (day2 r))) /\
     Forall (item_of_slot (lit "morning")) i4) /\
    (length i5 = length (places (afternoon (day2 r))) /\
     Forall (item_of_slot (lit "afternoon")) i5) /\
    (length i6 = length (places (evening (day2 r))) /\
     Forall (item_of_slot (lit "evening")) i6).
Proof.
  unfold slots. cbn [map List.concat]. rewrite app_nil_r.
  rewrite !Forall_app. intros (H1 & H2 & H3 & H4 & H5 & H6).
  rewrite transform_of_value.
  destruct (@transformPlaces_from_items (now 0%nat) (lit "morning") _ H1 0%nat)
    as (i1 & -> & L1 & A1).
  destruct (@transformPlaces_from_items (now 1%nat) (lit "afternoon") _ H2 0%nat)
    as (i2 & -> & L2 & A2).
  destruct (@transformPlaces_from_items (now 2%nat) (lit "evening") _ H3 0%nat)
    as (i3 & -> & L3 & A3).
  destruct (@transformPlaces_from_items (now 3%nat) (lit "morning") _ H4 0%nat)
    as (i4 & -> & L4 & A4).
  destruct (@transformPlaces_from_items (now 4%nat) (lit "afternoon") _ H5 0%nat)
    as (i5 & -> & L5 & A5).
  destruct (@transformPlaces_from_items (now 5%nat) (lit "evening") _ H6 0%nat)
    as (i6 & -> & L6 & A6).
  cbn [bind]. exists i1, i2, i3, i4, i5, i6. repeat split; assumption.
Qed.

Lemma times_of_slot (timeSlot : jsstring) (items : list ItineraryItem) :
  Forall (item_of_slot timeSlot) items ->
  map time items = repeat (slot_time timeSlot) (length items).
Proof.
  induction 1 as [| item items (Ht & _) _ IH]; [reflexivity |].
  cbn [map length repeat]. now rewrite Ht, IH.
Qed.

Lemma item_of_slot_well_formed (timeSlot : jsstring) (items : list ItineraryItem) :
  Forall (item_of_slot timeSlot) items -> Forall well_formed_item items.
Proof.
  apply Forall_impl. intros item (_ & Hd & Hc & Ht & Hi & Hn & _).
  repeat split; assumption.
Qed.

Lemma venue_widgets_all (items : list ItineraryItem) :
  Forall well_formed_item items -> venue_widgets items = map id items.
Proof.
  intros H. unfold venue_widgets. f_equal. apply forallb_filter_id.
  apply forallb_forall. intros item Hin.
  rewrite Forall_forall in H. now apply (H item Hin).
Qed.

(** X20. Of a recommendation as the backend builds it, with no null place,
    the transformation makes one item per place, in the order of the six
    slots, timed 09:00 in the mornings, 14:00 in the afternoons and 19:00 in
    the evenings; every item lasts 60 minutes, costs 0, is an 'activity' and
    has a truthy id and title, so that each one gets a venue status widget. *)
Theorem X20_one_item_per_place (now : nat -> nat -> Z) (r : TripRecommendation) :
  Forall (fun p => p <> JNull) (List.concat (map places (slots r))) ->
  exists items,
    transformRecommendationToItinerary now (value_of r) = Normal items /\
    length items = slots_total r /\
    map time items
    = repeat (lit "09:00") (length (places (morning (day1 r))))
      ++ repeat (lit "14:00") (length (places (afternoon (day1 r))))
      ++ repeat (lit "19:00") (length (places (evening (day1 r))))
      ++ repeat (lit "09:00") (length (places (morning (day2 r))))
      ++ repeat (lit "14:00") (length (places (afternoon (day2 r))))
      ++ repeat (lit "19:00") (length (places (evening (day2 r)))) /\
    Forall well_formed_item items /\
    venue_widgets items = map id items.
Proof.
  intros Hplaces.
  destruct (transform_value_items now r Hplaces)
    as (i1 & i2 & i3 & i4 & i5 & i6 & Ht
        & (L1 & A1) & (L2 & A2) & (L3 & A3) & (L4 & A4) & (L5 & A5) & (L6 & A6)).
  exists (i1 ++ i2 ++ i3 ++ i4 ++ i5 ++ i6).
  assert (Hall : Forall well_formed_item (i1 ++ i2 ++ i3 ++ i4 ++ i5 ++ i6)).
  { rewrite !Forall_app.
    repeat split; eapply item_of_slot_well_formed; eassumption. }
  split; [exact Ht |]. split; [| split; [| split]].
  - unfold slots_total, slots. cbn [map List.concat].
    rewrite app_nil_r, !length_app. lia.
  - rewrite !map_app.
    rewrite (times_of_slot A1), (times_of_slot A2), (times_of_slot A3),
      (times_of_slot A4), (times_of_slot A5), (times_of_slot A6).
    rewrite L1, L2, L3, L4, L5, L6. reflexivity.
  - exact Hall.
  - now apply venue_widgets_all.
Qed.

Lemma X20_one_item_per_place_witness :
  let r := Backend.recommendation (lit "Paris") paris_attractions paris_restaurants in
  exists items,
    transformRecommendationToItinerary (fun _ _ => 0%Z) (value_of r) = Normal items /\
    length items = slots_total r /\
    map time items
    = repeat (lit "09:00") (length (places (morning (day1 r))))
      ++ repeat (lit "14:00") (length (places (afternoon (day1 r))))
      ++ repeat (lit "19:00") (length (places (evening (day1 r))))
      ++ repeat (lit "09:00") (length (places (morning (day2 r))))
      ++ repeat (lit "14:00") (length (places (afternoon (day2 r))))
      ++ repeat (lit "19:00") (length (places (evening (day2 r)))) /\
    Forall well_formed_item items /\
    venue_widgets items = map id items.
Proof.
  apply (@X20_one_item_per_place (fun _ _ => 0%Z)
           (Backend.recommendation (lit "Paris") paris_attractions paris_restaurants)).
  repeat constructor; discriminate.
Defined.

(** A slot whose places are no array gives no item and no error. *)
Example places_not_an_array :
  transformPlaces (fun _ => 0%Z) (JStr (lit "Louvre")) (lit "morning") = Normal [] /\
  transformPlaces (fun _ => 0%Z) (JObj [(lit "0", JNull)]) (lit "morning") = Normal [].
Proof. split; reflexivity. Qed.

(** A place without id and name: the id is made of the clock and the index. *)
Example place_without_id :
  option_map (fun item => (id item, title item, location item))
    (match transformPlace 1700000000000 (lit "evening") (JObj []) 3 with
     | Normal item => Some item
     | Throw _ => None
     end)
  = Some (JStr (lit "place-1700000000000-3"), JStr (lit "Unnamed Place"), None).
Proof. vm_compute. reflexivity. Qed.

Lemma transform_value_nonnull (now : nat -> nat -> Z) (r : TripRecommendation)
    (items : list ItineraryItem) :
  transformRecommendationToItinerary now (value_of r) = Normal items ->
  Forall (fun p => p <> JNull) (List.concat (map places (slots r))).
Proof.
  rewrite transform_of_value. unfold slots. cbn [map List.concat].
  rewrite app_nil_r, !Forall_app.
  destruct (transformPlaces_from (now 0%nat) _ _ _) eqn:E1; [| discriminate].
  destruct (transformPlaces_from (now 1%nat) _ _ _) eqn:E2; [| discriminate].
  destruct (transformPlaces_from (now 2%nat) _ _ _) eqn:E3; [| discriminate].
  destruct (transformPlaces_from (now 3%nat) _ _ _) eqn:E4; [| discriminate].
  destruct (transformPlaces_from (now 4%nat) _ _ _) eqn:E5; [| discriminate].
  destruct (transformPlaces_from (now 5%nat) _ _ _) eqn:E6; [| discriminate].
  intros _.
  repeat split; eapply transformPlaces_from_nonnull; eassumption.
Qed.

Lemma useEffect_load_parsed (now : nat -> nat -> Z) (localStorage : Browser.Storage)
    (v : json) :
  JSON.wf v = true ->
  Browser.getItem localStorage (lit "tripRecommendations") = Some (JSON.stringify v) ->
  useEffect_load now localStorage initial
  = match transformRecommendationToItinerary now v with
    | Normal items => setEditedItinerary items (setRecommendation v initial)
    | Throw err =>
        setError (lit "Failed to load trip recommendations")
          (setRecommendation v initial)
    end.
Proof.
  intros Hwf Hget. unfold useEffect_load.
  now rewrite Hget, (stringify_truthy _ Hwf), (parse_stringify _ Hwf).
Qed.

(** X21. A stored recommendation that is valid JSON but holds a null place is
    reported as a failure to load: the transformation throws inside the try
    block, after the recommendation has been set, so the state keeps the
    parsed value, gets the error message and no item, and the error screen is
    shown. *)
Theorem X21_null_place_fails_the_load (now : nat -> nat -> Z)
    (localStorage : Browser.Storage) (r : TripRecommendation) :
  valid_recommendation r = true ->
  In JNull (List.concat (map places (slots r))) ->
  Browser.getItem localStorage (lit "tripRecommendations")
  = Some (JSON.stringify (value_of r)) ->
  let st := useEffect_load now localStorage initial in
  recommendation st = value_of r /\
  error st = Some (lit "Failed to load trip recommendations") /\
  editedItinerary st = [] /\
  render st
  = Normal (ErrorScreen (lit "Failed to load trip recommendations")
              (lit "Return to Search") (lit "/")).
Proof.
  intros Hvalid Hnull Hget st. subst st.
  rewrite (@useEffect_load_parsed now localStorage (value_of r) (value_of_wf r Hvalid) Hget).
  destruct (transformRecommendationToItinerary now (value_of r)) as [items | e] eqn:E.
  - apply transform_value_nonnull in E. rewrite Forall_forall in E.
    now destruct (E JNull Hnull).
  - repeat split.
Qed.

Lemma X21_null_place_fails_the_load_witness :
  let r := Backend.recommendation (lit "Paris") [JNull] [] in
  let st := useEffect_load (fun _ _ => 0%Z)
              [(lit "tripRecommendations", JSON.stringify (value_of r))] initial in
  recommendation st = value_of r /\
  error st = Some (lit "Failed to load trip recommendations") /\
  editedItinerary st = [] /\
  render st
  = Normal (ErrorScreen (lit "Failed to load trip recommendations")
              (lit "Return to Search") (lit "/")).
Proof.
  apply (@X21_null_place_fails_the_load (fun _ _ => 0%Z)
           [(lit "tripRecommendations",
             JSON.stringify (value_of (Backend.recommendation (lit "Paris") [JNull] [])))]
           (Backend.recommendation (lit "Paris") [JNull] [])).
  - reflexivity.
  - left. reflexivity.
  - reflexivity.
Defined.

(** X22. A recommendation as the backend builds it has no dates: once it is
    stored and loaded, without error and with one item per place, the
    component throws while it renders, on reading the start of the missing
    dates. *)
Theorem X22_render_throws_without_dates (now : nat -> nat -> Z)
    (localStorage : Browser.Storage) (r : TripRecommendation) :
  valid_recommendation r = true ->
  Forall (fun p => p <> JNull) (List.concat (map places (slots r))) ->
  Browser.getItem localStorage (lit "tripRecommendations")
  = Some (JSON.stringify (value_of r)) ->
  let st := useEffect_load now localStorage initial in
  recommendation st = value_of r /\
  error st = None /\
  length (editedItinerary st) = slots_total r /\
  render st = Throw (CannotReadProperty None (lit "start")).
Proof.
  intros Hvalid Hplaces Hget st. subst st.
  rewrite (@useEffect_load_parsed now localStorage (value_of r) (value_of_wf r Hvalid) Hget).
  destruct (transform_value_items now r Hplaces)
    as (i1 & i2 & i3 & i4 & i5 & i6 & ->
        & (L1 & _) & (L2 & _) & (L3 & _) & (L4 & _) & (L5 & _) & (L6 & _)).
  repeat split.
  cbn [editedItinerary setEditedItinerary].
  unfold slots_total, slots. cbn [map List.concat].
  rewrite app_nil_r, !length_app. lia.
Qed.

Lemma X22_render_throws_without_dates_witness :
  let r := Backend.recommendation (lit "Paris") paris_attractions paris_restaurants in
  let st := useEffect_load (fun _ _ => 0%Z)
              [(lit "tripRecommendations", JSON.stringify (value_of r))] initial in
  recommendation st = value_of r /\
  error st = None /\
  length (editedItinerary st) = slots_total r /\
  render st = Throw (CannotReadProperty None (lit "start")).
Proof.
  apply (@X22_render_throws_without_dates (fun _ _ => 0%Z)
           [(lit "tripRecommendations",
             JSON.stringify
               (value_of (Backend.recommendation (lit "Paris")
                            paris_attractions paris_restaurants)))]
           (Backend.recommendation (lit "Paris") paris_attractions paris_restaurants)).
  - reflexivity.
  - repeat constructor; discriminate.
  - reflexivity.
Defined.

(** With dates, the component returns the editor page. *)
Example render_with_dates :
  let stored := JObj [(lit "city", JStr (lit "Paris"));
                      (lit "dates", JObj [(lit "start", JStr (lit "2024-05-07"));
                                          (lit "end", JStr (lit "2024-05-09"))])] in
  render (setRecommendation stored initial)
  = Normal (EditorPage (Some (JStr (lit "Paris"))) (Some (JStr (lit "2024-05-07")))
              (Some (JStr (lit "2024-05-09"))) [] []).
Proof. reflexivity. Qed.

(** X23. When the stored recommendation is absent, or is a text that is not
    JSON, this view too ends in its error state and returns the error screen,
    whose button leads back to the start page; nothing is thrown. *)
Theorem X23_editor_absent_or_invalid (now : nat -> nat -> Z)
    (localStorage : Browser.Storage) :
  Browser.getItem localStorage (lit "tripRecommendations") = None \/
  (exists text,
     Browser.getItem localStorage (lit "tripRecommendations") = Some text /\
     JSON.parse text = Throw JSON.Unexpected) ->
  let st := useEffect_load now localStorage initial in
  exists message,
    error st = Some message /\
    recommendation st = JNull /\
    render st = Normal (ErrorScreen message (lit "Return to Search") (lit "/")).
Proof.
  intros H st. subst st. unfold useEffect_load.
  destruct H as [-> | (text & -> & Hparse)].
  - eexists. repeat split.
  - destruct text as [| c text]; cbn [truthy_str].
    + eexists. repeat split.
    + rewrite Hparse. eexists. repeat split.
Qed.

Lemma X23_editor_absent_or_invalid_witness :
  let st := useEffect_load (fun _ _ => 0%Z) [] initial in
  exists message,
    error st = Some message /\
    recommendation st = JNull /\
    render st = Normal (ErrorScreen message (lit "Return to Search") (lit "/")).
Proof.
  apply (@X23_editor_absent_or_invalid (fun _ _ => 0%Z) []).
  left. reflexivity.
Defined.
End Editor.

(** ** The results views: the components under the itinerary *)

Section ComponentTree.
Import JSValue Components ItineraryPage.

Lemma typed_place_fields (place : json) :
  typed_place place = true -> typed_fields place = true /\ typed_name place = true.
Proof. unfold typed_place. intros H. apply andb_prop in H. exact H. Qed.

Lemma typed_fields_object (place : json) :
  typed_fields place = true -> exists members, place = JObj members.
Proof. destruct place; try discriminate. intros _. eexists. reflexivity. Qed.

Lemma read_keys_objects (places_ : list json) :
  Forall (fun p => p <> JNull) places_ -> read_keys places_ = Normal tt.
Proof.
  induction 1 as [| p ps Hp _ IH]; [reflexivity |].
  cbn [read_keys]. destruct p; try (exfalso; apply Hp; reflexivity);
    cbn [reads read bind]; exact IH.
Qed.

Lemma render_cards_throws (Card : Type) (PlaceCard : json -> completion RenderError Card)
    (places_ : list json) (place : json) (e : RenderError) :
  In place places_ -> PlaceCard place = Throw e ->
  exists e', render_cards PlaceCard places_ = Throw e'.
Proof.
  induction places_ as [| p ps IH]; intros Hin Hthrow; [destruct Hin |].
  cbn [render_cards]. destruct Hin as [-> | Hin].
  - rewrite Hthrow. eexists. reflexivity.
  - destruct (PlaceCard p); [| eexists; reflexivity].
    destruct (IH Hin Hthrow) as [e' ->]. eexists. reflexivity.
Qed.

(** A slot of the backend's recommendation, under [TimeSlotSection]. *)
Lemma TimeSlotSection_slot (Card : Type)
    (PlaceCard : json -> completion RenderError Card) (s : TimeSlot) :
  TimeSlotSection PlaceCard (Some (slot_value s))
  = (_ <- read_keys (places s) ;;
     place_cards <- render_cards PlaceCard (places s) ;;
     Normal {| slot_title := Some (JStr (title s));
               slot_description := Some (JStr (description s));
               cards := place_cards |})%js.
Proof.
  unfold TimeSlotSection, slot_value. cbn [reads read bind].
  change (own_property _ (lit "title")) with (Some (JStr (title s))).
  change (own_property _ (lit "description")) with (Some (JStr (description s))).
  change (own_property _ (lit "places")) with (Some (JArr (places s))).
  cbn [bind]. destruct (read_keys (places s)); reflexivity.
Qed.

Lemma DaySection_day (Card : Type)
    (PlaceCard : json -> completion RenderError Card) (d : Day) :
  DaySection PlaceCard (Some (day_value d))
  = (m <- TimeSlotSection PlaceCard (Some (slot_value (morning d))) ;;
     a <- TimeSlotSection PlaceCard (Some (slot_value (afternoon d))) ;;
     e <- TimeSlotSection PlaceCard (Some (slot_value (evening d))) ;;
     Normal {| morning_view := m; afternoon_view := a; evening_view := e |})%js.
Proof. reflexivity. Qed.

Lemma Itinerary_value (Card : Type)
    (PlaceCard : json -> completion RenderError Card) (r : TripRecommendation) :
  Itinerary PlaceCard (value_of r)
  = (d1 <- DaySection PlaceCard (Some (day_value (day1 r))) ;;
     d2 <- DaySection PlaceCard (Some (day_value (day2 r))) ;;
     Normal {| page_city := Some (JStr (city r)); day1_view := d1; day2_view := d2 |})%js.
Proof. reflexivity. Qed.

(** X24. Under either [PlaceCard], the itinerary of a value whose day1 or
    day2 is undefined or null throws while it renders: [DaySection] reads
    [day.morning] of it. *)
Theorem X24_missing_day_breaks_the_page (Card : Type)
    (PlaceCard : json -> completion RenderError Card) (v : json) :
  missing (read_opt (Some v) (lit "day1"))
  || missing (read_opt (Some v) (lit "day2")) = true ->
  exists e, Itinerary PlaceCard v = Throw e.
Proof.
  intros H. unfold Itinerary.
  destruct (reads (Some v) (lit "city")) as [city_ | e] eqn:Hcity;
    [| eexists; reflexivity].
  assert (Hread : forall k, reads (Some v) k = Normal (read_opt (Some v) k)).
  { intros k. destruct v; try reflexivity. discriminate Hcity. }
  rewrite !Hread. cbn [bind].
  destruct (child city_); [| eexists; reflexivity]. cbn [bind].
  assert (Hday : forall d, missing d = true ->
                 exists e, DaySection PlaceCard d = Throw e).
  { intros [[]|]; try discriminate; intros _; eexists; reflexivity. }
  apply orb_prop in H as [H | H].
  - destruct (Hday _ H) as [e ->]. eexists. reflexivity.
  - destruct (DaySection PlaceCard (read_opt (Some v) (lit "day1")));
      [| eexists; reflexivity].
    cbn [bind]. destruct (Hday _ H) as [e ->]. eexists. reflexivity.
Qed.

Lemma X24_missing_day_breaks_the_page_witness :
  exists e, Itinerary (ResultsCard.PlaceCard (Some (lit "k"))) (JObj []) = Throw e.
Proof.
  apply (@X24_missing_day_breaks_the_page _
           (ResultsCard.PlaceCard (Some (lit "k"))) (JObj [])).
  reflexivity.
Defined.

(** The first photo of a typed list of photos, under the two cards. *)
Lemma typed_first_photo (photos : value) :
  typed_photos photos = true ->
  first_of photos = None \/
  exists members name_,
    first_of photos = Some (JObj members) /\
    own_property members (lit "name") = Some (JStr name_) /\
    exists shown,
      child (if truthy_value (own_property members (lit "authorAttributions"))
             then read_opt (first_of (own_property members
                                        (lit "authorAttributions"))) (lit "name")
             else own_property members (lit "authorAttributions"))
      = Normal shown.
Proof.
  intros H. destruct photos as [[| | | | phs |] |]; try discriminate H;
    [| left; reflexivity].
  destruct phs as [| ph phs]; [left; reflexivity |].
  cbn [typed_photos forallb] in H. apply andb_prop in H as [H _].
  destruct ph as [| | | | | pm]; try discriminate H.
  unfold typed_photo in H. apply andb_prop in H as [Hname Hattr].
  destruct (own_property pm (lit "name")) as [[| | | name_ | |] |] eqn:En;
    try discriminate Hname.
  right. exists pm, name_. split; [reflexivity |]. split; [exact En |].
  destruct (own_property pm (lit "authorAttributions")) as [[| | | | attrs |] |];
    try discriminate Hattr; [| eexists; reflexivity].
  cbn [truthy_value truthy].
  destruct attrs as [| a attrs]; [eexists; reflexivity |].
  cbn [forallb] in Hattr. apply andb_prop in Hattr as [Ha _].
  destruct a as [| | | | | am]; try discriminate Ha.
  cbn [first_of read_opt]. unfold typed_attribution in Ha.
  destruct (own_property am (lit "name")) as [[] |]; try discriminate Ha;
    eexists; reflexivity.
Qed.

(** The image of the first card and its attribution line. *)
Lemma typed_image (apiKey : option jsstring) (photos : value) :
  typed_photos photos = true ->
  let photo := first_of photos in
  exists src shown,
    (if truthy_value photo
     then url <- ResultsCard.getPhotoUrl_of apiKey
                   (or_else (read_opt photo (lit "name")) (JStr [])) ;;
          Normal (Some url)
     else Normal None)%js = Normal src /\
    (if truthy_value photo
     then child (if truthy_value (read_opt photo (lit "authorAttributions"))
                 then read_opt (first_of (read_opt photo (lit "authorAttributions")))
                        (lit "name")
                 else read_opt photo (lit "authorAttributions"))
     else Normal None) = Normal shown.
Proof.
  intros H photo. subst photo.
  destruct (typed_first_photo _ H) as [-> | (pm & name_ & -> & En & shown & Hshown)].
  - do 2 eexists. split; reflexivity.
  - cbn [truthy_value truthy read_opt]. rewrite En, Hshown.
    unfold or_else. destruct (truthy (JStr name_)); do 2 eexists; split; reflexivity.
Qed.

(** The image of the second card, before the [alt] text is read. *)
Lemma typed_image_split (apiKey : option jsstring) (photos : value) :
  typed_photos photos = true ->
  let name_ := read_opt (first_of photos) (lit "name") in
  truthy_value name_ = false \/
  exists url,
    ResultsSplitCard.getPhotoUrl_of apiKey
      (match name_ with Some n => n | None => JNull end) = Normal url.
Proof.
  intros H name_. subst name_.
  destruct (typed_first_photo _ H) as [-> | (pm & name_ & -> & En & _)].
  - left. reflexivity.
  - right. cbn [read_opt]. rewrite En. eexists. reflexivity.
Qed.

(** The text lines of the first card. *)
Lemma typed_lines (src : option jsstring) (shown_heading address rating count : value) :
  string_or_absent address = true ->
  number_or_absent rating = true ->
  number_or_absent count = true ->
  (shown_address <- child address ;;
   _ <- child rating ;;
   _ <- (if truthy_value rating then child count else Normal None) ;;
   Normal {| image := src; heading := shown_heading;
             address_ := shown_address;
             rating_shown := truthy_value rating |})%js
  = Normal {| image := src; heading := shown_heading;
              address_ := address;
              rating_shown := truthy_value rating |}.
Proof.
  intros Ha Hr Hc.
  destruct address as [[] |]; try discriminate Ha;
  destruct rating as [[| | n | | |] |]; try discriminate Hr;
  destruct count as [[] |]; try discriminate Hc;
  cbn [truthy_value truthy]; try destruct (number_is_zero n); reflexivity.
Qed.

(** The text lines of the second card, after the heading is read. *)
Lemma typed_lines_split (src : option jsstring) (text : jsstring)
    (address rating count : value) :
  string_or_absent address = true ->
  number_or_absent rating = true ->
  number_or_absent count = true ->
  (count' <- (if truthy_value rating
              then match rating with
                   | Some (JNum _) => Normal count
                   | Some other => Throw (NotAFunction other (lit "toFixed"))
                   | None => Normal None
                   end
              else Normal None) ;;
   shown_heading <- child (Some (JStr text)) ;;
   shown_address <- child address ;;
   _ <- child (if truthy_value rating then None else rating) ;;
   _ <- child count' ;;
   Normal {| image := src; heading := shown_heading;
             address_ := shown_address;
             rating_shown := truthy_value rating |})%js
  = Normal {| image := src; heading := Some (JStr text);
              address_ := address;
              rating_shown := truthy_value rating |}.
Proof.
  intros Ha Hr Hc.
  destruct address as [[] |]; try discriminate Ha;
  destruct rating as [[| | n | | |] |]; try discriminate Hr;
  destruct count as [[] |]; try discriminate Hc;
  cbn [truthy_value truthy]; try destruct (number_is_zero n); reflexivity.
Qed.

Lemma typed_fields_inv (members : list (jsstring * json)) :
  typed_fields (JObj members) = true ->
  string_or_absent (own_property members (lit "formattedAddress")) = true /\
  number_or_absent (own_property members (lit "rating")) = true /\
  number_or_absent (own_property members (lit "userRatingCount")) = true /\
  typed_photos (own_property members (lit "photos")) = true.
Proof.
  unfold typed_fields. intros H.
  apply andb_prop in H as [H H4]. apply andb_prop in H as [H H3].
  apply andb_prop in H as [H H2]. apply andb_prop in H as [_ H1].
  repeat split; assumption.
Qed.

(** What the first card shows of a place whose fields, [displayName] apart,
    are typed. *)
Lemma typed_fields_card (apiKey : option jsstring) (place : json) :
  typed_fields place = true ->
  renderable_value (name_of place) = true ->
  exists src,
    ResultsCard.PlaceCard apiKey place
    = Normal {| image := src;
                heading := name_of place;
                address_ := read_opt (Some place) (lit "formattedAddress");
                rating_shown := truthy_value (read_opt (Some place) (lit "rating")) |}.
Proof.
  intros Hf Hname. destruct (typed_fields_object _ Hf) as [ms ->].
  apply typed_fields_inv in Hf as (Ha & Hr & Hc & Hp).
  destruct (typed_image apiKey _ Hp) as (src & shown & Hsrc & Hshown).
  cbv zeta in Hsrc, Hshown.
  exists src. unfold ResultsCard.PlaceCard. cbn [reads read bind read_opt].
  rewrite Hsrc. cbn [bind]. rewrite Hshown. cbn [bind].
  unfold name_of in *. cbn [read_opt] in *.
  replace (child (read_opt (own_property ms (lit "displayName")) (lit "text")))
    with (Normal (E:=RenderError)
            (read_opt (own_property ms (lit "displayName")) (lit "text"))).
  2:{ unfold renderable_value in Hname. unfold child.
      destruct (read_opt (own_property ms (lit "displayName")) (lit "text"));
        [rewrite Hname |]; reflexivity. }
  cbn [bind]. apply typed_lines; assumption.
Qed.

(** What the second card shows of a typed place. *)
Lemma typed_place_card_split (apiKey : option jsstring) (place : json) :
  typed_place place = true ->
  exists src,
    ResultsSplitCard.PlaceCard apiKey place
    = Normal {| image := src;
                heading := name_of place;
                address_ := read_opt (Some place) (lit "formattedAddress");
                rating_shown := truthy_value (read_opt (Some place) (lit "rating")) |}.
Proof.
  intros H. apply typed_place_fields in H as [Hf Hn].
  destruct (typed_fields_object _ Hf) as [ms ->].
  apply typed_fields_inv in Hf as (Ha & Hr & Hc & Hp).
  unfold typed_name in Hn. unfold name_of. cbn [read_opt] in *.
  destruct (own_property ms (lit "displayName")) as [[| | | | | dm] |] eqn:Ed;
    try discriminate Hn.
  destruct (own_property dm (lit "text")) as [[| | | text | |] |] eqn:Et;
    try discriminate Hn.
  unfold ResultsSplitCard.PlaceCard. cbn [reads read bind]. rewrite Ed.
  cbn [reads read bind]. rewrite Et. cbn [bind].
  destruct (typed_image_split apiKey _ Hp) as [Hno | [url Hurl]]; cbv zeta in *.
  - rewrite Hno. cbn [bind read_opt]. exists None. rewrite Et.
    apply typed_lines_split; assumption.
  - destruct (truthy_value (read_opt (first_of (own_property ms (lit "photos")))
                              (lit "name"))).
    + rewrite Hurl. cbn [bind read_opt]. exists (Some url). rewrite Et.
      apply typed_lines_split; assumption.
    + cbn [bind read_opt]. exists None. rewrite Et.
      apply typed_lines_split; assumption.
Qed.

Lemma typed_name_renderable (place : json) :
  typed_name place = true -> renderable_value (name_of place) = true.
Proof.
  unfold typed_name, name_of.
  destruct (read_opt (Some place) (lit "displayName")) as [[| | | | | dm] |];
    try discriminate.
  cbn [read_opt]. destruct (own_property dm (lit "text")) as [[] |];
    try discriminate. reflexivity.
Qed.

Lemma render_cards_Forall2 (Card : Type)
    (PlaceCard : json -> completion RenderError Card)
    (P : json -> Card -> Prop) (places_ : list json) :
  Forall (fun p => exists c, PlaceCard p = Normal c /\ P p c) places_ ->
  exists cards_, render_cards PlaceCard places_ = Normal cards_ /\
                 Forall2 P places_ cards_.
Proof.
  induction 1 as [| p ps (c & Hc & HP) _ (cs & IH & HF)].
  - exists []. split; [reflexivity | constructor].
  - exists (c :: cs). cbn [render_cards]. rewrite Hc, IH.
    split; [reflexivity | constructor; assumption].
Qed.

Lemma TimeSlotSection_shows (PlaceCard : json -> completion RenderError Card)
    (s : TimeSlot) :
  Forall (fun p => p <> JNull /\ exists c, PlaceCard p = Normal c /\ card_of p c)
         (places s) ->
  exists view, TimeSlotSection PlaceCard (Some (slot_value s)) = Normal view /\
               shows_slot s view.
Proof.
  intros H. rewrite TimeSlotSection_slot.
  rewrite read_keys_objects
    by (eapply Forall_impl; [| exact H]; intros p [Hp _]; exact Hp).
  cbn [bind].
  destruct (@render_cards_Forall2 _ PlaceCard card_of (places s))
    as (cs & -> & HF).
  { eapply Forall_impl; [| exact H]. intros p [_ Hp]. exact Hp. }
  eexists. split; [reflexivity |]. repeat split. exact HF.
Qed.

Lemma Itinerary_shows (PlaceCard : json -> completion RenderError Card)
    (r : TripRecommendation) :
  Forall (fun p => p <> JNull /\ exists c, PlaceCard p = Normal c /\ card_of p c)
         (List.concat (map places (slots r))) ->
  exists page, Itinerary PlaceCard (value_of r) = Normal page /\ shows r page.
Proof.
  unfold slots. cbn [map List.concat]. rewrite app_nil_r.
  rewrite !Forall_app. intros (H1 & H2 & H3 & H4 & H5 & H6).
  rewrite Itinerary_value, !DaySection_day.
  destruct (@TimeSlotSection_shows _ _ H1) as (v1 & -> & S1).
  destruct (@TimeSlotSection_shows _ _ H2) as (v2 & -> & S2).
  destruct (@TimeSlotSection_shows _ _ H3) as (v3 & -> & S3).
  destruct (@TimeSlotSection_shows _ _ H4) as (v4 & -> & S4).
  destruct (@TimeSlotSection_shows _ _ H5) as (v5 & -> & S5).
  destruct (@TimeSlotSection_shows _ _ H6) as (v6 & -> & S6).
  cbn [bind]. eexists. split; [reflexivity |].
  split; [reflexivity |]. unfold slot_views, slots.
  cbn [day1_view day2_view morning_view afternoon_view evening_view].
  repeat (first [apply Forall2_nil | apply Forall2_cons; [assumption |]]).
Qed.

Lemma typed_place_not_null (place : json) :
  typed_place place = true -> place <> JNull.
Proof. intros H ->. discriminate H. Qed.

(** X25. A recommendation of the backend whose places are as the [Place]
    interface says renders in both views without an exception, and both
    pages show the same: the city, and for each of the six slots its title,
    its description and one card per place, in order, with the place's
    display name and address and a rating line when the rating is truthy. *)
Theorem X25_typed_recommendation_renders (apiKey : option jsstring)
    (r : TripRecommendation) :
  forallb typed_place (List.concat (map places (slots r))) = true ->
  exists page1 page2,
    Itinerary (ResultsCard.PlaceCard apiKey) (value_of r) = Normal page1 /\
    Itinerary (ResultsSplitCard.PlaceCard apiKey) (value_of r) = Normal page2 /\
    shows r page1 /\ shows r page2.
Proof.
  intros H. rewrite forallb_forall in H. rewrite <- Forall_forall in H.
  destruct (@Itinerary_shows (ResultsCard.PlaceCard apiKey) r) as (p1 & E1 & S1).
  { eapply Forall_impl; [| exact H]. cbv beta. intros p Hp.
    split; [exact (@typed_place_not_null _ Hp) |].
    destruct (@typed_place_fields _ Hp) as [Hf Hn].
    destruct (@typed_fields_card apiKey _ Hf (@typed_name_renderable _ Hn))
      as [src ->].
    eexists. split; [reflexivity |]. repeat split. }
  destruct (@Itinerary_shows (ResultsSplitCard.PlaceCard apiKey) r) as (p2 & E2 & S2).
  { eapply Forall_impl; [| exact H]. cbv beta. intros p Hp.
    split; [exact (@typed_place_not_null _ Hp) |].
    destruct (@typed_place_card_split apiKey _ Hp) as [src ->].
    eexists. split; [reflexivity |]. repeat split. }
  exists p1, p2. split; [exact E1 |]. split; [exact E2 |]. split; assumption.
Qed.

Lemma X25_typed_recommendation_renders_witness :
  let r := Backend.recommendation (lit "Paris")
             Scenario.paris_attractions Scenario.paris_restaurants in
  exists page1 page2,
    Itinerary (ResultsCard.PlaceCard (Some (lit "k"))) (value_of r) = Normal page1 /\
    Itinerary (ResultsSplitCard.PlaceCard (Some (lit "k"))) (value_of r) = Normal page2 /\
    shows r page1 /\ shows r page2.
Proof.
  apply (@X25_typed_recommendation_renders (Some (lit "k"))
           (Backend.recommendation (lit "Paris")
              Scenario.paris_attractions Scenario.paris_restaurants)).
  vm_compute. reflexivity.
Defined.

(** X26. A place without a display name (undefined or null), its other
    fields typed: the card of results/page.tsx shows it with no heading,
    the card of the second view throws, whatever the credential. *)
Theorem X26_card_without_display_name (apiKey : option jsstring) (place : json) :
  typed_fields place = true ->
  missing (read_opt (Some place) (lit "displayName")) = true ->
  (exists card, ResultsCard.PlaceCard apiKey place = Normal card /\
                heading card = None /\ card_of place card) /\
  (exists e, ResultsSplitCard.PlaceCard apiKey place = Throw e).
Proof.
  intros Hf Hm.
  assert (Hname : name_of place = None).
  { unfold name_of.
    destruct (read_opt (Some place) (lit "displayName")) as [[] |];
      try discriminate Hm; reflexivity. }
  split.
  - assert (Hr : renderable_value (name_of place) = true)
      by (rewrite Hname; reflexivity).
    destruct (@typed_fields_card apiKey place Hf Hr) as [src ->].
    eexists. split; [reflexivity |]. unfold card_of. rewrite Hname. repeat split.
  - destruct (@typed_fields_object _ Hf) as [ms ->]. cbn [read_opt] in Hm.
    unfold ResultsSplitCard.PlaceCard. cbn [reads read bind].
    assert (Hthrow : exists e,
              reads (own_property ms (lit "displayName")) (lit "text") = Throw e).
    { destruct (own_property ms (lit "displayName")) as [[] |];
        try discriminate Hm; eexists; reflexivity. }
    destruct Hthrow as [e He].
    destruct (truthy_value _).
    + destruct (ResultsSplitCard.getPhotoUrl_of _ _); [| eexists; reflexivity].
      cbn [bind]. rewrite He. eexists. reflexivity.
    + cbn [bind]. rewrite He. eexists. reflexivity.
Qed.

Lemma X26_card_without_display_name_witness :
  let place := JObj [(lit "id", JStr (lit "a"))] in
  (exists card, ResultsCard.PlaceCard None place = Normal card /\
                heading card = None /\ card_of place card) /\
  (exists e, ResultsSplitCard.PlaceCard None place = Throw e).
Proof.
  apply (@X26_card_without_display_name None (JObj [(lit "id", JStr (lit "a"))]));
    reflexivity.
Defined.

(** X27. The card of the second view throws for every place whose rating is
    truthy and no number: it calls [toFixed] on it. *)
Theorem X27_rating_that_is_no_number (apiKey : option jsstring)
    (members : list (jsstring * json)) :
  truthy_value (own_property members (lit "rating")) = true ->
  number_or_absent (own_property members (lit "rating")) = false ->
  exists e, ResultsSplitCard.PlaceCard apiKey (JObj members) = Throw e.
Proof.
  intros Ht Hn. unfold ResultsSplitCard.PlaceCard. cbn [reads read bind].
  destruct (reads (own_property members (lit "displayName")) (lit "text")).
  - destruct (if truthy_value _ then _ else _); [| eexists; reflexivity].
    cbn [bind]. rewrite Ht.
    destruct (own_property members (lit "rating")) as [[] |];
      try discriminate Hn; try discriminate Ht; eexists; reflexivity.
  - destruct (truthy_value (read_opt _ _)); [| eexists; reflexivity].
    destruct (ResultsSplitCard.getPhotoUrl_of _ _); eexists; reflexivity.
Qed.

Lemma X27_rating_that_is_no_number_witness :
  exists e,
    ResultsSplitCard.PlaceCard None
      (JObj [(lit "displayName", JObj [(lit "text", JStr (lit "Louvre"))]);
             (lit "rating", JStr (lit "4.7"))]) = Throw e.
Proof.
  apply (@X27_rating_that_is_no_number None
           [(lit "displayName", JObj [(lit "text", JStr (lit "Louvre"))]);
            (lit "rating", JStr (lit "4.7"))]); reflexivity.
Defined.

Lemma TimeSlotSection_throws (Card : Type)
    (PlaceCard : json -> completion RenderError Card)
    (s : TimeSlot) (place : json) (e : RenderError) :
  In place (places s) -> PlaceCard place = Throw e ->
  exists e', TimeSlotSection PlaceCard (Some (slot_value s)) = Throw e'.
Proof.
  intros Hin Hthrow. rewrite TimeSlotSection_slot.
  destruct (read_keys (places s)); [| eexists; reflexivity].
  cbn [bind]. destruct (@render_cards_throws _ PlaceCard _ _ _ Hin Hthrow) as [e' ->].
  eexists. reflexivity.
Qed.

(** X28. Nothing between a card and the page catches: when the card of one
    place of a recommendation throws, the whole itinerary throws. *)
Theorem X28_one_card_takes_the_page_down (Card : Type)
    (PlaceCard : json -> completion RenderError Card)
    (r : TripRecommendation) (place : json) (e : RenderError) :
  In place (List.concat (map places (slots r))) ->
  PlaceCard place = Throw e ->
  exists e', Itinerary PlaceCard (value_of r) = Throw e'.
Proof.
  unfold slots. cbn [map List.concat]. rewrite app_nil_r. rewrite !in_app_iff.
  intros Hin Hthrow. rewrite Itinerary_value, !DaySection_day.
  assert (Hs : forall s, In place (places s) ->
               exists e', TimeSlotSection PlaceCard (Some (slot_value s)) = Throw e').
  { intros s Hs. exact (@TimeSlotSection_throws _ PlaceCard s _ _ Hs Hthrow). }
  destruct (TimeSlotSection PlaceCard (Some (slot_value (morning (day1 r)))))
    eqn:E1; [| eexists; reflexivity].
  destruct (TimeSlotSection PlaceCard (Some (slot_value (afternoon (day1 r)))))
    eqn:E2; [| eexists; reflexivity].
  destruct (TimeSlotSection PlaceCard (Some (slot_value (evening (day1 r)))))
    eqn:E3; [| eexists; reflexivity].
  destruct (TimeSlotSection PlaceCard (Some (slot_value (morning (day2 r)))))
    eqn:E4; [| eexists; reflexivity].
  destruct (TimeSlotSection PlaceCard (Some (slot_value (afternoon (day2 r)))))
    eqn:E5; [| eexists; reflexivity].
  destruct (TimeSlotSection PlaceCard (Some (slot_value (evening (day2 r)))))
    eqn:E6; [| eexists; reflexivity].
  exfalso.
  destruct Hin as [H | [H | [H | [H | [H | H]]]]];
    destruct (Hs _ H) as [e' He']; congruence.
Qed.

Lemma X28_one_card_takes_the_page_down_witness :
  exists e',
    Itinerary (ResultsSplitCard.PlaceCard None)
      (value_of (Backend.recommendation (lit "Paris") [JObj []] [])) = Throw e'.
Proof.
  eapply (@X28_one_card_takes_the_page_down _ (ResultsSplitCard.PlaceCard None)
            (Backend.recommendation (lit "Paris") [JObj []] []) (JObj [])).
  - left. reflexivity.
  - reflexivity.
Defined.

End ComponentTree.
